(** * End-to-end encrypted chat: a shallow embedding of the key manager,
    the password vault, the secure socket client and the relay's message
    store, with the properties of the design checked against the code. *)

From Stdlib Require Import NArith ZArith List Ascii String Bool Lia.
From stdpp Require Import gmap strings list.

Open Scope N_scope.

(** ** JavaScript values and effects *)

(** A [Uint8Array] (and a Latin-1 "binary string") is a list of octets. *)
Definition bytes : Type := list ascii.

(** A JavaScript string proper is a sequence of UTF-16 code units. *)
Definition jsstring : Type := list N.

(** What a [throw] carries: [new Error(message)], a [DOMException] by name,
    a [SyntaxError] of [JSON.parse], or another rejection named by its class. *)
Inductive JsError : Type :=
| Error (message : string)
| DOMException (name : string)
| SyntaxError
| OperationError.

Inductive outcome (A : Type) : Type :=
| Return (a : A)
| Throw (e : JsError).
Arguments Return {A} a.
Arguments Throw {A} e.

(** Methods that mutate [this] or the environment thread a state of type [St];
    a thrown error keeps the mutations made before it. *)
Definition Js (St A : Type) : Type := St -> outcome A * St.

Definition ret {St A} (a : A) : Js St A := fun s => (Return a, s).
Definition throw {St A} (e : JsError) : Js St A := fun s => (Throw e, s).
Definition bind {St A B} (c : Js St A) (k : A -> Js St B) : Js St B :=
  fun s => match c s with
           | (Return a, s') => k a s'
           | (Throw e, s') => (Throw e, s')
           end.
Definition try_catch {St A} (c : Js St A) (h : JsError -> Js St A) : Js St A :=
  fun s => match c s with
           | (Return a, s') => (Return a, s')
           | (Throw e, s') => h e s'
           end.
Definition get {St} : Js St St := fun s => (Return s, s).
Definition modify {St} (f : St -> St) : Js St unit := fun s => (Return tt, f s).

Notation "'let!' x ':=' c 'in' k" := (bind c (fun x => k))
  (at level 10, x name, c at level 100, k at level 200).
Notation "'do!' c 'in' k" := (bind c (fun _ => k))
  (at level 10, c at level 100, k at level 200).

Fixpoint mapM {St A B} (f : A -> Js St B) (l : list A) : Js St (list B) :=
  match l with
  | [] => ret []
  | a :: l' => let! b := f a in let! bs := mapM f l' in ret (b :: bs)
  end.

(** JavaScript truthiness of a string: the empty string is falsy. *)
Definition truthy {A} (s : list A) : bool :=
  match s with [] => false | _ => true end.

(** ** [btoa] and [atob]

    The two built-ins behind [arrayBufferToBase64] and [base64ToArrayBuffer],
    on binary strings: [btoa] is RFC 4648 with padding, [atob] the forgiving
    decoder of the HTML standard ([None] is its [InvalidCharacterError]). *)

Module Base64.

(** The alphabet: A-Z, a-z, 0-9, plus and slash. *)
Definition char_of_sextet (n : N) : ascii :=
  if n <? 26 then ascii_of_N (65 + n)
  else if n <? 52 then ascii_of_N (97 + (n - 26))
  else if n <? 62 then ascii_of_N (48 + (n - 52))
  else if n =? 62 then "+"%char
  else "/"%char.

Definition sextet_of_char (c : ascii) : option N :=
  let n := N_of_ascii c in
  if (65 <=? n) && (n <=? 90) then Some (n - 65)
  else if (97 <=? n) && (n <=? 122) then Some (n - 97 + 26)
  else if (48 <=? n) && (n <=? 57) then Some (n - 48 + 52)
  else if n =? 43 then Some 62
  else if n =? 47 then Some 63
  else None.

(** Three octets make four sextets; one or two left over make two or three. *)
Fixpoint sextets_of_bytes (bs : list ascii) : list N :=
  match bs with
  | a :: b :: c :: rest =>
      let x := N_of_ascii a in let y := N_of_ascii b in let z := N_of_ascii c in
      x / 4 :: (x mod 4) * 16 + y / 16 :: (y mod 16) * 4 + z / 64 :: z mod 64
        :: sextets_of_bytes rest
  | [a; b] =>
      let x := N_of_ascii a in let y := N_of_ascii b in
      [x / 4; (x mod 4) * 16 + y / 16; (y mod 16) * 4]
  | [a] => let x := N_of_ascii a in [x / 4; (x mod 4) * 16]
  | [] => []
  end.

Definition padding (len : nat) : list ascii :=
  repeat "="%char ((3 - len mod 3) mod 3)%nat.

Definition btoa (bs : list ascii) : list ascii :=
  map char_of_sextet (sextets_of_bytes bs) ++ padding (length bs).

(** TAB, LF, FF, CR and SPACE, which [atob] removes first. *)
Definition is_ascii_whitespace (c : ascii) : bool :=
  let n := N_of_ascii c in
  (n =? 9) || (n =? 10) || (n =? 12) || (n =? 13) || (n =? 32).

Definition is_pad (c : ascii) : bool := N_of_ascii c =? 61.

(** When the length is a multiple of four, one or two final pads go. *)
Definition strip_padding (s : list ascii) : list ascii :=
  if (length s mod 4 =? 0)%nat then
    match rev s with
    | p :: q :: r => if is_pad p then (if is_pad q then rev r else rev (q :: r)) else s
    | [p] => if is_pad p then [] else s
    | [] => s
    end
  else s.

(** Four sextets make three octets; the bits left over at the end are
    discarded. *)
Fixpoint bytes_of_sextets (ss : list N) : list ascii :=
  match ss with
  | a :: b :: c :: d :: rest =>
      ascii_of_N (a * 4 + b / 16) :: ascii_of_N ((b mod 16) * 16 + c / 4)
        :: ascii_of_N ((c mod 4) * 64 + d) :: bytes_of_sextets rest
  | [a; b; c] => [ascii_of_N (a * 4 + b / 16); ascii_of_N ((b mod 16) * 16 + c / 4)]
  | [a; b] => [ascii_of_N (a * 4 + b / 16)]
  | _ => []
  end.

Fixpoint mapM_sextet (s : list ascii) : option (list N) :=
  match s with
  | [] => Some []
  | c :: r =>
      match sextet_of_char c, mapM_sextet r with
      | Some n, Some ns => Some (n :: ns)
      | _, _ => None
      end
  end.

Definition atob (s : list ascii) : option (list ascii) :=
  let s1 := List.filter (fun c => negb (is_ascii_whitespace c)) s in
  let s2 := strip_padding s1 in
  if (length s2 mod 4 =? 1)%nat then None
  else option_map bytes_of_sextets (mapM_sextet s2).

End Base64.

(** ** [TextEncoder] and [TextDecoder]

    [new TextEncoder().encode(s)] converts the string to scalar values (an
    unpaired surrogate becomes U+FFFD) and writes them in UTF-8.
    [new TextDecoder().decode(b)] runs the UTF-8 decoder of the Encoding
    standard in replacement mode, drops a leading U+FEFF (the default,
    [ignoreBOM] being false) and returns the code units. *)

Module Text.

Definition is_lead (u : N) : bool := (0xD800 <=? u) && (u <=? 0xDBFF).
Definition is_trail (u : N) : bool := (0xDC00 <=? u) && (u <=? 0xDFFF).
Definition is_scalar (cp : N) : bool :=
  (cp <? 0x110000) && negb ((0xD800 <=? cp) && (cp <=? 0xDFFF)).

(** The scalar values of a string of code units. *)
Fixpoint code_points (s : list N) : list N :=
  match s with
  | [] => []
  | u :: rest =>
      if is_lead u then
        match rest with
        | v :: rest' =>
            if is_trail v
            then 0x10000 + (u - 0xD800) * 0x400 + (v - 0xDC00) :: code_points rest'
            else 0xFFFD :: code_points rest
        | [] => [0xFFFD]
        end
      else if is_trail u then 0xFFFD :: code_points rest
      else u :: code_points rest
  end.

(** The code units of a scalar value: itself, or a surrogate pair. *)
Definition code_units (cp : N) : list N :=
  if cp <? 0x10000 then [cp]
  else [0xD800 + (cp - 0x10000) / 0x400; 0xDC00 + (cp - 0x10000) mod 0x400].

Definition utf8_encode (cp : N) : list ascii :=
  if cp <? 0x80 then [ascii_of_N cp]
  else if cp <? 0x800 then
    [ascii_of_N (0xC0 + cp / 0x40); ascii_of_N (0x80 + cp mod 0x40)]
  else if cp <? 0x10000 then
    [ascii_of_N (0xE0 + cp / 0x1000); ascii_of_N (0x80 + (cp / 0x40) mod 0x40);
     ascii_of_N (0x80 + cp mod 0x40)]
  else
    [ascii_of_N (0xF0 + cp / 0x40000); ascii_of_N (0x80 + (cp / 0x1000) mod 0x40);
     ascii_of_N (0x80 + (cp / 0x40) mod 0x40); ascii_of_N (0x80 + cp mod 0x40)].

Definition TextEncoder_encode (s : list N) : list ascii :=
  flat_map utf8_encode (code_points s).

(** The state of the UTF-8 decoder. *)
Record decoder := {
  code_point : N; bytes_seen : N; bytes_needed : N;
  lower_boundary : N; upper_boundary : N }.

Definition decoder_init : decoder :=
  {| code_point := 0; bytes_seen := 0; bytes_needed := 0;
     lower_boundary := 0x80; upper_boundary := 0xBF |}.

(** The decoder's handler on a byte when no byte is awaited: the new state
    and the code points emitted. *)
Definition handle_lead (b : N) : decoder * list N :=
  if b <=? 0x7F then (decoder_init, [b])
  else if (0xC2 <=? b) && (b <=? 0xDF) then
    ({| code_point := N.land b 0x1F; bytes_seen := 0; bytes_needed := 1;
        lower_boundary := 0x80; upper_boundary := 0xBF |}, [])
  else if (0xE0 <=? b) && (b <=? 0xEF) then
    ({| code_point := N.land b 0xF; bytes_seen := 0; bytes_needed := 2;
        lower_boundary := if b =? 0xE0 then 0xA0 else 0x80;
        upper_boundary := if b =? 0xED then 0x9F else 0xBF |}, [])
  else if (0xF0 <=? b) && (b <=? 0xF4) then
    ({| code_point := N.land b 0x7; bytes_seen := 0; bytes_needed := 3;
        lower_boundary := if b =? 0xF0 then 0x90 else 0x80;
        upper_boundary := if b =? 0xF4 then 0x8F else 0xBF |}, [])
  else (decoder_init, [0xFFFD]).

(** The handler in any state.  A byte outside the awaited range emits
    U+FFFD and is then handled afresh. *)
Definition handle (d : decoder) (b : N) : decoder * list N :=
  if bytes_needed d =? 0 then handle_lead b
  else if negb ((lower_boundary d <=? b) && (b <=? upper_boundary d)) then
    let '(d', out) := handle_lead b in (d', 0xFFFD :: out)
  else
    let cp := N.lor (N.shiftl (code_point d) 6) (N.land b 0x3F) in
    if bytes_seen d + 1 =? bytes_needed d then (decoder_init, [cp])
    else ({| code_point := cp; bytes_seen := bytes_seen d + 1;
             bytes_needed := bytes_needed d;
             lower_boundary := 0x80; upper_boundary := 0xBF |}, []).

(** Decoding to the end of the input; a sequence cut short emits U+FFFD. *)
Fixpoint utf8_decode (d : decoder) (bs : list ascii) : list N :=
  match bs with
  | [] => if bytes_needed d =? 0 then [] else [0xFFFD]
  | b :: rest =>
      let '(d', out) := handle d (N_of_ascii b) in out ++ utf8_decode d' rest
  end.

Definition strip_bom (cps : list N) : list N :=
  match cps with
  | cp :: rest => if cp =? 0xFEFF then rest else cps
  | [] => []
  end.

Definition TextDecoder_decode (bs : list ascii) : list N :=
  flat_map code_units (strip_bom (utf8_decode decoder_init bs)).

(** Code units in range, every surrogate part of a pair. *)
Fixpoint well_formed (s : list N) : bool :=
  match s with
  | [] => true
  | u :: rest =>
      if is_lead u then
        match rest with
        | v :: rest' => is_trail v && well_formed rest'
        | [] => false
        end
      else negb (is_trail u) && (u <? 0x10000) && well_formed rest
  end.

(** The decoder run over a prefix of the input: the state reached and the
    code points emitted so far. *)
Fixpoint run (d : decoder) (bs : list ascii) : decoder * list N :=
  match bs with
  | [] => (d, [])
  | b :: rest =>
      let '(d', out) := handle d (N_of_ascii b) in
      let '(d'', out') := run d' rest in (d'', out ++ out')
  end.

Definition starts_with_bom (s : list N) : bool :=
  match s with u :: _ => u =? 0xFEFF | [] => false end.

End Text.

(** ** The platform: Web Crypto, JSON and the random source

    The browser's primitives are not code of the repository.  They are taken
    as a capability interface: one field per primitive the code calls. *)

Record EncryptedData := { ed_iv : list ascii; ed_ciphertext : list ascii }.
Record ExportedKeyPair := { privateKey : list ascii; publicKey : list ascii }.

Class Platform := {
  (** [CryptoKey] objects for AES-GCM, and the two halves of an ECDH pair. *)
  CryptoKey : Type;
  PrivateKey : Type;
  PublicKey : Type;
  (** The octets [crypto.getRandomValues] hands out, in the order drawn, and
      the identifiers [crypto.randomUUID] hands out. *)
  random_octet : nat -> ascii;
  random_uuid : nat -> string;
  (** [crypto.subtle.encrypt({name: "AES-GCM", iv, tagLength: 128}, key, data)]:
      ciphertext followed by the tag. *)
  subtle_encrypt : CryptoKey -> bytes -> bytes -> bytes;
  (** [crypto.subtle.decrypt] with the same parameters; [None] is the
      rejection of the promise. *)
  subtle_decrypt : CryptoKey -> bytes -> bytes -> option bytes;
  (** [crypto.subtle.importKey("spki", ...)]; [None] is a rejection. *)
  subtle_importKey_spki : bytes -> option PublicKey;
  (** [crypto.subtle.exportKey("spki", key)]; the public keys of the program
      are all created extractable. *)
  subtle_exportKey_spki : PublicKey -> bytes;
  (** ECDH [deriveBits] followed by HKDF [deriveKey] with a salt and an info. *)
  subtle_deriveKey_ECDH_HKDF : PrivateKey -> PublicKey -> bytes -> bytes -> CryptoKey;
  (** PBKDF2-SHA-256 [deriveKey]: password octets, salt, iteration count. *)
  subtle_deriveKey_PBKDF2 : bytes -> bytes -> N -> CryptoKey;
  (** [JSON.stringify] and [JSON.parse] at the two shapes the vault stores. *)
  JSON_stringify_EncryptedData : EncryptedData -> list ascii;
  JSON_parse_EncryptedData : list ascii -> outcome EncryptedData;
  JSON_stringify_ExportedKeyPair : ExportedKeyPair -> jsstring;
  JSON_parse_ExportedKeyPair : jsstring -> outcome ExportedKeyPair
}.

(** How far the two sources have been consumed. *)
Record Entropy := { octets_drawn : nat; uuids_drawn : nat }.

(** A state that carries the random sources. *)
Class HasEntropy (St : Type) := {
  entropy_of : St -> Entropy;
  with_entropy : Entropy -> St -> St
}.

#[export] Instance Entropy_HasEntropy : HasEntropy Entropy :=
  {| entropy_of := fun e => e; with_entropy := fun e _ => e |}.

Section Random.
Context `{Platform} {St : Type} `{HasEntropy St}.

(** The octets at positions [from .. from + n - 1] of the random source. *)
Definition random_block (from n : nat) : bytes := map random_octet (seq from n).

(** [crypto.getRandomValues(new Uint8Array(n))] *)
Definition getRandomValues (n : nat) : Js St bytes :=
  fun s =>
    let e := entropy_of s in
    (Return (random_block (octets_drawn e) n),
     with_entropy {| octets_drawn := octets_drawn e + n;
                     uuids_drawn := uuids_drawn e |} s).

(** [crypto.randomUUID()] *)
Definition randomUUID : Js St string :=
  fun s =>
    let e := entropy_of s in
    (Return (random_uuid (uuids_drawn e)),
     with_entropy {| octets_drawn := octets_drawn e;
                     uuids_drawn := S (uuids_drawn e) |} s).

End Random.

(** ** lib/crypto/e2e-encryption *)

Module E2E.

(** [{ciphertext, iv}], both Base64 text.  Base64 text and binary strings
    are kept as lists of Latin-1 characters; [atob] rejects any other
    character there is. *)
Record EncryptedMessage := { ciphertext : list ascii; iv : list ascii }.

Definition HKDF_salt : bytes := list_ascii_of_string "SecureChat-E2E-Salt-v1".
Definition HKDF_info : bytes := list_ascii_of_string "SecureChat-E2E-Key-Derivation".

Definition DecryptionFailure : JsError :=
  Error "Decryption failed - message may have been tampered with".
Definition InvalidCharacterError : JsError := DOMException "InvalidCharacterError".

Section WithPlatform.
Context `{Platform}.

Definition arrayBufferToBase64 (buffer : bytes) : list ascii := Base64.btoa buffer.

Definition base64ToArrayBuffer (base64 : list ascii) : outcome bytes :=
  match Base64.atob base64 with
  | Some b => Return b
  | None => Throw InvalidCharacterError
  end.

(** [importPublicKey(publicKeyBase64)] *)
Definition importPublicKey (publicKeyBase64 : list ascii) : outcome PublicKey :=
  match base64ToArrayBuffer publicKeyBase64 with
  | Throw e => Throw e
  | Return keyBuffer =>
      match subtle_importKey_spki keyBuffer with
      | Some k => Return k
      | None => Throw (DOMException "DataError")
      end
  end.

(** [deriveSharedKey(privateKey, publicKey)] *)
Definition deriveSharedKey (priv : PrivateKey) (pub : PublicKey) : CryptoKey :=
  subtle_deriveKey_ECDH_HKDF priv pub HKDF_salt HKDF_info.

(** [encryptMessage(plaintext, key)]: a 12-octet IV from the random source,
    then AES-GCM over the UTF-8 of the plaintext. *)
Definition encryptMessage {St} `{HasEntropy St}
    (plaintext : jsstring) (key : CryptoKey) : Js St EncryptedMessage :=
  let! iv := getRandomValues 12 in
  let data := Text.TextEncoder_encode plaintext in
  let ciphertext := subtle_encrypt key iv data in
  ret {| ciphertext := arrayBufferToBase64 ciphertext;
         iv := arrayBufferToBase64 iv |}.

(** [decryptMessage(ciphertextBase64, ivBase64, key)]: the two Base64
    decodings stand before the [try]; whatever [crypto.subtle.decrypt] throws
    inside it is rethrown as the decryption failure. *)
Definition decryptMessage (ciphertextBase64 ivBase64 : list ascii) (key : CryptoKey)
    : outcome jsstring :=
  match base64ToArrayBuffer ciphertextBase64 with
  | Throw e => Throw e
  | Return ciphertext =>
      match base64ToArrayBuffer ivBase64 with
      | Throw e => Throw e
      | Return iv =>
          match subtle_decrypt key iv ciphertext with
          | Some decrypted => Return (Text.TextDecoder_decode decrypted)
          | None => Throw DecryptionFailure
          end
      end
  end.

(** The fields of [class KeyManager]. *)
Record KeyManager := {
  keyPair : option (PrivateKey * PublicKey);
  sharedKeys : gmap string CryptoKey
}.

(** [establishChannel(recipientId, theirPublicKeyBase64)] *)
Definition establishChannel (recipientId : string) (theirPublicKeyBase64 : list ascii)
    (km : KeyManager) : outcome KeyManager :=
  match keyPair km with
  | None => Throw (Error "Key pair not initialized")
  | Some (priv, _) =>
      match importPublicKey theirPublicKeyBase64 with
      | Throw e => Throw e
      | Return theirPublicKey =>
          let sharedKey := deriveSharedKey priv theirPublicKey in
          Return {| keyPair := keyPair km;
                    sharedKeys := <[recipientId := sharedKey]> (sharedKeys km) |}
      end
  end.

(** [encryptFor(recipientId, message)] *)
Definition encryptFor {St} `{HasEntropy St}
    (km : KeyManager) (recipientId : string) (message : jsstring)
    : Js St EncryptedMessage :=
  match sharedKeys km !! recipientId with
  | None => throw (Error "No secure channel established with recipient")
  | Some sharedKey => encryptMessage message sharedKey
  end.

(** [decryptFrom(senderId, ciphertext, iv)] *)
Definition decryptFrom (km : KeyManager) (senderId : string)
    (ciphertext iv : list ascii) : outcome jsstring :=
  match sharedKeys km !! senderId with
  | None => Throw (Error "No secure channel established with sender")
  | Some sharedKey => decryptMessage ciphertext iv sharedKey
  end.

Definition hasChannel (km : KeyManager) (recipientId : string) : bool :=
  bool_decide (is_Some (sharedKeys km !! recipientId)).

(** [decryptFrom(peer, ...encryptFor(peer, message))] *)
Definition encrypt_then_decrypt (km : KeyManager) (peer : string) (message : jsstring)
    (e : Entropy) : outcome jsstring :=
  match encryptFor km peer message e with
  | (Return m, _) => decryptFrom km peer (ciphertext m) (iv m)
  | (Throw err, _) => Throw err
  end.

(** One [encryptFor] call per message, one after the other. *)
Definition encrypt_each (km : KeyManager) (peer : string) (messages : list jsstring)
    : Js Entropy (list EncryptedMessage) :=
  mapM (encryptFor km peer) messages.

Definition removeChannel (recipientId : string) (km : KeyManager) : KeyManager :=
  {| keyPair := keyPair km; sharedKeys := delete recipientId (sharedKeys km) |}.

(** [exportPublicKey(publicKey)] *)
Definition exportPublicKey (publicKey : PublicKey) : list ascii :=
  arrayBufferToBase64 (subtle_exportKey_spki publicKey).

(** [getPublicKey()] *)
Definition getPublicKey (km : KeyManager) : outcome (list ascii) :=
  match keyPair km with
  | None => Throw (Error "Key pair not initialized")
  | Some (_, publicKey) => Return (exportPublicKey publicKey)
  end.

End WithPlatform.
End E2E.

(** ** lib/storage/secure-storage *)

Module SecureStorage.

Definition STORAGE_KEY_PREFIX : string := "secure_chat_".
Definition KEYS_STORAGE_NAME : string := STORAGE_KEY_PREFIX +:+ "encryption_keys".
Definition SALT_STORAGE_NAME : string := STORAGE_KEY_PREFIX +:+ "salt".
Definition VERIFICATION_STORAGE_NAME : string := STORAGE_KEY_PREFIX +:+ "verification".

Definition NotInitialized : JsError := Error "SecureStorage not initialized".
Definition WrongPassword : JsError := Error "Invalid password".
Definition NoStoredCredentials : JsError :=
  Error "No stored credentials found. Please register first.".
Definition NotInBrowser : JsError :=
  Error "SecureStorage can only be used in browser environment".

Definition js_of_string (s : string) : jsstring :=
  map N_of_ascii (list_ascii_of_string s).

Section WithPlatform.
Context `{Platform}.

(** The private fields of the class. *)
Record Fields := {
  masterKey : option CryptoKey;
  salt : option bytes;
  initialized : bool
}.

(** The instance together with what its methods read and write:
    [localStorage], the random source and whether [window] is defined. *)
Record World := {
  this : Fields;
  localStorage : gmap string (list ascii);
  entropy : Entropy;
  window_defined : bool
}.

Definition set_this (f : Fields -> Fields) (w : World) : World :=
  {| this := f (this w); localStorage := localStorage w;
     entropy := entropy w; window_defined := window_defined w |}.
Definition set_localStorage (f : gmap string (list ascii) -> gmap string (list ascii))
    (w : World) : World :=
  {| this := this w; localStorage := f (localStorage w);
     entropy := entropy w; window_defined := window_defined w |}.

#[export] Instance World_HasEntropy : HasEntropy World :=
  {| entropy_of := entropy;
     with_entropy := fun e w =>
       {| this := this w; localStorage := localStorage w;
          entropy := e; window_defined := window_defined w |} |}.

Definition set_masterKey (k : option CryptoKey) : Js World unit :=
  modify (set_this (fun f =>
    {| masterKey := k; salt := salt f; initialized := initialized f |})).
Definition set_salt (s : option bytes) : Js World unit :=
  modify (set_this (fun f =>
    {| masterKey := masterKey f; salt := s; initialized := initialized f |})).
Definition set_initialized (b : bool) : Js World unit :=
  modify (set_this (fun f =>
    {| masterKey := masterKey f; salt := salt f; initialized := b |})).

Definition localStorage_getItem (key : string) : Js World (option (list ascii)) :=
  fun w => (Return (localStorage w !! key), w).
Definition localStorage_setItem (key : string) (value : list ascii) : Js World unit :=
  modify (set_localStorage (insert key value)).

(** [deriveKeyFromPassword(password, salt)]: PBKDF2 with 600000 iterations. *)
Definition deriveKeyFromPassword (password : jsstring) (salt : bytes) : CryptoKey :=
  subtle_deriveKey_PBKDF2 (Text.TextEncoder_encode password) salt 600000.

Definition generateSalt : Js World bytes := getRandomValues 32.

(** [encryptForStorage(data, key)] *)
Definition encryptForStorage (data : jsstring) (key : CryptoKey) : Js World (list ascii) :=
  let! iv := getRandomValues 12 in
  let ciphertext := subtle_encrypt key iv (Text.TextEncoder_encode data) in
  ret (JSON_stringify_EncryptedData
         {| ed_iv := Base64.btoa iv; ed_ciphertext := Base64.btoa ciphertext |}).

(** [decryptFromStorage(encryptedJson, key)]; nothing is caught here. *)
Definition decryptFromStorage (encryptedJson : list ascii) (key : CryptoKey)
    : outcome jsstring :=
  match JSON_parse_EncryptedData encryptedJson with
  | Throw e => Throw e
  | Return d =>
      match Base64.atob (ed_iv d) with
      | None => Throw E2E.InvalidCharacterError
      | Some iv =>
          match Base64.atob (ed_ciphertext d) with
          | None => Throw E2E.InvalidCharacterError
          | Some ciphertext =>
              match subtle_decrypt key iv ciphertext with
              | Some decrypted => Return (Text.TextDecoder_decode decrypted)
              | None => Throw OperationError
              end
          end
      end
  end.

(** [async initialize(password, isNewUser = false)] *)
Definition initialize (password : jsstring) (isNewUser : bool) : Js World unit :=
  let! w := get in
  if negb (window_defined w) then throw NotInBrowser
  else
    let! salt :=
      (if isNewUser then
         let! s := generateSalt in
         do! set_salt (Some s) in
         do! localStorage_setItem SALT_STORAGE_NAME (Base64.btoa s) in
         ret s
       else
         let! storedSalt := localStorage_getItem SALT_STORAGE_NAME in
         match storedSalt with
         | Some (c :: r) =>
             match Base64.atob (c :: r) with
             | None => throw E2E.InvalidCharacterError
             | Some s => do! set_salt (Some s) in ret s
             end
         | _ => throw NoStoredCredentials
         end) in
    let key := deriveKeyFromPassword password salt in
    do! set_masterKey (Some key) in
    do! set_initialized true in
    if negb isNewUser then
      try_catch
        (let! verificationData := localStorage_getItem VERIFICATION_STORAGE_NAME in
         match verificationData with
         | Some (c :: r) =>
             match decryptFromStorage (c :: r) key with
             | Return _ => ret tt
             | Throw e => throw e
             end
         | _ => ret tt
         end)
        (fun _ =>
           do! set_masterKey None in
           do! set_initialized false in
           throw WrongPassword)
    else
      let! verificationData := encryptForStorage (js_of_string "verification_token") key in
      localStorage_setItem VERIFICATION_STORAGE_NAME verificationData.

Definition isInitialized (w : World) : bool := initialized (this w).

(** The world with the fields of the instance replaced. *)
Definition with_fields (f : Fields) (w : World) : World :=
  {| this := f; localStorage := localStorage w;
     entropy := entropy w; window_defined := window_defined w |}.

(** The guard [!this.initialized || !this.masterKey] of the accessors: the
    master key when it passes. *)
Definition unlocked (w : World) : option CryptoKey :=
  if initialized (this w) then masterKey (this w) else None.

(** [async storeKeys(keys)] *)
Definition storeKeys (keys : ExportedKeyPair) : Js World unit :=
  let! w := get in
  match unlocked w with
  | None => throw NotInitialized
  | Some key =>
      let! encrypted := encryptForStorage (JSON_stringify_ExportedKeyPair keys) key in
      localStorage_setItem KEYS_STORAGE_NAME encrypted
  end.

(** [async getKeys()] *)
Definition getKeys : Js World (option ExportedKeyPair) :=
  let! w := get in
  match unlocked w with
  | None => throw NotInitialized
  | Some key =>
      let! encrypted := localStorage_getItem KEYS_STORAGE_NAME in
      match encrypted with
      | Some (c :: r) =>
          match decryptFromStorage (c :: r) key with
          | Throw e => throw e
          | Return decrypted =>
              match JSON_parse_ExportedKeyPair decrypted with
              | Throw e => throw e
              | Return keys => ret (Some keys)
              end
          end
      | _ => ret None
      end
  end.

(** [clear()] *)
Definition clear : Js World unit :=
  do! modify (set_localStorage
        (filter (fun kv => String.prefix STORAGE_KEY_PREFIX kv.1 = false))) in
  do! set_masterKey None in
  do! set_salt None in
  set_initialized false.

(** [lock()] *)
Definition lock : Js World unit :=
  do! set_masterKey None in
  set_initialized false.

Definition hasStoredData (w : World) : bool :=
  bool_decide (is_Some (localStorage w !! SALT_STORAGE_NAME)).

End WithPlatform.
End SecureStorage.

(** ** lib/socket/secure-socket-client *)

Module SecureSocketClient.

Record QueuedMessage := {
  recipientId : string;
  chatId : string;
  ciphertext : list ascii;
  iv : list ascii;
  timestamp : N;
  messageId : string
}.

(** The data handed to [socket.emit] next to the event name. *)
Inductive Payload : Type :=
| MessageData (m : QueuedMessage)
| RegisterKeyData (userId : string) (publicKey : list ascii)
| UserIdData (userId : string)
| ReadData (messageId senderId : string)
| EditData (messageId : string) (ciphertext iv : list ascii)
| MessageIdData (messageId : string).

Section WithPlatform.
Context `{Platform}.

(** The fields of the class; [socket] holds the auth token the socket was
    opened with.  [keyManager] is the shared singleton.  [emitted] records,
    oldest first, every [socket.emit] made. *)
Record Client := {
  socket : option string;
  keyManager : E2E.KeyManager;
  userId : string;
  messageQueue : list QueuedMessage;
  isConnected : bool;
  emitted : list (string * Payload);
  entropy : Entropy
}.

Definition new_client (userId : string) (km : E2E.KeyManager) (e : Entropy) : Client :=
  {| socket := None; keyManager := km; userId := userId; messageQueue := [];
     isConnected := false; emitted := []; entropy := e |}.

Definition set_socket (s : option string) (c : Client) : Client :=
  {| socket := s; keyManager := keyManager c; userId := userId c;
     messageQueue := messageQueue c; isConnected := isConnected c;
     emitted := emitted c; entropy := entropy c |}.
Definition set_keyManager (km : E2E.KeyManager) (c : Client) : Client :=
  {| socket := socket c; keyManager := km; userId := userId c;
     messageQueue := messageQueue c; isConnected := isConnected c;
     emitted := emitted c; entropy := entropy c |}.
Definition set_messageQueue (q : list QueuedMessage) (c : Client) : Client :=
  {| socket := socket c; keyManager := keyManager c; userId := userId c;
     messageQueue := q; isConnected := isConnected c;
     emitted := emitted c; entropy := entropy c |}.
Definition set_isConnected (b : bool) (c : Client) : Client :=
  {| socket := socket c; keyManager := keyManager c; userId := userId c;
     messageQueue := messageQueue c; isConnected := b;
     emitted := emitted c; entropy := entropy c |}.
Definition set_emitted (l : list (string * Payload)) (c : Client) : Client :=
  {| socket := socket c; keyManager := keyManager c; userId := userId c;
     messageQueue := messageQueue c; isConnected := isConnected c;
     emitted := l; entropy := entropy c |}.

#[export] Instance Client_HasEntropy : HasEntropy Client :=
  {| entropy_of := entropy;
     with_entropy := fun e c =>
       {| socket := socket c; keyManager := keyManager c; userId := userId c;
          messageQueue := messageQueue c; isConnected := isConnected c;
          emitted := emitted c; entropy := e |} |}.

(** [this.socket.emit(event, data)] *)
Definition socket_emit (event : string) (data : Payload) (c : Client) : Client :=
  set_emitted (emitted c ++ [(event, data)]) c.

(** [this.isConnected && this.socket] *)
Definition online (c : Client) : bool :=
  isConnected c && bool_decide (is_Some (socket c)).

(** [connect(token)]: opens the socket and installs the listeners; the
    listeners run when their events arrive ([on_connect], [on_disconnect]). *)
Definition connect (token : string) : Js Client unit :=
  modify (set_socket (Some token)).

(** [private emit(event, data)] *)
Definition emit (event : string) (data : Payload) : Js Client unit :=
  modify (fun c => if online c then socket_emit event data c else c).

(** The loop of [flushMessageQueue]; each turn shifts one message off the
    queue, so [length queue] turns are all it can take. *)
Fixpoint flush_loop (turns : nat) (c : Client) : Client :=
  match turns with
  | O => c
  | S turns' =>
      match messageQueue c with
      | message :: rest =>
          if online c
          then flush_loop turns'
                 (socket_emit "encrypted_message" (MessageData message)
                    (set_messageQueue rest c))
          else c
      | [] => c
      end
  end.

(** [private flushMessageQueue()] *)
Definition flushMessageQueue : Js Client unit :=
  modify (fun c => flush_loop (length (messageQueue c)) c).

(** The listener of the socket's ["connect"] event.  The caller's own
    [onConnect] handler runs after the flush and is not part of the class. *)
Definition on_connect : Js Client unit :=
  do! modify (set_isConnected true) in
  flushMessageQueue.

(** The listener of the socket's ["disconnect"] event. *)
Definition on_disconnect : Js Client unit :=
  modify (set_isConnected false).

(** [async sendMessage(recipientId, content, chatId)]; [now] is what
    [Date.now()] returns. *)
Definition sendMessage (recipientId : string) (content : jsstring) (chatId : string)
    (now : N) : Js Client string :=
  let! messageId := randomUUID in
  try_catch
    (let! c := get in
     let! encrypted := E2E.encryptFor (keyManager c) recipientId content in
     let messageData :=
       {| recipientId := recipientId; chatId := chatId;
          ciphertext := E2E.ciphertext encrypted; iv := E2E.iv encrypted;
          timestamp := now; messageId := messageId |} in
     do! modify (fun c =>
           if online c
           then socket_emit "encrypted_message" (MessageData messageData) c
           else set_messageQueue (messageQueue c ++ [messageData]) c) in
     ret messageId)
    (fun error => throw error).

(** The entry a [sendMessage] call makes when the channel key is [key], and
    the client after the entry was queued. *)
Definition queued_entry (c : Client) (key : CryptoKey)
    (recipient : string) (content : jsstring) (chat : string) (now : N) : QueuedMessage :=
  let block := random_block (octets_drawn (entropy c)) 12 in
  {| recipientId := recipient; chatId := chat;
     ciphertext := Base64.btoa (subtle_encrypt key block (Text.TextEncoder_encode content));
     iv := Base64.btoa block;
     timestamp := now;
     messageId := random_uuid (uuids_drawn (entropy c)) |}.

Definition after_queueing (c : Client) (m : QueuedMessage) : Client :=
  {| socket := socket c; keyManager := keyManager c; userId := userId c;
     messageQueue := messageQueue c ++ [m]; isConnected := isConnected c;
     emitted := emitted c;
     entropy := {| octets_drawn := octets_drawn (entropy c) + 12;
                   uuids_drawn := S (uuids_drawn (entropy c)) |} |}.

(** What transmitting a queued message puts on the wire. *)
Definition transmission (m : QueuedMessage) : string * Payload :=
  ("encrypted_message", MessageData m).

(** A series of [sendMessage] calls, each awaited before the next and each
    caught on its own; a call is (recipientId, content, chatId, the time it
    reads), and the result tells how each call ended. *)
Fixpoint send_each (calls : list (string * jsstring * string * N)) (c : Client)
    : list (outcome string) * Client :=
  match calls with
  | [] => ([], c)
  | (recipientId, content, chatId, now) :: rest =>
      let '(r, c1) := sendMessage recipientId content chatId now c in
      let '(rs, c2) := send_each rest c1 in
      (r :: rs, c2)
  end.

(** The id a call returned, if it returned. *)
Definition returned {A} (r : outcome A) : option A :=
  match r with Return a => Some a | Throw _ => None end.

(** What a queued entry has to do with the call that made it. *)
Definition entry_of (km : E2E.KeyManager)
    (call : string * jsstring * string * N) (m : QueuedMessage) : Prop :=
  recipientId m = call.1.1.1 /\ chatId m = call.1.2 /\ timestamp m = call.2 /\
  exists key block,
    E2E.sharedKeys km !! call.1.1.1 = Some key /\
    length block = 12%nat /\
    iv m = Base64.btoa block /\
    ciphertext m =
      Base64.btoa (subtle_encrypt key block (Text.TextEncoder_encode call.1.1.2)).

(** How a call ends: with an id when there is a channel to its recipient,
    with the error otherwise. *)
Definition ends_as (km : E2E.KeyManager)
    (call : string * jsstring * string * N) (r : outcome string) : Prop :=
  if E2E.hasChannel km call.1.1.1 then exists id, r = Return id
  else r = Throw (Error "No secure channel established with recipient").

Definition registerPublicKey (publicKey : list ascii) : Js Client unit :=
  let! c := get in emit "register_public_key" (RegisterKeyData (userId c) publicKey).

Definition requestPublicKey (userId : string) : Js Client unit :=
  emit "request_public_key" (UserIdData userId).

Definition establishChannel (userId : string) (publicKey : list ascii) : Js Client unit :=
  let! c := get in
  match E2E.establishChannel userId publicKey (keyManager c) with
  | Throw e => throw e
  | Return km => modify (set_keyManager km)
  end.

Definition hasChannel (userId : string) (c : Client) : bool :=
  E2E.hasChannel (keyManager c) userId.


Definition editMessage (messageId : string) (content : jsstring) (recipientId : string)
    : Js Client unit :=
  try_catch
    (let! c := get in
     let! encrypted := E2E.encryptFor (keyManager c) recipientId content in
     emit "edit_message"
       (EditData messageId (E2E.ciphertext encrypted) (E2E.iv encrypted)))
    (fun error => throw error).

Definition deleteMessage (messageId : string) : Js Client unit :=
  emit "delete_message" (MessageIdData messageId).

(** [disconnect()] *)
Definition disconnect : Js Client unit :=
  do! modify (set_socket None) in
  do! modify (set_isConnected false) in
  modify (set_messageQueue []).

End WithPlatform.
End SecureSocketClient.

(** ** context/ChatContext: the send action *)

Module ChatContext.

Import SecureSocketClient.

(** What can reach the client while [sendMessage] is suspended on its timer. *)
Inductive Event : Type :=
| PublicKeyResponse (userId : string) (publicKey : list ascii)
| SocketConnect
| SocketDisconnect.

Section WithPlatform.
Context `{Platform}.

(** The [onConnect] handler installed at login, as far as it touches the
    client: it registers the key manager's public key, once the export of the
    key has resolved; without a key pair [getPublicKey] rejects, nothing
    catches it and nothing is registered. *)
Definition onConnect : Js Client unit :=
  let! c := get in
  match E2E.getPublicKey (keyManager c) with
  | Return publicKey => registerPublicKey publicKey
  | Throw _ => ret tt
  end.

(** The listeners of the class followed by the handlers installed at login;
    a handler that throws leaves an unhandled rejection and the state as it
    was when it threw. *)
Definition dispatch (ev : Event) (c : Client) : Client :=
  match ev with
  | PublicKeyResponse userId publicKey => snd (establishChannel userId publicKey c)
  | SocketConnect => snd (onConnect (snd (on_connect c)))
  | SocketDisconnect => snd (on_disconnect c)
  end.

(** [await new Promise((resolve) => setTimeout(resolve, 1000))]: the action
    resumes when the timer fires; [during] are the events dispatched in the
    meantime. *)
Definition wait_1000ms (during : list Event) : Js Client unit :=
  modify (fun c => fold_left (fun c ev => dispatch ev c) during c).

Record State := {
  socketClient : option Client;
  user : option string;
  error : option JsError
}.

(** The part of [sendMessage] that talks to the socket client. *)
Definition request_wait_send (recipientId : string) (content : jsstring)
    (chatId : string) (now : N) (during : list Event) : Js Client string :=
  let! c := get in
  do! (if negb (hasChannel recipientId c)
       then do! requestPublicKey recipientId in wait_1000ms during
       else ret tt) in
  SecureSocketClient.sendMessage recipientId content chatId now.

(** [sendMessage(recipientId, content, chatId)] of the context.  The updates
    of the view state that follow a successful send are left out. *)
Definition sendMessage (recipientId : string) (content : jsstring) (chatId : string)
    (now : N) (during : list Event) : Js State unit :=
  fun s =>
    match socketClient s, user s with
    | Some client, Some _ =>
        match request_wait_send recipientId content chatId now during client with
        | (Return _, client') =>
            (Return tt, {| socketClient := Some client'; user := user s;
                           error := error s |})
        | (Throw err, client') =>
            (Throw err, {| socketClient := Some client'; user := user s;
                           error := Some err |})
        end
    | _, _ => (Throw (Error "Not connected"), s)
    end.

End WithPlatform.
End ChatContext.

(** ** server/database: message operations *)

Module Database.

Record Message := {
  id : string;
  chatId : string;
  senderId : string;
  recipientId : option string;
  ciphertext : list ascii;
  iv : list ascii;
  status : string;
  deliveredAt : option N;
  readAt : option N;
  isEdited : bool;
  editedAt : option N;
  isDeleted : bool;
  deletedAt : option N
}.

(** The [Message] table, keyed by its primary key. *)
Abbreviation Table := (gmap string Message).

Definition Unauthorized : JsError := Error "Message not found or unauthorized".
Definition CannotEditDeleted : JsError := Error "Cannot edit deleted message".

(** The [data] of [updateMessageStatus], applied to one row. *)
Definition apply_status (status : string) (now : N) (m : Message) : Message :=
  {| id := id m; chatId := chatId m; senderId := senderId m;
     recipientId := recipientId m; ciphertext := ciphertext m; iv := iv m;
     status := status;
     deliveredAt :=
       if bool_decide (status = "delivered") then Some now
       else if bool_decide (status = "read") then Some now
       else deliveredAt m;
     readAt :=
       if bool_decide (status = "delivered") then readAt m
       else if bool_decide (status = "read") then Some now
       else readAt m;
     isEdited := isEdited m; editedAt := editedAt m;
     isDeleted := isDeleted m; deletedAt := deletedAt m |}.

(** [updateMessageStatus(messageId, status, userId)]: an [updateMany] over
    the rows with this id and this recipient; returns the count. *)
Definition updateMessageStatus (messageId status userId : string) (now : N)
    (db : Table) : nat * Table :=
  match db !! messageId with
  | Some m =>
      if bool_decide (recipientId m = Some userId)
      then (1%nat, <[messageId := apply_status status now m]> db)
      else (0%nat, db)
  | None => (0%nat, db)
  end.

Definition mark_read (now : N) (m : Message) : Message :=
  {| id := id m; chatId := chatId m; senderId := senderId m;
     recipientId := recipientId m; ciphertext := ciphertext m; iv := iv m;
     status := "read"; deliveredAt := deliveredAt m; readAt := Some now;
     isEdited := isEdited m; editedAt := editedAt m;
     isDeleted := isDeleted m; deletedAt := deletedAt m |}.

(** [markChatMessagesAsRead(chatId, userId)] *)
Definition markChatMessagesAsRead (chat userId : string) (now : N) (db : Table) : Table :=
  (fun m =>
     if bool_decide (chatId m = chat) && bool_decide (recipientId m = Some userId)
        && negb (bool_decide (status m = "read"))
     then mark_read now m else m) <$> db.

(** [editMessage(messageId, senderId, newCiphertext, newIv)] *)
Definition editMessage (messageId sender : string) (newCiphertext newIv : list ascii)
    (now : N) : Js Table Message :=
  let! db := get in
  match db !! messageId with
  | None => throw Unauthorized
  | Some message =>
      if negb (bool_decide (senderId message = sender)) then throw Unauthorized
      else if isDeleted message then throw CannotEditDeleted
      else
        let updated :=
          {| id := id message; chatId := chatId message;
             senderId := senderId message; recipientId := recipientId message;
             ciphertext := newCiphertext; iv := newIv; status := status message;
             deliveredAt := deliveredAt message; readAt := readAt message;
             isEdited := true; editedAt := Some now;
             isDeleted := isDeleted message; deletedAt := deletedAt message |} in
        do! modify (insert messageId updated) in
        ret updated
  end.

(** [deleteMessage(messageId, senderId)] *)
Definition deleteMessage (messageId sender : string) (now : N) : Js Table Message :=
  let! db := get in
  match db !! messageId with
  | None => throw Unauthorized
  | Some message =>
      if negb (bool_decide (senderId message = sender)) then throw Unauthorized
      else
        let updated :=
          {| id := id message; chatId := chatId message;
             senderId := senderId message; recipientId := recipientId message;
             ciphertext := []; iv := []; status := status message;
             deliveredAt := deliveredAt message; readAt := readAt message;
             isEdited := isEdited message; editedAt := editedAt message;
             isDeleted := true; deletedAt := Some now |} in
        do! modify (insert messageId updated) in
        ret updated
  end.

Definition status_of (messageId : string) (db : Table) : option string :=
  status <$> db !! messageId.

(** A series of status updates on one message by one user, oldest first. *)
Definition apply_statuses (messageId userId : string) (updates : list (string * N))
    (db : Table) : Table :=
  fold_left (fun db u => snd (updateMessageStatus messageId u.1 userId u.2 db))
            updates db.

(** The order of the statuses in the design. *)
Definition status_rank (s : string) : nat :=
  if bool_decide (s = "sending") then 0
  else if bool_decide (s = "sent") then 1
  else if bool_decide (s = "delivered") then 2
  else if bool_decide (s = "read") then 3
  else 0.

End Database.

(** ** Contracts of the primitives, and tampering *)

Module Contract.

(** Flipping bit [j] of an octet (bit 0 is the least significant). *)
Definition flip_ascii_bit (j : nat) (a : ascii) : ascii :=
  let '(Ascii b0 b1 b2 b3 b4 b5 b6 b7) := a in
  match j with
  | 0%nat => Ascii (negb b0) b1 b2 b3 b4 b5 b6 b7
  | 1%nat => Ascii b0 (negb b1) b2 b3 b4 b5 b6 b7
  | 2%nat => Ascii b0 b1 (negb b2) b3 b4 b5 b6 b7
  | 3%nat => Ascii b0 b1 b2 (negb b3) b4 b5 b6 b7
  | 4%nat => Ascii b0 b1 b2 b3 (negb b4) b5 b6 b7
  | 5%nat => Ascii b0 b1 b2 b3 b4 (negb b5) b6 b7
  | 6%nat => Ascii b0 b1 b2 b3 b4 b5 (negb b6) b7
  | 7%nat => Ascii b0 b1 b2 b3 b4 b5 b6 (negb b7)
  | _ => a
  end.

(** Flipping bit [i] of an octet string: bit [i mod 8] of octet [i / 8]. *)
Definition flip_bit (i : nat) (l : list ascii) : list ascii :=
  alter (flip_ascii_bit (i mod 8)) (i / 8)%nat l.

Section WithPlatform.
Context `{Platform}.

(** AES-GCM decrypts what it encrypted under the same key and IV. *)
Definition aead_correct : Prop :=
  forall key iv data, subtle_decrypt key iv (subtle_encrypt key iv data) = Some data.

(** AES-GCM rejects its output (ciphertext and tag) with one bit flipped. *)
Definition aead_authentic : Prop :=
  forall key iv data i,
    (i < 8 * length (subtle_encrypt key iv data))%nat ->
    subtle_decrypt key iv (flip_bit i (subtle_encrypt key iv data)) = None.

End WithPlatform.
End Contract.

(** ** A deterministic stand-in for the platform, for running the model on
    concrete inputs *)

Module Fake.

Definition fake_encrypt (key iv data : bytes) : bytes :=
  (key ++ data) ++ (key ++ data).

Definition fake_decrypt (key iv x : bytes) : option bytes :=
  let n := (length x / 2)%nat in
  if bool_decide (take n x = drop n x) && bool_decide (take (length key) x = key)
  then Some (drop (length key) (take n x))
  else None.

Definition dot : ascii := "."%char.

Fixpoint split_at {A} `{EqDecision A} (sep : A) (s : list A)
    : option (list A * list A) :=
  match s with
  | [] => None
  | c :: r =>
      if bool_decide (c = sep) then Some ([], r)
      else match split_at sep r with
           | Some (a, b) => Some (c :: a, b)
           | None => None
           end
  end.

#[export] Instance platform : Platform := {|
  CryptoKey := bytes;
  PrivateKey := bytes;
  PublicKey := bytes;
  random_octet := fun i => ascii_of_nat i;
  random_uuid := fun i => String (ascii_of_nat (65 + i)) EmptyString;
  subtle_encrypt := fake_encrypt;
  subtle_decrypt := fake_decrypt;
  subtle_importKey_spki := fun b => Some b;
  subtle_exportKey_spki := fun k => k;
  subtle_deriveKey_ECDH_HKDF := fun priv pub salt info => priv ++ pub ++ salt ++ info;
  subtle_deriveKey_PBKDF2 := fun password salt _ => password ++ salt;
  JSON_stringify_EncryptedData := fun d => ed_iv d ++ dot :: ed_ciphertext d;
  JSON_parse_EncryptedData := fun s =>
    match split_at dot s with
    | Some (a, b) => Return {| ed_iv := a; ed_ciphertext := b |}
    | None => Throw SyntaxError
    end;
  JSON_stringify_ExportedKeyPair := fun k =>
    map N_of_ascii (privateKey k ++ dot :: publicKey k);
  JSON_parse_ExportedKeyPair := fun s =>
    match split_at (N_of_ascii dot) s with
    | Some (a, b) =>
        Return {| privateKey := map ascii_of_N a; publicKey := map ascii_of_N b |}
    | None => Throw SyntaxError
    end
|}.

Definition text (s : string) : jsstring := map N_of_ascii (list_ascii_of_string s).

Definition alice_bob_key : @CryptoKey platform := list_ascii_of_string "k-alice-bob".

(** Alice's key manager with one channel, to Bob. *)
Definition alice : E2E.KeyManager :=
  {| E2E.keyPair :=
       Some (list_ascii_of_string "alice-private", list_ascii_of_string "alice-public");
     E2E.sharedKeys := {[ "bob" := alice_bob_key ]} |}.

Definition fresh : Entropy := {| octets_drawn := 0; uuids_drawn := 0 |}.

(** Carol's public key as the relay sends it. *)
Definition carol_public_key : list ascii :=
  Base64.btoa (list_ascii_of_string "carol-public").

(** A message from Alice to Bob as the relay stores it. *)
Definition stored_message : Database.Message :=
  {| Database.id := "m1"; Database.chatId := "chat-1";
     Database.senderId := "alice"; Database.recipientId := Some "bob";
     Database.ciphertext := list_ascii_of_string "Y2lwaGVy";
     Database.iv := list_ascii_of_string "bm9uY2U=";
     Database.status := "sent";
     Database.deliveredAt := None; Database.readAt := None;
     Database.isEdited := false; Database.editedAt := None;
     Database.isDeleted := false; Database.deletedAt := None |}.

Definition relay_table : Database.Table := {[ "m1" := stored_message ]}.

(** Alice's socket client before any connection. *)
Definition alice_offline : SecureSocketClient.Client :=
  SecureSocketClient.new_client "alice" alice fresh.

(** Alice's socket client, connected. *)
Definition alice_online : SecureSocketClient.Client :=
  snd (SecureSocketClient.on_connect
         (snd (SecureSocketClient.connect "token" alice_offline))).


(** Alice's chat context, logged in and connected. *)
Definition alice_context : ChatContext.State :=
  {| ChatContext.socketClient := Some alice_online;
     ChatContext.user := Some "alice";
     ChatContext.error := None |}.

(** A browser with nothing stored, and the vault of a new identity in it. *)
Definition empty_browser : SecureStorage.World :=
  {| SecureStorage.this :=
       {| SecureStorage.masterKey := None; SecureStorage.salt := None;
          SecureStorage.initialized := false |};
     SecureStorage.localStorage := ∅;
     SecureStorage.entropy := fresh;
     SecureStorage.window_defined := true |}.

Definition registered : SecureStorage.World :=
  snd (SecureStorage.initialize (text "correct horse") true empty_browser).

(** The same browser, locked, after the verification marker was removed. *)
Definition marker_removed : SecureStorage.World :=
  SecureStorage.set_localStorage (delete SecureStorage.VERIFICATION_STORAGE_NAME)
    (snd (SecureStorage.lock registered)).

End Fake.

(** ** Two parties *)

Module Parties.
Import Fake.

(** Alice and Bob, each with a key pair and no channel yet.  In the stand-in
    platform the derived key is the concatenation of the private and the
    public half, so these two pairs agree on ["abc"]. *)
Definition alice_alone : E2E.KeyManager :=
  {| E2E.keyPair := Some (list_ascii_of_string "ab", list_ascii_of_string "bc");
     E2E.sharedKeys := ∅ |}.

Definition bob_alone : E2E.KeyManager :=
  {| E2E.keyPair := Some (list_ascii_of_string "a", list_ascii_of_string "c");
     E2E.sharedKeys := ∅ |}.

Definition alice_public_key : list ascii := Base64.btoa (list_ascii_of_string "bc").
Definition bob_public_key : list ascii := Base64.btoa (list_ascii_of_string "c").

(** Alice's key manager after Carol's key arrived. *)
Definition alice_with_carol : E2E.KeyManager :=
  {| E2E.keyPair := E2E.keyPair alice;
     E2E.sharedKeys :=
       <["carol" := E2E.deriveSharedKey (list_ascii_of_string "alice-private")
                      (list_ascii_of_string "carol-public")]> (E2E.sharedKeys alice) |}.

End Parties.

(** ** lib/storage/secure-storage: the generic items *)

(** [JSON.stringify] and [JSON.parse] at a type [T] of stored values. *)
Class JsonCodec (T : Type) := {
  JSON_stringify : T -> jsstring;
  JSON_parse : jsstring -> outcome T
}.

Module SecureStorageItems.
Import SecureStorage.

Section WithPlatform.
Context `{Platform} {T : Type} `{JsonCodec T}.

(** [async setItem<T>(key, value)] *)
Definition setItem (key : string) (value : T) : Js World unit :=
  let! w := get in
  match unlocked w with
  | None => throw NotInitialized
  | Some masterKey =>
      let! encrypted := encryptForStorage (JSON_stringify value) masterKey in
      localStorage_setItem (STORAGE_KEY_PREFIX +:+ key) encrypted
  end.

(** [async getItem<T>(key)]: a record that does not decrypt or parse is
    caught and read as [null]. *)
Definition getItem (key : string) : Js World (option T) :=
  let! w := get in
  match unlocked w with
  | None => throw NotInitialized
  | Some masterKey =>
      let! encrypted := localStorage_getItem (STORAGE_KEY_PREFIX +:+ key) in
      match encrypted with
      | Some (c :: r) =>
          try_catch
            (match decryptFromStorage (c :: r) masterKey with
             | Throw e => throw e
             | Return decrypted =>
                 match JSON_parse decrypted with
                 | Throw e => throw e
                 | Return value => ret (Some value)
                 end
             end)
            (fun _ => ret None)
      | _ => ret None
      end
  end.

(** [removeItem(key)] *)
Definition removeItem (key : string) : Js World unit :=
  modify (set_localStorage (delete (STORAGE_KEY_PREFIX +:+ key))).

End WithPlatform.

Section Contracts.
Context `{Platform}.

(** [JSON.parse] reads back the [{iv, ciphertext}] objects that
    [JSON.stringify] wrote, and what [JSON.stringify] writes is not the empty
    string. *)
Definition json_reads_back_encrypted_data : Prop :=
  forall a b : bytes,
    let d := {| ed_iv := Base64.btoa a; ed_ciphertext := Base64.btoa b |} in
    JSON_parse_EncryptedData (JSON_stringify_EncryptedData d) = Return d /\
    truthy (JSON_stringify_EncryptedData d) = true.

(** The same at a value: its JSON text parses back to it, and the text is
    well-formed UTF-16 that does not begin with U+FEFF. *)
Definition json_reads_back {T} `{JsonCodec T} (value : T) : Prop :=
  JSON_parse (JSON_stringify value) = Return value /\
  Text.well_formed (JSON_stringify value) = true /\
  Text.starts_with_bom (JSON_stringify value) = false.

(** [JSON] at exported key pairs is the platform's. *)
#[export] Instance ExportedKeyPair_codec : JsonCodec ExportedKeyPair :=
  {| JSON_stringify := JSON_stringify_ExportedKeyPair;
     JSON_parse := JSON_parse_ExportedKeyPair |}.

(** The world after [initialize(password, true)] in a browser. *)
Definition after_registration (password : jsstring) (w : World) : World :=
  let pos := octets_drawn (entropy w) in
  let s := random_block pos 32 in
  let key := deriveKeyFromPassword password s in
  let iv := random_block (pos + 32) 12 in
  let marker :=
    JSON_stringify_EncryptedData
      {| ed_iv := Base64.btoa iv;
         ed_ciphertext :=
           Base64.btoa (subtle_encrypt key iv
                          (Text.TextEncoder_encode (js_of_string "verification_token"))) |} in
  {| this := {| masterKey := Some key; salt := Some s; initialized := true |};
     localStorage :=
       <[VERIFICATION_STORAGE_NAME := marker]>
         (<[SALT_STORAGE_NAME := Base64.btoa s]> (localStorage w));
     entropy := {| octets_drawn := pos + 32 + 12; uuids_drawn := uuids_drawn (entropy w) |};
     window_defined := window_defined w |}.

(** The world after [encryptForStorage(data, key)] and the storing of its
    result under [name]. *)
Definition after_storing (name : string) (data : jsstring) (key : CryptoKey) (w : World)
    : World :=
  let iv := random_block (octets_drawn (entropy w)) 12 in
  {| this := this w;
     localStorage :=
       <[name := JSON_stringify_EncryptedData
                   {| ed_iv := Base64.btoa iv;
                      ed_ciphertext :=
                        Base64.btoa (subtle_encrypt key iv (Text.TextEncoder_encode data)) |}]>
         (localStorage w);
     entropy := {| octets_drawn := octets_drawn (entropy w) + 12;
                   uuids_drawn := uuids_drawn (entropy w) |};
     window_defined := window_defined w |}.

End Contracts.
End SecureStorageItems.

(** Sample data for the vault. *)
Module FakeItems.
Import Fake.

Definition sample_keys : ExportedKeyPair :=
  {| privateKey := list_ascii_of_string "cHJpdg=="; publicKey := list_ascii_of_string "cHVi" |}.

Definition registered_key : @CryptoKey platform :=
  SecureStorage.deriveKeyFromPassword (text "correct horse") (random_block 0 32).

(** A vault that is unlocked, and one that holds a record that is not an
    encrypted record at all. *)
Definition unlocked_vault : SecureStorage.World := registered.

Definition with_garbage : SecureStorage.World :=
  SecureStorage.set_localStorage
    (insert (SecureStorage.STORAGE_KEY_PREFIX +:+ "user_profile")
            (list_ascii_of_string "garbage")) registered.

End FakeItems.

(** ** lib/socket/secure-socket-client: the listener of incoming messages *)

Module Inbound.
Import SecureSocketClient.

(** [SocketMessage], as it arrives; [id], [messageId] and [chatId] may be
    missing. *)
Record SocketMessage := {
  sm_id : option string;
  sm_messageId : option string;
  sm_senderId : string;
  sm_recipientId : option string;
  sm_chatId : option string;
  sm_ciphertext : list ascii;
  sm_iv : list ascii;
  sm_timestamp : N
}.

(** The [Message] object the listener builds. *)
Record Message := {
  id : string;
  chatId : string;
  senderId : string;
  recipientId : string;
  content : jsstring;
  messageType : string;
  status : string;
  timestamp : N;
  fromSelf : bool;
  encrypted : bool
}.

(** [a || b] on strings that may be undefined: the first that is defined and
    not empty. *)
Definition js_or (a b : option string) : option string :=
  match a with
  | Some EmptyString | None => b
  | Some _ => a
  end.

(** What the listener does, in order: the caller's handlers it calls and
    what it puts on the wire. *)
Inductive Effect : Type :=
| Handler_onMessage (m : Message)
| Handler_onError (e : JsError)
| Emit_message_delivered (messageId : option string) (senderId : string).

Section WithPlatform.
Context `{Platform}.

(** The listener of ["encrypted_message"].  The handlers are the caller's and
    are taken not to throw; the acknowledgement goes through [emit], which
    drops it when the client is not connected. *)
Definition on_encrypted_message (data : SocketMessage) (c : Client) : list Effect :=
  match E2E.decryptFrom (keyManager c) (sm_senderId data) (sm_ciphertext data) (sm_iv data) with
  | Return decryptedContent =>
      let message :=
        {| id := default "" (js_or (js_or (sm_messageId data) (sm_id data)) (Some ""));
           chatId := default "" (js_or (sm_chatId data) (Some ""));
           senderId := sm_senderId data;
           recipientId := userId c;
           content := decryptedContent;
           messageType := "text";
           status := "delivered";
           timestamp := sm_timestamp data;
           fromSelf := false;
           encrypted := true |} in
      Handler_onMessage message ::
      (if online c
       then [Emit_message_delivered (js_or (sm_messageId data) (sm_id data)) (sm_senderId data)]
       else [])
  | Throw error => [Handler_onError error]
  end.

End WithPlatform.
End Inbound.

(** ** server/index: the Socket.IO relay *)

Module Relay.

(** A JavaScript [Set] of strings, in insertion order. *)
Definition set_add (x : string) (s : list string) : list string :=
  if bool_decide (x ∈ s) then s else s ++ [x].
Definition set_delete (x : string) (s : list string) : list string :=
  filter (fun y => y <> x) s.

(** What the relay sends: [socket.broadcast.emit] (to every socket but the
    one named), [io.to(socketId).emit] of a message, and the error event sent
    back to a socket. *)
Inductive Emission : Type :=
| Broadcast (except event userId : string)
| Forward (socketId : string) (data : Inbound.SocketMessage)
| ErrorTo (socketId message : string).

(** [onlineUsers], which lives in the memory of the process; the [isOnline]
    column of the user rows (the users flagged online) and the message table,
    which live in the database; and what was sent so far.  The column is
    written by the two socket handlers below and by the login and logout
    routes. *)
Record Server := {
  onlineUsers : gmap string (list string);
  flaggedOnline : gset string;
  messages : Database.Table;
  emissions : list Emission
}.

(** The relay when its process starts: no socket is connected and nothing
    was sent; the database is as it was left. *)
Definition started (isOnline : gset string) (messages : Database.Table) : Server :=
  {| onlineUsers := ∅; flaggedOnline := isOnline; messages := messages;
     emissions := [] |}.

(** The relay started on an empty database. *)
Definition initial : Server :=
  {| onlineUsers := ∅; flaggedOnline := ∅; messages := ∅; emissions := [] |}.

(** [io.on("connection", ...)] for the socket [socketId] authenticated as
    [userId]; the user's row exists, the middleware has read it. *)
Definition connection (userId socketId : string) (s : Server) : Server :=
  let users :=
    if negb (bool_decide (is_Some (onlineUsers s !! userId)))
    then <[userId := []]> (onlineUsers s)
    else onlineUsers s in
  {| onlineUsers := alter (set_add socketId) userId users;
     flaggedOnline := {[userId]} ∪ flaggedOnline s;
     messages := messages s;
     emissions := emissions s ++ [Broadcast socketId "user_online" userId] |}.

(** [socket.on("disconnect", ...)] *)
Definition disconnect (userId socketId : string) (s : Server) : Server :=
  match onlineUsers s !! userId with
  | Some userSockets =>
      let userSockets := set_delete socketId userSockets in
      if bool_decide (length userSockets = 0%nat)
      then
        {| onlineUsers := delete userId (onlineUsers s);
           flaggedOnline := flaggedOnline s ∖ {[userId]};
           messages := messages s;
           emissions := emissions s ++ [Broadcast socketId "user_offline" userId] |}
      else
        {| onlineUsers := <[userId := userSockets]> (onlineUsers s);
           flaggedOnline := flaggedOnline s;
           messages := messages s;
           emissions := emissions s |}
  | None => s
  end.

Inductive Event : Type :=
| Connection (userId socketId : string)
| Disconnect (userId socketId : string).

Definition step (s : Server) (e : Event) : Server :=
  match e with
  | Connection userId socketId => connection userId socketId s
  | Disconnect userId socketId => disconnect userId socketId s
  end.

Definition run (events : list Event) (s : Server) : Server := fold_left step events s.

(** What the routes [POST /api/auth/login], when it succeeds, and
    [POST /api/auth/logout], with a valid token, do to the same column. *)
Definition login (userId : string) (s : Server) : Server :=
  {| onlineUsers := onlineUsers s; flaggedOnline := {[userId]} ∪ flaggedOnline s;
     messages := messages s; emissions := emissions s |}.

Definition logout (userId : string) (s : Server) : Server :=
  {| onlineUsers := onlineUsers s; flaggedOnline := flaggedOnline s ∖ {[userId]};
     messages := messages s; emissions := emissions s |}.

(** Socket events with logins and logouts in between. *)
Inductive Activity : Type :=
| Socket (e : Event)
| Login (userId : string)
| Logout (userId : string).

Definition act (s : Server) (a : Activity) : Server :=
  match a with
  | Socket e => step s e
  | Login userId => login userId s
  | Logout userId => logout userId s
  end.

Definition run_all (activities : list Activity) (s : Server) : Server :=
  fold_left act activities s.


(** The sockets of [userId] that are open after [events], oldest first. *)
Definition open_sockets (userId : string) (events : list Event) : list string :=
  fold_left
    (fun open e =>
       match e with
       | Connection u socketId =>
           if bool_decide (u = userId) then set_add socketId open else open
       | Disconnect u socketId =>
           if bool_decide (u = userId) then set_delete socketId open else open
       end)
    events [].

(** The row [db.createMessage] makes; the columns it does not name are at
    their defaults. *)
Definition created_row (newId chat sender recipient : string)
    (ciphertext iv : list ascii) : Database.Message :=
  {| Database.id := newId; Database.chatId := chat;
     Database.senderId := sender; Database.recipientId := Some recipient;
     Database.ciphertext := ciphertext; Database.iv := iv;
     Database.status := "sent";
     Database.deliveredAt := None; Database.readAt := None;
     Database.isEdited := false; Database.editedAt := None;
     Database.isDeleted := false; Database.deletedAt := None |}.

(** The copy of a stored message that goes to the recipient's sockets. *)
Definition forwarded_copy (newId chat sender : string) (ciphertext iv : list ascii)
    (createdAt : N) : Inbound.SocketMessage :=
  {| Inbound.sm_id := Some newId;
     Inbound.sm_messageId := Some newId;
     Inbound.sm_senderId := sender;
     Inbound.sm_recipientId := None;
     Inbound.sm_chatId := Some chat;
     Inbound.sm_ciphertext := ciphertext;
     Inbound.sm_iv := iv;
     Inbound.sm_timestamp := createdAt |}.

Section Handler.
(** [`direct_${[a, b].sort().join("_")}`] *)
Variable direct_chat_id : string -> string -> string.

(** [socket.on("encrypted_message", ...)] on the socket [socketId]
    authenticated as [userId].  [created] is how [db.createMessage] ends: the
    id and creation time the database gave the row, or nothing when it
    threw. *)
Definition on_encrypted_message (userId socketId : string)
    (data : SecureSocketClient.QueuedMessage) (created : option (string * N)) (now : N)
    (s : Server) : Server :=
  let recipientId := SecureSocketClient.recipientId data in
  let chatId := SecureSocketClient.chatId data in
  let ciphertext := SecureSocketClient.ciphertext data in
  let iv := SecureSocketClient.iv data in
  let error message :=
    {| onlineUsers := onlineUsers s; flaggedOnline := flaggedOnline s;
       messages := messages s;
       emissions := emissions s ++ [ErrorTo socketId message] |} in
  if negb (bool_decide (recipientId <> "")) || negb (truthy ciphertext) || negb (truthy iv)
  then error "Invalid message data"
  else
    match created with
    | None => error "Failed to send message"
    | Some (newId, createdAt) =>
        let chat :=
          if bool_decide (chatId <> "") then chatId
          else direct_chat_id userId recipientId in
        let stored :=
          <[newId := created_row newId chat userId recipientId ciphertext iv]> (messages s) in
        match onlineUsers s !! recipientId with
        | Some recipientSockets =>
            {| onlineUsers := onlineUsers s; flaggedOnline := flaggedOnline s;
               messages :=
                 snd (Database.updateMessageStatus newId "delivered" recipientId now stored);
               emissions :=
                 emissions s ++
                 map (fun socketId =>
                        Forward socketId
                          (forwarded_copy newId chat userId ciphertext iv createdAt))
                    recipientSockets |}
        | None =>
            {| onlineUsers := onlineUsers s; flaggedOnline := flaggedOnline s;
               messages := stored; emissions := emissions s |}
        end
    end.

End Handler.
End Relay.

(** ** server/socket/handlers: the other relay, one socket per user *)

Module Handlers.

(** [connectedUsers], userId -> socketId, and the broadcasts made. *)
Record Server := {
  connectedUsers : gmap string string;
  broadcasts : list (string * string * string)
}.

Definition initial : Server := {| connectedUsers := ∅; broadcasts := [] |}.

(** The connection handler and the disconnect handler, for the socket
    [socketId] of [userId]; a broadcast is (the socket left out, event,
    userId). *)
Definition connection (userId socketId : string) (s : Server) : Server :=
  {| connectedUsers := <[userId := socketId]> (connectedUsers s);
     broadcasts := broadcasts s ++ [(socketId, "user_online", userId)] |}.

Definition disconnect (userId socketId : string) (s : Server) : Server :=
  {| connectedUsers := delete userId (connectedUsers s);
     broadcasts := broadcasts s ++ [(socketId, "user_offline", userId)] |}.

Definition isUserOnline (userId : string) (s : Server) : bool :=
  bool_decide (is_Some (connectedUsers s !! userId)).

Definition step (s : Server) (e : Relay.Event) : Server :=
  match e with
  | Relay.Connection userId socketId => connection userId socketId s
  | Relay.Disconnect userId socketId => disconnect userId socketId s
  end.

Definition run (events : list Relay.Event) (s : Server) : Server := fold_left step events s.

(** The last event of [events] that concerns [userId]. *)
Definition concerns (userId : string) (e : Relay.Event) : bool :=
  match e with
  | Relay.Connection u _ | Relay.Disconnect u _ => bool_decide (u = userId)
  end.
Definition last_event_of (userId : string) (events : list Relay.Event) : option Relay.Event :=
  last (List.filter (concerns userId) events).

End Handlers.

(** Bob's socket client, with the channel to Alice, and a relay on which
    Bob has one socket open. *)
Module RelayParties.
Import Fake.

Definition bob : E2E.KeyManager :=
  {| E2E.keyPair :=
       Some (list_ascii_of_string "bob-private", list_ascii_of_string "bob-public");
     E2E.sharedKeys := {[ "alice" := alice_bob_key ]} |}.

Definition bob_online : SecureSocketClient.Client :=
  snd (SecureSocketClient.on_connect
         (snd (SecureSocketClient.connect "token" (SecureSocketClient.new_client "bob" bob fresh)))).

Definition bob_connected : Relay.Server := Relay.connection "bob" "socket-b" Relay.initial.

(** What Alice's client transmits for the text [hi] to Bob, and the copy the
    relay makes of it. *)
Definition hi_from_alice : SecureSocketClient.QueuedMessage :=
  SecureSocketClient.queued_entry alice_online alice_bob_key "bob" (text "hi") "chat-1" 7.

Definition hi_forwarded : Inbound.SocketMessage :=
  Relay.forwarded_copy "m7" "chat-1" "alice"
    (SecureSocketClient.ciphertext hi_from_alice) (SecureSocketClient.iv hi_from_alice) 8.

(** Bob, flagged online in the database since before the restart, logs in,
    opens two sockets and logs out. *)
Definition bob_comes_and_goes : list Relay.Activity :=
  [Relay.Login "bob"; Relay.Socket (Relay.Connection "bob" "socket-1");
   Relay.Socket (Relay.Connection "bob" "socket-2"); Relay.Logout "bob"].


Definition direct_chat_id (a b : string) : string :=
  if String.leb a b then "direct_" ++ a ++ "_" ++ b else "direct_" ++ b ++ "_" ++ a.

End RelayParties.

(** ** server/database: counts, reactions and the rate limit *)

Module DatabaseQueries.
Import Database.

Section Counting.
Context {K A : Type} `{Countable K}.

(** [count({ where })]: the number of rows that satisfy [P]. *)
Definition count_where (P : K * A -> Prop) `{!forall r, Decision (P r)}
    (t : gmap K A) : nat :=
  length (filter P (map_to_list t)).

(** [groupBy({ by, where, _count: true })] followed by the loop that copies
    the groups into an object, for a column [by_] that holds ids the database
    generated: for each value of the column among the rows that satisfy [P],
    the number of those rows. *)
Definition group_count (by_ : K * A -> string) (P : K * A -> Prop)
    `{!forall r, Decision (P r)} (t : gmap K A) : gmap string nat :=
  let groups := remove_dups (by_ <$> filter P (map_to_list t)) in
  foldl (fun result g => <[g := count_where (fun r => P r /\ by_ r = g) t]> result)
        ∅ groups.

End Counting.

(** The [where] of the unread counts and of [markChatMessagesAsRead]. *)
Definition unread (userId : string) (r : string * Message) : Prop :=
  recipientId r.2 = Some userId /\ status r.2 <> "read".

#[export] Instance unread_dec userId r : Decision (unread userId r).
Proof. unfold unread. apply _. Defined.

(** [getUnreadCount(userId)] *)
Definition getUnreadCount (userId : string) (db : Table) : nat :=
  count_where (unread userId) db.

(** [getUnreadCountPerChat(userId)] *)
Definition getUnreadCountPerChat (userId : string) (db : Table) : gmap string nat :=
  group_count (fun r => chatId r.2) (unread userId) db.

End DatabaseQueries.

(** The [MessageReaction] table, keyed by its compound unique key
    (messageId, userId, emoji); [G] is the rest of a row, the columns the
    database generates. *)
Module Reactions.
Import DatabaseQueries.

Abbreviation Key := (string * string * string)%type.

(** [result[key] = value] for a number, on an object made by [{}].  The key
    [__proto__] names the accessor inherited from [Object.prototype], whose
    setter ignores a number: no entry is made.  Any other key gets the entry,
    or has it overwritten. *)
Definition object_set (key : string) (value : nat) (result : gmap string nat)
    : gmap string nat :=
  if bool_decide (key = "__proto__") then result else <[key := value]> result.

Section WithRows.
Context {G : Type}.

(** [addReaction(messageId, userId, emoji)]: an upsert whose update is
    empty.  [created] is how the creation of a row ends when there is none
    yet: the generated columns, or nothing when the database refuses it.  The
    result is the row, or nothing when the call threw. *)
Definition addReaction (messageId userId emoji : string) (created : option G)
    (t : gmap Key G) : option G * gmap Key G :=
  match t !! (messageId, userId, emoji) with
  | Some row => (Some row, t)
  | None =>
      match created with
      | Some row => (Some row, <[(messageId, userId, emoji) := row]> t)
      | None => (None, t)
      end
  end.

(** [removeReaction(messageId, userId, emoji)]: a [deleteMany], which
    returns the number of rows deleted. *)
Definition removeReaction (messageId userId emoji : string) (t : gmap Key G)
    : nat * gmap Key G :=
  match t !! (messageId, userId, emoji) with
  | Some _ => (1%nat, delete (messageId, userId, emoji) t)
  | None => (0%nat, t)
  end.

(** [getReactionCounts(messageId)]: the groups of [groupBy], one per emoji
    among the reactions to the message, copied into an object made by [{}],
    keyed by the emoji, which is whatever string a client sent. *)
Definition getReactionCounts (messageId : string) (t : gmap Key G) : gmap string nat :=
  let reacts (r : Key * G) : Prop := r.1.1.1 = messageId in
  let groups := remove_dups ((fun r : Key * G => r.1.2) <$> filter reacts (map_to_list t)) in
  foldl (fun result emoji =>
           object_set emoji
             (count_where (fun r : Key * G => reacts r /\ r.1.2 = emoji) t) result)
        ∅ groups.

(** The count shown for an emoji: its entry, or none. *)
Definition reaction_count (messageId emoji : string) (t : gmap Key G) : nat :=
  default 0%nat (getReactionCounts messageId t !! emoji).

End WithRows.
End Reactions.

(** JavaScript numbers, where the integers of the program meet them. *)
Module JsNumber.
#[local] Open Scope Z_scope.

(** The result of an addition or subtraction whose exact value is the
    integer [z]: the nearest double, a tie going to the even mantissa.  Up to
    [2 ^ 53] in magnitude every integer is a double. *)
Definition to_double (z : Z) : Z :=
  let a := Z.abs z in
  if a <? 2 ^ 53 then z
  else
    let e := Z.log2 a - 52 in
    let q := a / 2 ^ e in
    let r := a mod 2 ^ e in
    let half := 2 ^ (e - 1) in
    let q' :=
      if r <? half then q
      else if half <? r then q + 1
      else if Z.even q then q else q + 1 in
    Z.sgn z * (q' * 2 ^ e).

(** [new Date(t)]: the time value, or nothing for an Invalid Date, which is
    what a time more than 8.64e15 ms from the epoch gives. *)
Definition MAX_TIME : Z := 8640000000000000.

Definition new_Date (t : Z) : option Z :=
  if Z.abs t <=? MAX_TIME then Some t else None.

(** [a < b] on two [Date]s; with an Invalid Date it is false. *)
Definition Date_lt (a : Z) (b : option Z) : bool :=
  match b with
  | Some t => bool_decide (a < t)
  | None => false
  end.

End JsNumber.

Module RateLimit.
Import JsNumber.
#[local] Open Scope Z_scope.

Record RateLimitRecord := { count : Z; windowStart : Z }.
Record RateLimitResult := { allowed : bool; remaining : Z; retryAfter : option Z }.

(** The [RateLimitRecord] table, keyed by (identifier, endpoint). *)
Abbreviation Table := (gmap (string * string) RateLimitRecord).

(** [checkRateLimit(identifier, endpoint, maxRequests, windowMs)], for a
    maximum and a window that are integers.  [now] is what the first
    [Date.now()] returns and [later] what the clock shows when it is read
    again, after the record was fetched.  The counts and times of the rows are
    the integers of the database; what the function computes from its
    arguments is computed in doubles. *)
Definition checkRateLimit (identifier endpoint : string) (maxRequests windowMs : Z)
    (now later : Z) (db : Table) : RateLimitResult * Table :=
  let windowStart_ := new_Date (to_double (now - windowMs)) in
  match db !! (identifier, endpoint) with
  | Some existing =>
      if Date_lt (windowStart existing) windowStart_
      then
        ({| allowed := true; remaining := to_double (maxRequests - 1);
            retryAfter := None |},
         <[(identifier, endpoint) := {| count := 1; windowStart := later |}]> db)
      else if bool_decide (count existing >= maxRequests)
      then
        ({| allowed := false; remaining := 0;
            retryAfter :=
              Some (to_double (to_double (windowStart existing + windowMs) - later)) |},
         db)
      else
        ({| allowed := true;
            remaining := to_double (to_double (maxRequests - count existing) - 1);
            retryAfter := None |},
         <[(identifier, endpoint) :=
             {| count := count existing + 1; windowStart := windowStart existing |}]> db)
  | None =>
      ({| allowed := true; remaining := to_double (maxRequests - 1);
          retryAfter := None |},
       <[(identifier, endpoint) := {| count := 1; windowStart := later |}]> db)
  end.

(** [cleanRateLimitRecords(olderThanMs)], for an integer; with a cutoff that
    is an Invalid Date the query is refused and no row is deleted. *)
Definition cleanRateLimitRecords (olderThanMs now : Z) (db : Table) : Table :=
  match new_Date (to_double (now - olderThanMs)) with
  | Some cutoff =>
      filter (fun r : (string * string) * RateLimitRecord =>
                ~ (windowStart r.2 < cutoff)) db
  | None => db
  end.

(** A series of calls for one client and endpoint, each awaited before the
    next; a call is the two readings of the clock. *)
Fixpoint check_each (identifier endpoint : string) (maxRequests windowMs : Z)
    (calls : list (Z * Z)) (db : Table) : list RateLimitResult * Table :=
  match calls with
  | [] => ([], db)
  | (now, later) :: calls' =>
      let '(r, db1) := checkRateLimit identifier endpoint maxRequests windowMs now later db in
      let '(rs, db2) := check_each identifier endpoint maxRequests windowMs calls' db1 in
      (r :: rs, db2)
  end.

End RateLimit.

(** ** lib/security/input-validation *)

Module InputValidation.

(** A string literal as code units, and one character. *)
Definition lit (s : string) : jsstring := map N_of_ascii (list_ascii_of_string s).
Definition chr (c : ascii) : N := N_of_ascii c.

Definition LIMITS_password_min : nat := 12.
Definition LIMITS_password_max : nat := 128.
Definition LIMITS_message_max : nat := 4000.

(** [HTML_ENTITIES]; its keys are the class that [escapeHtml] replaces.  The
    double quote is written by its code, 34. *)
Definition HTML_ENTITIES : list (N * jsstring) :=
  [ (chr "&", lit "&amp;"); (chr "<", lit "&lt;"); (chr ">", lit "&gt;");
    (34, lit "&quot;"); (chr "'", lit "&#x27;"); (chr "/", lit "&#x2F;");
    (chr "`", lit "&#96;") ].

Definition entity_of (char : N) : option jsstring :=
  snd <$> List.find (fun e => fst e =? char) HTML_ENTITIES.

(** [escapeHtml(str)] *)
Definition escapeHtml (str : jsstring) : jsstring :=
  flat_map (fun char => default [char] (entity_of char)) str.

(** The class [[\x00-\x08\x0B\x0C\x0E-\x1F\x7F]]. *)
Definition is_control (u : N) : bool :=
  (u <=? 0x08) || (u =? 0x0B) || (u =? 0x0C) || ((0x0E <=? u) && (u <=? 0x1F)) ||
  (u =? 0x7F).

(** A code unit that is neither such a control character nor one of the
    characters of markup: angle brackets, quotes, slash and backtick. *)
Definition harmless (u : N) : Prop :=
  is_control u = false /\
  u <> chr "<" /\ u <> chr ">" /\ u <> 34 /\ u <> chr "'" /\ u <> chr "/" /\ u <> chr "`".

(** White space and line terminators, what [trim] strips. *)
Definition is_white_space (u : N) : bool :=
  ((0x09 <=? u) && (u <=? 0x0D)) || (u =? 0x20) || (u =? 0xA0) || (u =? 0x1680) ||
  ((0x2000 <=? u) && (u <=? 0x200A)) || (u =? 0x2028) || (u =? 0x2029) ||
  (u =? 0x202F) || (u =? 0x205F) || (u =? 0x3000) || (u =? 0xFEFF).

Fixpoint trim_start (s : jsstring) : jsstring :=
  match s with
  | u :: rest => if is_white_space u then trim_start rest else s
  | [] => []
  end.

Definition trim (s : jsstring) : jsstring := rev (trim_start (rev (trim_start s))).

(** [sanitizeMessage(message)] *)
Definition sanitizeMessage (message : jsstring) : jsstring :=
  let sanitized := take LIMITS_message_max (trim message) in
  let sanitized := List.filter (fun u => negb (u =? 0)) sanitized in
  let sanitized := List.filter (fun u => negb (is_control u)) sanitized in
  escapeHtml sanitized.

Inductive Strength : Type := weak | medium | strong.

Record ValidationResult := {
  valid : bool;
  error : option string;
  strength : option Strength
}.

Definition invalid (message : string) : ValidationResult :=
  {| valid := false; error := Some message; strength := None |}.

(** The character classes of the password checks; the special characters in
    the order of the source. *)
Definition is_lowercase (u : N) : bool := (chr "a" <=? u) && (u <=? chr "z").
Definition is_uppercase (u : N) : bool := (chr "A" <=? u) && (u <=? chr "Z").
Definition is_digit (u : N) : bool := (chr "0" <=? u) && (u <=? chr "9").
Definition is_special (u : N) : bool :=
  existsb (N.eqb u) (lit "!@#$%^&" ++ lit "*()_+-=[]{};':" ++ [34] ++ lit "\|,.<>/?").

(** [validatePassword(password)] *)
Definition validatePassword (password : jsstring) : ValidationResult :=
  if negb (truthy password) then invalid "Password is required"
  else if bool_decide (length password < LIMITS_password_min)%nat
  then invalid "Password must be at least 12 characters"
  else if bool_decide (LIMITS_password_max < length password)%nat
  then invalid "Password is too long"
  else
    let hasLowercase := existsb is_lowercase password in
    let hasUppercase := existsb is_uppercase password in
    let hasNumber := existsb is_digit password in
    let hasSpecial := existsb is_special password in
    if negb hasLowercase
    then invalid "Password must contain at least one lowercase letter"
    else if negb hasUppercase
    then invalid "Password must contain at least one uppercase letter"
    else if negb hasNumber then invalid "Password must contain at least one number"
    else if negb hasSpecial
    then invalid "Password must contain at least one special character"
    else
      let strength :=
        if bool_decide (16 <= length password)%nat && hasLowercase && hasUppercase
           && hasNumber && hasSpecial
        then strong
        else if bool_decide (12 <= length password)%nat && hasLowercase && hasUppercase
                && hasNumber && hasSpecial
        then medium
        else weak in
      {| valid := true; error := None; strength := Some strength |}.

(** [class RateLimiter]: the fields, and the methods with what [Date.now()]
    returns as an argument. *)
Record RateLimiter := {
  maxRequests : Z;
  windowMs : Z;
  requests : list Z
}.

Definition new_RateLimiter (maxRequests windowMs : Z) : RateLimiter :=
  {| maxRequests := maxRequests; windowMs := windowMs; requests := [] |}.

Definition in_window (l : RateLimiter) (now : Z) (time : Z) : bool :=
  (now - time <? windowMs l)%Z.

Definition isAllowed (now : Z) (l : RateLimiter) : bool * RateLimiter :=
  let requests := List.filter (in_window l now) (requests l) in
  if (Z.of_nat (length requests) >=? maxRequests l)%Z
  then (false, {| maxRequests := maxRequests l; windowMs := windowMs l;
                  requests := requests |})
  else (true, {| maxRequests := maxRequests l; windowMs := windowMs l;
                 requests := requests ++ [now] |}).

(** [Math.min(...requests)]; of no arguments it is [Infinity], written
    [None]. *)
Definition oldest (requests : list Z) : option Z :=
  match requests with
  | [] => None
  | time :: rest => Some (fold_left Z.min rest time)
  end.

(** [getRetryAfter()]; [None] is [Infinity]. *)
Definition getRetryAfter (now : Z) (l : RateLimiter) : option Z :=
  if (Z.of_nat (length (requests l)) <? maxRequests l)%Z then Some 0%Z
  else
    match oldest (requests l) with
    | Some oldestRequest => Some (Z.max 0 (windowMs l - (now - oldestRequest)))
    | None => None
    end.

(** A series of [isAllowed] calls, at the times given. *)
Fixpoint isAllowed_each (times : list Z) (l : RateLimiter) : list bool * RateLimiter :=
  match times with
  | [] => ([], l)
  | now :: times' =>
      let '(ok, l1) := isAllowed now l in
      let '(oks, l2) := isAllowed_each times' l1 in
      (ok :: oks, l2)
  end.

(** The times at which a call was let through. *)
Definition allowed_times (times : list Z) (oks : list bool) : list Z :=
  fst <$> List.filter snd (zip times oks).

(** The clock does not run backwards: each time is at least the one before,
    the first at least [start]. *)
Fixpoint nondecreasing_from (start : Z) (times : list Z) : bool :=
  match times with
  | [] => true
  | time :: rest => (start <=? time)%Z && nondecreasing_from time rest
  end.

End InputValidation.

(** ** server/utils/helpers: the checks made at registration *)

Module ServerHelpers.
Import InputValidation.

Definition is_special (u : N) : bool :=
  existsb (N.eqb u) (lit "!@#$%^&" ++ lit "*(),.?" ++ [34] ++ lit ":{}|<>").

(** [validatePassword(password)] *)
Definition validatePassword (password : jsstring) : bool :=
  let minLength := bool_decide (12 <= length password)%nat in
  let hasUpper := existsb is_uppercase password in
  let hasLower := existsb is_lowercase password in
  let hasNumber := existsb is_digit password in
  let hasSpecial := existsb is_special password in
  minLength && hasUpper && hasLower && hasNumber && hasSpecial.

End ServerHelpers.

(** * Proofs *)

Ltac nlia := zify; Z.to_euclidean_division_equations; lia.

(** ** Base64: [atob] undoes [btoa] *)

Module Base64Facts.
Import Base64.

Lemma list_ind3 {A} (P : list A -> Prop) :
  P [] -> (forall a, P [a]) -> (forall a b, P [a; b]) ->
  (forall a b c r, P r -> P (a :: b :: c :: r)) -> forall l, P l.
Proof.
  intros H0 H1 H2 H3.
  fix IH 1. intros [|a [|b [|c r]]]; [exact H0 | apply H1 | apply H2 | apply H3, IH].
Qed.

Ltac each_sextet n :=
  let p := fresh "p" in
  destruct n as [|p]; [|do 6 (try (destruct p as [p|p|]; try (exfalso; lia)))].

Lemma sextet_char_sextet n : n < 64 -> sextet_of_char (char_of_sextet n) = Some n.
Proof. intros H. each_sextet n; reflexivity. Qed.

Lemma char_of_sextet_plain n :
  n < 64 -> is_ascii_whitespace (char_of_sextet n) = false /\ is_pad (char_of_sextet n) = false.
Proof. intros H. each_sextet n; split; reflexivity. Qed.

Lemma sextets_bounded bs : Forall (fun n => n < 64) (sextets_of_bytes bs).
Proof.
  induction bs as [|a|a b|a b c r IH] using list_ind3; cbn [sextets_of_bytes].
  - constructor.
  - pose proof (N_ascii_bounded a). repeat constructor; nlia.
  - pose proof (N_ascii_bounded a). pose proof (N_ascii_bounded b).
    repeat constructor; nlia.
  - pose proof (N_ascii_bounded a). pose proof (N_ascii_bounded b).
    pose proof (N_ascii_bounded c).
    repeat (constructor; [nlia|]). exact IH.
Qed.

Lemma bytes_sextets_bytes bs : bytes_of_sextets (sextets_of_bytes bs) = bs.
Proof.
  induction bs as [|a|a b|a b c r IH] using list_ind3; cbn [sextets_of_bytes bytes_of_sextets].
  - reflexivity.
  - pose proof (N_ascii_bounded a).
    replace (N_of_ascii a / 4 * 4 + N_of_ascii a mod 4 * 16 / 16) with (N_of_ascii a) by nlia.
    now rewrite ascii_N_embedding.
  - pose proof (N_ascii_bounded a). pose proof (N_ascii_bounded b).
    replace (N_of_ascii a / 4 * 4 + (N_of_ascii a mod 4 * 16 + N_of_ascii b / 16) / 16)
      with (N_of_ascii a) by nlia.
    replace ((N_of_ascii a mod 4 * 16 + N_of_ascii b / 16) mod 16 * 16 + N_of_ascii b mod 16 * 4 / 4)
      with (N_of_ascii b) by nlia.
    now rewrite !ascii_N_embedding.
  - pose proof (N_ascii_bounded a). pose proof (N_ascii_bounded b).
    pose proof (N_ascii_bounded c).
    replace (N_of_ascii a / 4 * 4 + (N_of_ascii a mod 4 * 16 + N_of_ascii b / 16) / 16)
      with (N_of_ascii a) by nlia.
    replace ((N_of_ascii a mod 4 * 16 + N_of_ascii b / 16) mod 16 * 16
             + (N_of_ascii b mod 16 * 4 + N_of_ascii c / 64) / 4)
      with (N_of_ascii b) by nlia.
    replace ((N_of_ascii b mod 16 * 4 + N_of_ascii c / 64) mod 4 * 64 + N_of_ascii c mod 64)
      with (N_of_ascii c) by nlia.
    now rewrite !ascii_N_embedding, IH.
Qed.

Lemma sextets_length bs :
  (length (sextets_of_bytes bs) + (3 - length bs mod 3) mod 3 =
   4 * ((length bs + 2) / 3))%nat.
Proof.
  induction bs as [|a|a b|a b c r IH] using list_ind3; cbn [sextets_of_bytes length]; try reflexivity.
  replace (S (S (S (length r)))) with (length r + 1 * 3)%nat by lia.
  rewrite Nat.Div0.mod_add.
  replace (length r + 1 * 3 + 2)%nat with (length r + 2 + 1 * 3)%nat by lia.
  rewrite Nat.div_add by lia. lia.
Qed.


Lemma mapM_sextet_chars ss :
  Forall (fun n => n < 64) ss -> mapM_sextet (map char_of_sextet ss) = Some ss.
Proof.
  induction 1 as [|n ss Hn _ IH]; cbn [map mapM_sextet]; [reflexivity|].
  now rewrite sextet_char_sextet, IH.
Qed.

Lemma filter_whitespace_id (s : list ascii) :
  Forall (fun c => is_ascii_whitespace c = false) s ->
  List.filter (fun c => negb (is_ascii_whitespace c)) s = s.
Proof.
  induction 1 as [|c s Hc _ IH]; cbn [List.filter]; [reflexivity|].
  now rewrite Hc, IH.
Qed.

Lemma strip_padding_body (body : list ascii) (k : nat) :
  Forall (fun c => is_pad c = false) body ->
  (k <= 2)%nat -> ((length body + k) mod 4 = 0)%nat ->
  strip_padding (body ++ repeat "="%char k) = body.
Proof.
  intros Hbody Hk Hlen. unfold strip_padding.
  rewrite length_app, repeat_length, Hlen. cbn [Nat.eqb].
  rewrite rev_app_distr, rev_repeat.
  assert (Hrev : Forall (fun c => is_pad c = false) (rev body)).
  { now apply List.Forall_rev. }
  destruct k as [|[|[|k]]]; [| | |lia]; cbn [repeat app].
  - rewrite app_nil_r. destruct (rev body) as [|p [|q r]] eqn:E.
    + reflexivity.
    + inversion Hrev as [|? ? Hp _]; subst. now rewrite Hp.
    + inversion Hrev as [|? ? Hp _]; subst. now rewrite Hp.
  - destruct (rev body) as [|q r] eqn:E.
    + cbn. apply (f_equal (@rev ascii)) in E. now rewrite rev_involutive in E.
    + inversion Hrev as [|? ? Hq _]; subst.
      change (is_pad "="%char) with true. cbv iota. rewrite Hq.
      rewrite <- E. apply rev_involutive.
  - cbn. apply rev_involutive.
Qed.

Theorem atob_btoa (bs : list ascii) : atob (btoa bs) = Some bs.
Proof.
  pose proof (sextets_bounded bs) as Hb.
  pose proof (sextets_length bs) as Hl.
  assert (Hk : ((3 - length bs mod 3) mod 3 <= 2)%nat).
  { pose proof (Nat.mod_upper_bound (3 - length bs mod 3) 3). lia. }
  assert (Hplain : Forall (fun c => is_ascii_whitespace c = false /\ is_pad c = false)
                     (map char_of_sextet (sextets_of_bytes bs))).
  { apply List.Forall_map. eapply List.Forall_impl; [|exact Hb].
    intros n Hn. now apply char_of_sextet_plain. }
  unfold atob, btoa, padding.
  rewrite filter_whitespace_id.
  2:{ apply List.Forall_app. split.
      - eapply List.Forall_impl; [|exact Hplain]. now intros c [? _].
      - apply List.Forall_forall. intros c Hc. apply repeat_spec in Hc. now subst. }
  rewrite strip_padding_body; [| |exact Hk|].
  2:{ eapply List.Forall_impl; [|exact Hplain]. now intros c [_ ?]. }
  2:{ rewrite length_map, Hl. rewrite Nat.mul_comm. apply Nat.Div0.mod_mul. }
  rewrite length_map.
  assert (Hne : (length (sextets_of_bytes bs) mod 4 =? 1)%nat = false).
  { apply Nat.eqb_neq. intros Habs.
    assert (length (sextets_of_bytes bs) =
            4 * ((length bs + 2) / 3) - (3 - length bs mod 3) mod 3)%nat as E by lia.
    set (m := ((length bs + 2) / 3)%nat) in *.
    set (k := ((3 - length bs mod 3) mod 3)%nat) in *.
    set (n := length (sextets_of_bytes bs)) in *.
    clearbody m k n. clear - Habs Hl Hk.
    pose proof (Nat.div_mod_eq n 4). lia. }
  rewrite Hne, mapM_sextet_chars by exact Hb.
  cbn [option_map]. now rewrite bytes_sextets_bytes.
Qed.

Example btoa_hello :
  btoa (list_ascii_of_string "hello") = list_ascii_of_string "aGVsbG8=".
Proof. reflexivity. Qed.

Example atob_skips_whitespace :
  atob (list_ascii_of_string "aGVs bG8") = Some (list_ascii_of_string "hello").
Proof. reflexivity. Qed.

Example atob_rejects_misplaced_padding :
  atob (list_ascii_of_string "aGVsb=G8") = None.
Proof. reflexivity. Qed.

Corollary btoa_inj (a b : list ascii) : btoa a = btoa b -> a = b.
Proof.
  intros E. apply (f_equal atob) in E. rewrite !atob_btoa in E. congruence.
Qed.

End Base64Facts.

(** ** UTF-8: what [TextDecoder] makes of [TextEncoder]'s output *)

Module TextFacts.
Import Text.

Lemma lor_shiftl_low a c n : c < 2 ^ n -> N.lor (N.shiftl a n) c = a * 2 ^ n + c.
Proof.
  intros Hc.
  assert (E : N.land (N.shiftl a n) c = 0).
  { apply N.bits_inj. intros i. rewrite N.land_spec, N.bits_0.
    destruct (N.lt_ge_cases i n) as [Hi|Hi].
    - rewrite N.shiftl_spec_low by exact Hi. reflexivity.
    - replace (N.testbit c i) with false; [apply andb_false_r|].
      symmetry. rewrite <- (N.mod_small c (2 ^ n)) by exact Hc.
      now apply N.mod_pow2_bits_high. }
  rewrite <- N.lxor_lor by exact E.
  rewrite <- N.add_nocarry_lxor by exact E.
  now rewrite N.shiftl_mul_pow2.
Qed.

Lemma continuation_value c b : N.lor (N.shiftl c 6) (N.land b 0x3F) = c * 64 + b mod 64.
Proof.
  change 0x3F with (N.ones 6). rewrite N.land_ones.
  rewrite lor_shiftl_low; [reflexivity|]. apply N.mod_lt. discriminate.
Qed.

Lemma land_1F b : N.land b 0x1F = b mod 32.
Proof. change 0x1F with (N.ones 5). apply N.land_ones. Qed.
Lemma land_F b : N.land b 0xF = b mod 16.
Proof. change 0xF with (N.ones 4). apply N.land_ones. Qed.
Lemma land_7 b : N.land b 0x7 = b mod 8.
Proof. change 0x7 with (N.ones 3). apply N.land_ones. Qed.

Ltac settle_tests :=
  repeat (match goal with
  | |- context [N.leb ?a ?b] =>
      first [ rewrite (proj2 (N.leb_le a b)) by nlia
            | rewrite (proj2 (N.leb_gt a b)) by nlia ]
  | |- context [N.ltb ?a ?b] =>
      first [ rewrite (proj2 (N.ltb_lt a b)) by nlia
            | rewrite (proj2 (N.ltb_ge a b)) by nlia ]
  | |- context [N.eqb ?a ?b] =>
      first [ rewrite (proj2 (N.eqb_eq a b)) by nlia
            | rewrite (proj2 (N.eqb_neq a b)) by nlia ]
  end; cbn [andb negb orb]).

Ltac split_boundaries :=
  repeat match goal with
  | |- context [N.eqb ?a ?b] => destruct (N.eqb_spec a b)
  end.

Ltac decoder_step :=
  unfold handle at 1, handle_lead, decoder_init;
  cbn [bytes_needed bytes_seen lower_boundary upper_boundary code_point];
  rewrite ?continuation_value; settle_tests.

Lemma is_scalar_range cp :
  is_scalar cp = true -> cp < 0x110000 /\ (cp < 0xD800 \/ 0xDFFF < cp).
Proof.
  unfold is_scalar. rewrite andb_true_iff, negb_true_iff, andb_false_iff.
  rewrite N.ltb_lt, N.leb_gt, N.leb_gt. lia.
Qed.

Lemma run_encode_scalar cp :
  is_scalar cp = true -> run decoder_init (utf8_encode cp) = (decoder_init, [cp]).
Proof.
  intros Hs. apply is_scalar_range in Hs. destruct Hs as [H1 H2].
  unfold utf8_encode.
  destruct (N.ltb_spec cp 0x80) as [C1|C1];
    [|destruct (N.ltb_spec cp 0x800) as [C2|C2];
      [|destruct (N.ltb_spec cp 0x10000) as [C3|C3]]];
    cbn [run].
  - rewrite !N_ascii_embedding by lia. decoder_step. reflexivity.
  - remember (cp / 0x40) as x1 eqn:E1. remember (cp mod 0x40) as x0 eqn:E0.
    assert (cp = x1 * 64 + x0 /\ x0 < 64) as [-> B0] by (subst; nlia).
    clear E0 E1. rewrite !N_ascii_embedding by lia.
    decoder_step. decoder_step. rewrite land_1F.
    cbn [app]. fold decoder_init. do 2 f_equal. nlia.
  - remember (cp / 0x1000) as x2 eqn:E2.
    remember ((cp / 0x40) mod 0x40) as x1 eqn:E1. remember (cp mod 0x40) as x0 eqn:E0.
    assert (cp = x2 * 4096 + x1 * 64 + x0 /\ x1 < 64 /\ x0 < 64) as (-> & B1 & B0)
      by (subst; nlia).
    clear E0 E1 E2. rewrite !N_ascii_embedding by lia.
    decoder_step. rewrite land_F. split_boundaries; try (exfalso; nlia);
      do 2 decoder_step; cbn [app]; fold decoder_init; do 2 f_equal; nlia.
  - remember (cp / 0x40000) as x3 eqn:E3. remember ((cp / 0x1000) mod 0x40) as x2 eqn:E2.
    remember ((cp / 0x40) mod 0x40) as x1 eqn:E1. remember (cp mod 0x40) as x0 eqn:E0.
    assert (cp = x3 * 262144 + x2 * 4096 + x1 * 64 + x0 /\ x2 < 64 /\ x1 < 64 /\ x0 < 64)
      as (-> & B2 & B1 & B0) by (subst; nlia).
    clear E0 E1 E2 E3. rewrite !N_ascii_embedding by lia.
    decoder_step. rewrite land_7. split_boundaries; try (exfalso; nlia);
      do 3 decoder_step; cbn [app]; fold decoder_init; do 2 f_equal; nlia.
Qed.


Lemma utf8_decode_app d a b :
  utf8_decode d (a ++ b) = snd (run d a) ++ utf8_decode (fst (run d a)) b.
Proof.
  revert d. induction a as [|x a IH]; intros d; cbn [app run utf8_decode fst snd].
  - reflexivity.
  - destruct (handle d (N_of_ascii x)) as [d' out]. rewrite IH.
    destruct (run d' a) as [d'' out']. cbn [fst snd]. now rewrite app_assoc.
Qed.

Lemma utf8_decode_encode cps :
  Forall (fun cp => is_scalar cp = true) cps ->
  utf8_decode decoder_init (flat_map utf8_encode cps) = cps.
Proof.
  induction 1 as [|cp cps Hcp _ IH]; cbn [flat_map].
  - reflexivity.
  - rewrite utf8_decode_app, run_encode_scalar by exact Hcp.
    cbn [fst snd app]. now rewrite IH.
Qed.

Lemma list_ind_skip {A} (P : list A -> Prop) :
  P [] -> (forall u, P [u]) ->
  (forall u v r, P r -> P (v :: r) -> P (u :: v :: r)) -> forall l, P l.
Proof.
  intros H0 H1 H2 l.
  assert (H : P l /\ forall x, P (x :: l)); [|exact (proj1 H)].
  induction l as [|a l [IHl IHc]]; split; auto.
Qed.

Lemma surrogate_dec u :
  (is_lead u = true /\ is_trail u = false /\ 0xD800 <= u <= 0xDBFF) \/
  (is_lead u = false /\ is_trail u = true /\ 0xDC00 <= u <= 0xDFFF) \/
  (is_lead u = false /\ is_trail u = false /\ (u < 0xD800 \/ 0xDFFF < u)).
Proof.
  unfold is_lead, is_trail.
  destruct (N.leb_spec 0xD800 u), (N.leb_spec u 0xDBFF),
    (N.leb_spec 0xDC00 u), (N.leb_spec u 0xDFFF); cbn [andb]; lia.
Qed.

Ltac surrogate_cases u :=
  let El := fresh "El" in let Et := fresh "Et" in let R := fresh "R" in
  destruct (surrogate_dec u) as [(El & Et & R)|[(El & Et & R)|(El & Et & R)]];
  rewrite ?El, ?Et; clear El Et.

Lemma is_scalar_intro cp :
  cp < 0x110000 -> (cp < 0xD800 \/ 0xDFFF < cp) -> is_scalar cp = true.
Proof.
  intros H1 H2. unfold is_scalar.
  rewrite andb_true_iff, negb_true_iff, andb_false_iff, N.ltb_lt, !N.leb_gt. lia.
Qed.

Lemma code_points_scalar s :
  Forall (fun u => u < 0x10000) s -> Forall (fun cp => is_scalar cp = true) (code_points s).
Proof.
  induction s as [|u|u v r IHr IHv] using list_ind_skip; intros Hs.
  - constructor.
  - inversion Hs as [|? ? Hu _]; subst. cbn [code_points].
    surrogate_cases u; repeat constructor; apply is_scalar_intro; lia.
  - inversion Hs as [|? ? Hu Hs']; subst.
    inversion Hs' as [|? ? Hv Hr]; subst.
    specialize (IHr Hr). specialize (IHv Hs').
    change (code_points (u :: v :: r)) with
      (if is_lead u then
         if is_trail v
         then 0x10000 + (u - 0xD800) * 0x400 + (v - 0xDC00) :: code_points r
         else 0xFFFD :: code_points (v :: r)
       else if is_trail u then 0xFFFD :: code_points (v :: r)
       else u :: code_points (v :: r)).
    surrogate_cases u; surrogate_cases v;
      constructor; try assumption; apply is_scalar_intro; lia.
Qed.

Lemma code_units_points s :
  well_formed s = true -> flat_map code_units (code_points s) = s.
Proof.
  induction s as [|u|u v r IHr IHv] using list_ind_skip.
  - reflexivity.
  - cbn [well_formed code_points]. surrogate_cases u; cbn [negb andb]; try discriminate.
    rewrite andb_true_r, N.ltb_lt. intros Hu. cbn [flat_map]. unfold code_units.
    rewrite (proj2 (N.ltb_lt u 0x10000)) by lia. reflexivity.
  - change (well_formed (u :: v :: r)) with
      (if is_lead u then is_trail v && well_formed r
       else negb (is_trail u) && (u <? 0x10000) && well_formed (v :: r)).
    change (code_points (u :: v :: r)) with
      (if is_lead u then
         if is_trail v
         then 0x10000 + (u - 0xD800) * 0x400 + (v - 0xDC00) :: code_points r
         else 0xFFFD :: code_points (v :: r)
       else if is_trail u then 0xFFFD :: code_points (v :: r)
       else u :: code_points (v :: r)).
    surrogate_cases u; surrogate_cases v; cbn [negb andb]; try discriminate;
      try (intros Hw; cbn [flat_map]; rewrite (IHr Hw); unfold code_units;
           rewrite (proj2 (N.ltb_ge _ 0x10000)) by lia; cbn [app];
           do 2 f_equal; [|f_equal]; nlia);
      try (rewrite andb_true_iff, N.ltb_lt; intros [Hu Hw]; cbn [flat_map];
           rewrite (IHv Hw); unfold code_units;
           rewrite (proj2 (N.ltb_lt u 0x10000)) by lia; reflexivity).
Qed.

Lemma strip_bom_code_points s :
  starts_with_bom s = false -> strip_bom (code_points s) = code_points s.
Proof.
  destruct s as [|u [|v r]]; [reflexivity| |]; cbn [starts_with_bom]; intros Hb.
  - cbn [code_points]. surrogate_cases u; cbn [strip_bom]; try reflexivity.
    now rewrite Hb.
  - change (code_points (u :: v :: r)) with
      (if is_lead u then
         if is_trail v
         then 0x10000 + (u - 0xD800) * 0x400 + (v - 0xDC00) :: code_points r
         else 0xFFFD :: code_points (v :: r)
       else if is_trail u then 0xFFFD :: code_points (v :: r)
       else u :: code_points (v :: r)).
    surrogate_cases u; surrogate_cases v; cbn [strip_bom]; try reflexivity;
      try (now rewrite Hb);
      rewrite (proj2 (N.eqb_neq _ 0xFEFF)) by lia; reflexivity.
Qed.

Example encode_astral_and_euro :
  map N_of_ascii (TextEncoder_encode [0xD83D; 0xDE00; 0x20AC; 0xE9]) =
    [240; 159; 152; 128; 226; 130; 172; 195; 169].
Proof. reflexivity. Qed.

Example decode_replaces_ill_formed_input :
  utf8_decode decoder_init (map ascii_of_N [0xE2; 0x82; 0x41; 0xC0; 0xF0; 0x9F]) =
    [0xFFFD; 0x41; 0xFFFD; 0xFFFD].
Proof. reflexivity. Qed.

Theorem TextDecoder_TextEncoder s :
  Forall (fun u => u < 0x10000) s ->
  TextDecoder_decode (TextEncoder_encode s) = flat_map code_units (strip_bom (code_points s)).
Proof.
  intros Hs. unfold TextDecoder_decode, TextEncoder_encode.
  now rewrite utf8_decode_encode by (now apply code_points_scalar).
Qed.

Lemma well_formed_units s : well_formed s = true -> Forall (fun u => u < 0x10000) s.
Proof.
  induction s as [|u|u v r IHr IHv] using list_ind_skip.
  - constructor.
  - cbn [well_formed]. surrogate_cases u; cbn [negb andb]; try discriminate.
    rewrite andb_true_r, N.ltb_lt. now repeat constructor.
  - change (well_formed (u :: v :: r)) with
      (if is_lead u then is_trail v && well_formed r
       else negb (is_trail u) && (u <? 0x10000) && well_formed (v :: r)).
    surrogate_cases u; surrogate_cases v; cbn [negb andb]; try discriminate;
      try (intros Hw; repeat (constructor; [lia|]); now apply IHr);
      try (rewrite andb_true_iff, N.ltb_lt; intros [Hu Hw]; constructor; [lia|now apply IHv]).
Qed.

Theorem text_round_trip s :
  well_formed s = true -> starts_with_bom s = false ->
  TextDecoder_decode (TextEncoder_encode s) = s.
Proof.
  intros Hw Hb. rewrite TextDecoder_TextEncoder by (now apply well_formed_units).
  rewrite strip_bom_code_points by exact Hb. now apply code_units_points.
Qed.

End TextFacts.

(** ** The stand-in platform honours the AES-GCM contracts *)

Module FakeFacts.
Import Contract Fake.

Lemma flip_ascii_bit_neq j a : (j < 8)%nat -> flip_ascii_bit j a <> a.
Proof.
  intros Hj. destruct a as [b0 b1 b2 b3 b4 b5 b6 b7].
  do 8 (destruct j as [|j];
        [cbn [flip_ascii_bit]; intros E; injection E;
         repeat match goal with b : bool |- _ => destruct b end; discriminate|]).
  lia.
Qed.

Lemma alter_neq {A} (f : A -> A) (p : nat) (l : list A) :
  (p < length l)%nat -> (forall x, f x <> x) -> alter f p l <> l.
Proof.
  intros Hp Hf E. apply (f_equal (fun l => l !! p)) in E.
  rewrite list_lookup_alter_eq in E.
  destruct (lookup_lt_is_Some_2 l p Hp) as [x Hx].
  rewrite Hx in E. cbn in E. injection E. apply Hf.
Qed.

Lemma half_double n : ((n + n) / 2 = n)%nat.
Proof. replace (n + n)%nat with (n * 2)%nat by lia. now apply Nat.div_mul. Qed.

Lemma fake_correct : aead_correct.
Proof.
  intros key iv data.
  change (fake_decrypt key iv (fake_encrypt key iv data) = Some data).
  unfold fake_decrypt, fake_encrypt.
  rewrite length_app, half_double.
  rewrite take_app_length, drop_app_length.
  rewrite bool_decide_eq_true_2 by reflexivity.
  rewrite <- app_assoc, take_app_length.
  rewrite bool_decide_eq_true_2 by reflexivity.
  cbn [andb]. now rewrite drop_app_length.
Qed.

Lemma fake_authentic : aead_authentic.
Proof.
  intros key iv data i Hi.
  change (i < 8 * length (fake_encrypt key iv data))%nat in Hi.
  change (fake_decrypt key iv (flip_bit i (fake_encrypt key iv data)) = None).
  unfold fake_decrypt, fake_encrypt in *.
  set (y := key ++ data) in *. unfold flip_bit.
  set (f := flip_ascii_bit (i mod 8)).
  assert (Hf : forall x, f x <> x).
  { intros x. apply flip_ascii_bit_neq. apply Nat.mod_upper_bound. lia. }
  assert (Hp : (i / 8 < length y + length y)%nat).
  { rewrite length_app in Hi. apply Nat.Div0.div_lt_upper_bound. lia. }
  rewrite length_alter, length_app, half_double.
  rewrite bool_decide_eq_false_2; [reflexivity|].
  destruct (Nat.lt_ge_cases (i / 8) (length y)) as [Hlt|Hge].
  - rewrite take_alter_lt, drop_alter_lt by exact Hlt.
    rewrite take_app_length, drop_app_length. now apply alter_neq.
  - rewrite take_alter_ge, drop_alter_ge by exact Hge.
    rewrite take_app_length, drop_app_length.
    intros E. symmetry in E. revert E. apply alter_neq; [lia|exact Hf].
Qed.

End FakeFacts.

(** ** Key manager: round trip, tampering, nonces *)

Module E2EFacts.
Import Contract E2E.

Section WithPlatform.
Context `{Platform}.

Lemma base64_decodes (b : bytes) : base64ToArrayBuffer (arrayBufferToBase64 b) = Return b.
Proof.
  unfold base64ToArrayBuffer, arrayBufferToBase64.
  now rewrite Base64Facts.atob_btoa.
Qed.

Lemma encryptFor_established {St} `{HasEntropy St} km peer key message (s : St) :
  sharedKeys km !! peer = Some key ->
  encryptFor km peer message s =
    (Return {| ciphertext :=
                 Base64.btoa (subtle_encrypt key
                    (random_block (octets_drawn (entropy_of s)) 12)
                    (Text.TextEncoder_encode message));
               iv := Base64.btoa (random_block (octets_drawn (entropy_of s)) 12) |},
     with_entropy {| octets_drawn := octets_drawn (entropy_of s) + 12;
                     uuids_drawn := uuids_drawn (entropy_of s) |} s).
Proof. intros Hk. unfold encryptFor. rewrite Hk. reflexivity. Qed.

(** What the round trip returns, for every plaintext. *)
Lemma encrypt_then_decrypt_value km peer key message e :
  aead_correct ->
  sharedKeys km !! peer = Some key ->
  encrypt_then_decrypt km peer message e =
    Return (Text.TextDecoder_decode (Text.TextEncoder_encode message)).
Proof.
  intros Hc Hk. unfold encrypt_then_decrypt.
  rewrite (encryptFor_established _ _ _ _ _ Hk). cbn [ciphertext iv].
  unfold decryptFrom, decryptMessage. rewrite Hk.
  fold (arrayBufferToBase64 (random_block (octets_drawn (entropy_of e)) 12)).
  fold (arrayBufferToBase64 (subtle_encrypt key
          (random_block (octets_drawn (entropy_of e)) 12)
          (Text.TextEncoder_encode message))).
  rewrite !base64_decodes. now rewrite Hc.
Qed.


(** C2, as amended.  For every plaintext that is well-formed UTF-16 (no
    unpaired surrogate) and does not begin with U+FEFF, and every peer with an
    established channel, decrypting what [encryptFor] produced returns exactly
    the plaintext, given that AES-GCM decrypts what it encrypted. *)
Theorem encrypt_decrypt_round_trip km peer key message e :
  aead_correct ->
  sharedKeys km !! peer = Some key ->
  Text.well_formed message = true ->
  Text.starts_with_bom message = false ->
  encrypt_then_decrypt km peer message e = Return message.
Proof.
  intros Hc Hk Hw Hb.
  rewrite (encrypt_then_decrypt_value _ _ _ _ _ Hc Hk).
  now rewrite TextFacts.text_round_trip.
Qed.

(** [decryptFrom] hands out a plaintext only when AES-GCM accepted the whole
    input, and then the decoding of exactly what AES-GCM returned. *)
Lemma decryptFrom_returns km peer key c v s :
  sharedKeys km !! peer = Some key ->
  decryptFrom km peer c v = Return s ->
  exists rawc rawv data,
    Base64.atob c = Some rawc /\ Base64.atob v = Some rawv /\
    subtle_decrypt key rawv rawc = Some data /\ s = Text.TextDecoder_decode data.
Proof.
  intros Hk. unfold decryptFrom, decryptMessage, base64ToArrayBuffer. rewrite Hk.
  destruct (Base64.atob c) as [rawc|]; [|discriminate].
  destruct (Base64.atob v) as [rawv|]; [|discriminate].
  destruct (subtle_decrypt key rawv rawc) as [data|] eqn:Hd; [|discriminate].
  intros [= <-]. now exists rawc, rawv, data.
Qed.

(** C3.  Under an established channel, flipping any single bit of what
    [encryptFor] produced (ciphertext or tag) makes [decryptFrom] throw the
    decryption failure, given that AES-GCM rejects such inputs; and whenever
    [decryptFrom] returns, AES-GCM authenticated the whole input and the
    result is the decoding of its output, never a partial plaintext. *)
Theorem tampering_is_detected km peer key message e :
  aead_authentic ->
  sharedKeys km !! peer = Some key ->
  exists enc e' raw,
    encryptFor km peer message e = (Return enc, e') /\
    Base64.atob (ciphertext enc) = Some raw /\
    (forall i, (i < 8 * length raw)%nat ->
       decryptFrom km peer (Base64.btoa (flip_bit i raw)) (iv enc)
         = Throw DecryptionFailure) /\
    (forall c v s, decryptFrom km peer c v = Return s ->
       exists rawc rawv data,
         Base64.atob c = Some rawc /\ Base64.atob v = Some rawv /\
         subtle_decrypt key rawv rawc = Some data /\
         s = Text.TextDecoder_decode data).
Proof.
  intros Ha Hk. eexists _, _, _.
  split; [apply (encryptFor_established _ _ _ _ _ Hk)|]. cbn [ciphertext iv].
  split; [apply Base64Facts.atob_btoa|]. split.
  - intros i Hi. unfold decryptFrom, decryptMessage. rewrite Hk.
    fold (arrayBufferToBase64 (random_block (octets_drawn (entropy_of e)) 12)).
    match goal with |- context [Base64.btoa (flip_bit i ?r)] =>
      fold (arrayBufferToBase64 (flip_bit i r)) end.
    rewrite !base64_decodes. now rewrite Ha.
  - intros c v s. now apply decryptFrom_returns.
Qed.

(** The IVs of successive [encryptFor] calls are the successive 12-octet
    blocks of the random source. *)
Lemma encrypt_each_ivs km peer key messages :
  sharedKeys km !! peer = Some key ->
  forall e, exists encs,
    encrypt_each km peer messages e =
      (Return encs, {| octets_drawn := octets_drawn e + 12 * length messages;
                       uuids_drawn := uuids_drawn e |}) /\
    map iv encs =
      map (fun j => Base64.btoa (random_block (octets_drawn e + 12 * j) 12))
          (seq 0 (length messages)).
Proof.
  intros Hk. unfold encrypt_each.
  induction messages as [|m ms IH]; intros e.
  - exists []. cbn. destruct e as [o u]. cbn.
    now replace (o + 0)%nat with o by lia.
  - cbn [mapM length]. unfold bind at 1.
    rewrite (encryptFor_established _ _ _ _ _ Hk).
    cbn [with_entropy Entropy_HasEntropy entropy_of].
    unfold bind at 1.
    destruct (IH {| octets_drawn := octets_drawn e + 12; uuids_drawn := uuids_drawn e |})
      as (encs & Hrun & Hivs).
    rewrite Hrun. cbn [octets_drawn uuids_drawn] in *.
    eexists. split.
    + unfold ret. do 2 f_equal. lia.
    + cbn [map iv seq]. f_equal.
      * do 2 f_equal. lia.
      * rewrite Hivs, <- seq_shift, List.map_map.
        apply List.map_ext. intros j. do 2 f_equal. lia.
Qed.

(** C4.  Every [encryptFor] call draws its IV as the next 12 octets (96 bits)
    of the secure random source, at a position no earlier call has read, and
    stores none; so when the source's successive 12-octet outputs are pairwise
    distinct, the IVs of N calls in a row on one channel are pairwise
    distinct. *)
Theorem nonces_are_fresh km peer key messages e :
  sharedKeys km !! peer = Some key ->
  NoDup (map (fun j => random_block (octets_drawn e + 12 * j) 12)
             (seq 0 (length messages))) ->
  exists encs e',
    encrypt_each km peer messages e = (Return encs, e') /\
    length encs = length messages /\
    octets_drawn e' = (octets_drawn e + 12 * length messages)%nat /\
    map iv encs =
      map (fun j => Base64.btoa (random_block (octets_drawn e + 12 * j) 12))
          (seq 0 (length messages)) /\
    Forall (fun v => exists block, length block = 12%nat /\ v = Base64.btoa block)
           (map iv encs) /\
    NoDup (map iv encs).
Proof.
  intros Hk Hfresh.
  destruct (encrypt_each_ivs km peer key messages Hk e) as (encs & Hrun & Hivs).
  eexists encs, _. split; [exact Hrun|]. cbn [octets_drawn].
  split; [|split; [reflexivity|split; [exact Hivs|split]]].
  - apply (f_equal (@length _)) in Hivs.
    now rewrite !length_map, length_seq in Hivs.
  - rewrite Hivs. apply List.Forall_forall. intros v Hv.
    apply in_map_iff in Hv. destruct Hv as (j & <- & _).
    eexists. split; [|reflexivity].
    unfold random_block. now rewrite length_map, length_seq.
  - rewrite Hivs.
    rewrite <- (List.map_map (fun j => random_block (octets_drawn e + 12 * j) 12) Base64.btoa).
    assert (Hinj : Inj (=) (=) Base64.btoa) by (intros a b; apply Base64Facts.btoa_inj).
    exact (NoDup_fmap_2 Base64.btoa _ Hfresh).
Qed.

End WithPlatform.

Import Fake.

(** C2, refuted as stated: a plaintext that begins with U+FEFF comes back
    without it, and an unpaired surrogate comes back as U+FFFD. *)
Lemma round_trip_alters_some_plaintexts :
  encrypt_then_decrypt Fake.alice "bob" [0xFEFF; 104] Fake.fresh <> Return [0xFEFF; 104] /\
  encrypt_then_decrypt Fake.alice "bob" [0xFEFF; 104] Fake.fresh = Return [104] /\
  encrypt_then_decrypt Fake.alice "bob" [0xD800] Fake.fresh = Return [0xFFFD].
Proof. split; [|split]; vm_compute; congruence. Qed.

Lemma encrypt_decrypt_round_trip_witness :
  encrypt_then_decrypt Fake.alice "bob" (Fake.text "hello") Fake.fresh
    = Return (Fake.text "hello").
Proof.
  apply (encrypt_decrypt_round_trip Fake.alice "bob" Fake.alice_bob_key).
  - exact FakeFacts.fake_correct.
  - reflexivity.
  - reflexivity.
  - reflexivity.
Defined.

Lemma tampering_is_detected_witness :
  exists enc e' raw,
    encryptFor Fake.alice "bob" (Fake.text "hello") Fake.fresh = (Return enc, e') /\
    Base64.atob (ciphertext enc) = Some raw /\
    (forall i, (i < 8 * length raw)%nat ->
       decryptFrom Fake.alice "bob" (Base64.btoa (flip_bit i raw)) (iv enc)
         = Throw DecryptionFailure) /\
    (forall c v s, decryptFrom Fake.alice "bob" c v = Return s ->
       exists rawc rawv data,
         Base64.atob c = Some rawc /\ Base64.atob v = Some rawv /\
         subtle_decrypt Fake.alice_bob_key rawv rawc = Some data /\
         s = Text.TextDecoder_decode data).
Proof.
  apply (tampering_is_detected Fake.alice "bob" Fake.alice_bob_key).
  - exact FakeFacts.fake_authentic.
  - reflexivity.
Defined.

Lemma nonces_are_fresh_witness :
  exists encs e',
    encrypt_each Fake.alice "bob" [Fake.text "one"; Fake.text "two"; Fake.text "three"]
      Fake.fresh = (Return encs, e') /\
    length encs = 3%nat /\
    octets_drawn e' = 36%nat /\
    map iv encs =
      map (fun j => Base64.btoa (random_block (0 + 12 * j) 12)) (seq 0 3) /\
    Forall (fun v => exists block, length block = 12%nat /\ v = Base64.btoa block)
           (map iv encs) /\
    NoDup (map iv encs).
Proof.
  apply (nonces_are_fresh Fake.alice "bob" Fake.alice_bob_key
           [Fake.text "one"; Fake.text "two"; Fake.text "three"] Fake.fresh).
  - reflexivity.
  - refine (bool_decide_unpack _ _). vm_compute. exact I.
Defined.

End E2EFacts.

(** ** Vault: wrong password, missing marker, lock *)

Module VaultFacts.
Import SecureStorage.

Section WithPlatform.
Context `{Platform}.

(** [initialize(password)] on a vault whose salt record is there, case by
    case on the verification marker. *)
Lemma initialize_returning password w stored saltBytes :
  window_defined w = true ->
  localStorage w !! SALT_STORAGE_NAME = Some stored ->
  truthy stored = true ->
  Base64.atob stored = Some saltBytes ->
  let key := deriveKeyFromPassword password saltBytes in
  initialize password false w =
    match localStorage w !! VERIFICATION_STORAGE_NAME with
    | Some (c :: r) =>
        match decryptFromStorage (c :: r) key with
        | Return _ =>
            (Return tt,
             with_fields {| masterKey := Some key; salt := Some saltBytes;
                            initialized := true |} w)
        | Throw _ =>
            (Throw WrongPassword,
             with_fields {| masterKey := None; salt := Some saltBytes;
                            initialized := false |} w)
        end
    | _ =>
        (Return tt,
         with_fields {| masterKey := Some key; salt := Some saltBytes;
                        initialized := true |} w)
    end.
Proof.
  intros Hwin Hsalt Htruthy Hdec key.
  destruct stored as [|c0 r0]; [discriminate|].
  unfold initialize, localStorage_getItem, set_salt, set_masterKey, set_initialized,
    bind, get, throw, ret, try_catch, modify.
  rewrite Hwin. cbn [negb]. rewrite Hsalt, Hdec.
  cbn [set_this this localStorage masterKey salt initialized].
  fold key.
  destruct (localStorage w !! VERIFICATION_STORAGE_NAME) as [[|c r]|];
    try reflexivity.
  destruct (decryptFromStorage (c :: r) key); reflexivity.
Qed.


(** C5.  Re-initializing an existing vault (salt and verification marker
    stored) with a password whose derived key does not decrypt the marker
    throws the wrong-password error and leaves no master key in memory and
    the vault not initialized, with the stored records as they were; a
    [getKeys] that follows throws the not-initialized error. *)
Theorem wrong_password_leaves_vault_locked password w stored saltBytes marker err :
  window_defined w = true ->
  localStorage w !! SALT_STORAGE_NAME = Some stored ->
  truthy stored = true ->
  Base64.atob stored = Some saltBytes ->
  localStorage w !! VERIFICATION_STORAGE_NAME = Some marker ->
  truthy marker = true ->
  decryptFromStorage marker (deriveKeyFromPassword password saltBytes) = Throw err ->
  exists w',
    initialize password false w = (Throw WrongPassword, w') /\
    masterKey (this w') = None /\
    initialized (this w') = false /\
    isInitialized w' = false /\
    localStorage w' = localStorage w /\
    getKeys w' = (Throw NotInitialized, w').
Proof.
  intros Hwin Hsalt Hts Hdec Hmarker Htm Hwrong.
  rewrite (initialize_returning _ _ _ _ Hwin Hsalt Hts Hdec), Hmarker.
  destruct marker as [|c r]; [discriminate|]. rewrite Hwrong.
  eexists. split; [reflexivity|]. repeat split.
Qed.

(** C10.  With the salt record stored, [initialize(password)] for a returning
    user succeeds for every password when the verification marker is absent,
    leaving the vault unlocked under the key derived from that password; and
    it throws the wrong-password error exactly when a marker is stored and
    does not decrypt under the derived key. *)
Theorem missing_marker_skips_the_check password w stored saltBytes :
  window_defined w = true ->
  localStorage w !! SALT_STORAGE_NAME = Some stored ->
  truthy stored = true ->
  Base64.atob stored = Some saltBytes ->
  let key := deriveKeyFromPassword password saltBytes in
  (localStorage w !! VERIFICATION_STORAGE_NAME = None ->
   initialize password false w =
     (Return tt,
      with_fields {| masterKey := Some key; salt := Some saltBytes;
                     initialized := true |} w)) /\
  (fst (initialize password false w) = Throw WrongPassword <->
   exists marker err,
     localStorage w !! VERIFICATION_STORAGE_NAME = Some marker /\
     truthy marker = true /\
     decryptFromStorage marker key = Throw err).
Proof.
  intros Hwin Hsalt Hts Hdec key.
  rewrite (initialize_returning _ _ _ _ Hwin Hsalt Hts Hdec). fold key.
  split.
  - intros ->. reflexivity.
  - destruct (localStorage w !! VERIFICATION_STORAGE_NAME) as [[|c r]|] eqn:Hm.
    + split; [discriminate|]. intros (marker & err & [= <-] & Habs & _). discriminate.
    + destruct (decryptFromStorage (c :: r) key) as [s|err] eqn:Hd.
      * split; [discriminate|].
        intros (marker & err & [= <-] & _ & Hthrow). congruence.
      * split; [|reflexivity]. intros _. now exists (c :: r), err.
    + split; [discriminate|]. intros (marker & err & Habs & _). discriminate.
Qed.

(** C9, as amended.  After [lock()] the master key is no longer in memory
    and the vault reports not initialized; the salt stays in memory as it
    was, and the stored records and the random source are untouched. *)
Theorem lock_discards_the_master_key w :
  exists w',
    lock w = (Return tt, w') /\
    masterKey (this w') = None /\
    initialized (this w') = false /\
    isInitialized w' = false /\
    salt (this w') = salt (this w) /\
    localStorage w' = localStorage w /\
    entropy w' = entropy w /\
    getKeys w' = (Throw NotInitialized, w').
Proof. eexists. split; [reflexivity|]. repeat split. Qed.

End WithPlatform.

Import Fake.

Lemma wrong_password_leaves_vault_locked_witness :
  exists w',
    initialize (Fake.text "battery staple") false (snd (lock Fake.registered))
      = (Throw WrongPassword, w') /\
    masterKey (this w') = None /\
    initialized (this w') = false /\
    isInitialized w' = false /\
    localStorage w' = localStorage (snd (lock Fake.registered)) /\
    getKeys w' = (Throw NotInitialized, w').
Proof.
  eapply (wrong_password_leaves_vault_locked (Fake.text "battery staple")
            (snd (lock Fake.registered))).
  - reflexivity.
  - vm_compute. reflexivity.
  - reflexivity.
  - vm_compute. reflexivity.
  - vm_compute. reflexivity.
  - reflexivity.
  - vm_compute. reflexivity.
Defined.

Lemma missing_marker_skips_the_check_witness :
  initialize (Fake.text "anything") false Fake.marker_removed =
    (Return tt,
     with_fields
       {| masterKey :=
            Some (deriveKeyFromPassword (Fake.text "anything") (random_block 0 32));
          salt := Some (random_block 0 32); initialized := true |} Fake.marker_removed).
Proof.
  refine (proj1 (missing_marker_skips_the_check (Fake.text "anything") Fake.marker_removed
                   (Base64.btoa (random_block 0 32)) (random_block 0 32)
                   _ _ _ _) _).
  - reflexivity.
  - vm_compute. reflexivity.
  - reflexivity.
  - vm_compute. reflexivity.
  - vm_compute. reflexivity.
Defined.

(** C9, refuted as stated: after [lock()] the salt is still in memory. *)
Lemma lock_keeps_the_salt :
  salt (this Fake.registered) <> None /\
  salt (this (snd (lock Fake.registered))) = salt (this Fake.registered).
Proof. split; [vm_compute; discriminate|reflexivity]. Qed.

End VaultFacts.

(** ** Socket client: the offline queue, and the wait before a send *)

Module SocketFacts.
Import SecureSocketClient.

Section WithPlatform.
Context `{Platform}.

Lemma sendMessage_offline c key recipient content chat now :
  online c = false ->
  E2E.sharedKeys (keyManager c) !! recipient = Some key ->
  sendMessage recipient content chat now c =
    (Return (random_uuid (uuids_drawn (entropy c))),
     after_queueing c (queued_entry c key recipient content chat now)).
Proof.
  intros Hoff Hk. destruct c as [s km u q conn em ent].
  cbn [keyManager] in Hk.
  unfold sendMessage, randomUUID, bind, try_catch, get, ret, modify.
  cbn [entropy_of with_entropy Client_HasEntropy keyManager entropy].
  rewrite (E2EFacts.encryptFor_established _ _ _ _ _ Hk).
  cbn [entropy_of with_entropy Client_HasEntropy keyManager entropy
       octets_drawn uuids_drawn E2E.ciphertext E2E.iv].
  unfold online in *. cbn [isConnected socket] in *. rewrite Hoff.
  reflexivity.
Qed.

Lemma sendMessage_no_channel c recipient content chat now :
  E2E.sharedKeys (keyManager c) !! recipient = None ->
  sendMessage recipient content chat now c =
    (Throw (Error "No secure channel established with recipient"),
     with_entropy {| octets_drawn := octets_drawn (entropy c);
                     uuids_drawn := S (uuids_drawn (entropy c)) |} c).
Proof.
  intros Hk.
  unfold sendMessage, randomUUID, bind, try_catch, get, ret, modify, E2E.encryptFor.
  cbn [entropy_of with_entropy Client_HasEntropy keyManager entropy].
  rewrite Hk. reflexivity.
Qed.

Lemma flush_loop_online q : forall c,
  online c = true -> messageQueue c = q ->
  flush_loop (length q) c =
    set_emitted (emitted c ++ map transmission q) (set_messageQueue [] c).
Proof.
  induction q as [|m q IH]; intros c Hon Hq.
  - cbn. rewrite app_nil_r. destruct c; cbn in *; now subst.
  - cbn [length flush_loop]. rewrite Hq, Hon.
    rewrite IH; [|exact Hon|reflexivity].
    unfold set_emitted, set_messageQueue, socket_emit. cbn.
    now rewrite <- app_assoc.
Qed.

Lemma connect_then_flush token c :
  snd (on_connect (snd (connect token c))) =
    {| socket := Some token; keyManager := keyManager c; userId := userId c;
       messageQueue := []; isConnected := true;
       emitted := emitted c ++ map transmission (messageQueue c);
       entropy := entropy c |}.
Proof.
  unfold on_connect, connect, flushMessageQueue, bind, modify. cbn [snd].
  rewrite (flush_loop_online (messageQueue c)); reflexivity.
Qed.

Lemma send_each_cons recipient content chat now calls c :
  send_each ((recipient, content, chat, now) :: calls) c =
    (let r := sendMessage recipient content chat now c in
     let rs := send_each calls r.2 in
     (r.1 :: rs.1, rs.2)).
Proof.
  cbn [send_each]. destruct (sendMessage recipient content chat now c) as [r c1].
  cbn [fst snd]. now destruct (send_each calls c1) as [rs c2].
Qed.

Lemma send_each_offline calls : forall c,
  online c = false ->
  exists entries,
    messageQueue (send_each calls c).2 = messageQueue c ++ entries /\
    emitted (send_each calls c).2 = emitted c /\
    socket (send_each calls c).2 = socket c /\
    isConnected (send_each calls c).2 = isConnected c /\
    keyManager (send_each calls c).2 = keyManager c /\
    Forall2 (ends_as (keyManager c)) calls (send_each calls c).1 /\
    Forall2 (entry_of (keyManager c))
      (List.filter (fun call => E2E.hasChannel (keyManager c) call.1.1.1) calls) entries /\
    map messageId entries = omap returned (send_each calls c).1.
Proof.
  induction calls as [|[[[recipient content] chat] now] calls IH]; intros c Hoff.
  - exists []. cbn. rewrite app_nil_r. repeat split; constructor.
  - rewrite send_each_cons. cbv zeta. cbn [List.filter fst snd].
    unfold ends_as at 1. cbn [fst snd]. unfold E2E.hasChannel at 1 2.
    destruct (E2E.sharedKeys (keyManager c) !! recipient) as [key|] eqn:Hk.
    + rewrite (sendMessage_offline c key) by assumption. cbn [fst snd].
      set (m := queued_entry c key recipient content chat now).
      destruct (IH (after_queueing c m)) as
        (entries & Hq & Hem & Hs & Hconn & Hkm & Hends & Hentries & Hids);
        [exact Hoff|].
      cbn [after_queueing messageQueue emitted socket isConnected keyManager] in *.
      rewrite bool_decide_true by (now exists key).
      exists (m :: entries). rewrite Hq, <- app_assoc.
      repeat split; try assumption.
      * constructor; [|exact Hends]. unfold ends_as. cbn [fst snd].
        unfold E2E.hasChannel. rewrite Hk.
        rewrite bool_decide_true by (now exists key). now eexists.
      * constructor; [|exact Hentries]. repeat split.
        exists key, (random_block (octets_drawn (entropy c)) 12).
        split; [exact Hk|]. split; [|split; reflexivity].
        unfold random_block. now rewrite length_map, length_seq.
      * cbn [map omap returned option_bind mbind]. cbn. now rewrite Hids.
    + rewrite sendMessage_no_channel by assumption. cbn [fst snd].
      destruct (IH (with_entropy {| octets_drawn := octets_drawn (entropy c);
                                    uuids_drawn := S (uuids_drawn (entropy c)) |} c))
        as (entries & Hq & Hem & Hs & Hconn & Hkm & Hends & Hentries & Hids);
        [destruct c; exact Hoff|].
      assert (keyManager (with_entropy {| octets_drawn := octets_drawn (entropy c);
                                          uuids_drawn := S (uuids_drawn (entropy c)) |} c)
              = keyManager c) as Hsame by now destruct c.
      rewrite Hsame in *.
      rewrite bool_decide_false by (now intros [? [=]]).
      exists entries.
      destruct c as [s km u q conn em ent].
      cbn [with_entropy Client_HasEntropy messageQueue emitted socket isConnected
           keyManager entropy] in *.
      repeat split; try assumption.
      constructor; [|exact Hends]. unfold ends_as. cbn [fst snd].
      unfold E2E.hasChannel. rewrite Hk.
      now rewrite bool_decide_false by (now intros [? [=]]).
Qed.

(** C6.  For every series of [sendMessage] calls made while the client is
    not connected: a call to a recipient with an established channel returns
    an id, appends one entry to the queue and transmits nothing; a call to a
    recipient without one throws and appends nothing.  So the queue grows by
    one entry per call with a channel, in the order of the calls, each entry
    with the call's recipient, chat and time, the id the call returned, and
    the Base64 of a 12-octet IV and of the call's content encrypted under the
    channel key with that IV.  The connect that follows transmits every
    queued message once, in that order, and empties the queue, so that a
    later connect event re-sends nothing. *)
Theorem offline_queue_is_flushed_in_order c calls token :
  online c = false ->
  let sent := send_each calls c in
  exists entries,
    Forall2 (ends_as (keyManager c)) calls sent.1 /\
    Forall2 (entry_of (keyManager c))
      (List.filter (fun call => hasChannel call.1.1.1 c) calls) entries /\
    map messageId entries = omap returned sent.1 /\
    messageQueue sent.2 = messageQueue c ++ entries /\
    emitted sent.2 = emitted c /\
    let c2 := snd (on_connect (snd (connect token sent.2))) in
    emitted c2 = emitted c ++ map transmission (messageQueue c ++ entries) /\
    messageQueue c2 = [] /\
    isConnected c2 = true /\
    emitted (snd (on_connect c2)) = emitted c2.
Proof.
  intros Hoff. cbv zeta.
  destruct (send_each_offline calls c Hoff)
    as (entries & Hq & Hem & Hs & Hconn & Hkm & Hends & Hentries & Hids).
  exists entries. split; [exact Hends|]. split; [exact Hentries|].
  split; [exact Hids|]. split; [exact Hq|]. split; [exact Hem|].
  rewrite connect_then_flush. cbn [emitted messageQueue isConnected].
  rewrite Hem, Hq. repeat split.
Qed.


(** When no channel exists once the timer has fired, the send goes ahead all
    the same and fails; the message is neither transmitted nor queued. *)
Lemma send_after_wait_without_channel c recipient content chat now during :
  hasChannel recipient c = false ->
  let waited := snd (ChatContext.wait_1000ms during (snd (requestPublicKey recipient c))) in
  hasChannel recipient waited = false ->
  exists c',
    ChatContext.request_wait_send recipient content chat now during c =
      (Throw (Error "No secure channel established with recipient"), c') /\
    messageQueue c' = messageQueue waited /\
    emitted c' = emitted waited.
Proof.
  intros Hno waited Hstill.
  unfold ChatContext.request_wait_send, bind at 1, get at 1. cbv beta iota.
  rewrite Hno. cbn [negb].
  unfold bind at 1. unfold bind at 1.
  unfold requestPublicKey, emit, modify at 1.
  unfold ChatContext.wait_1000ms at 1, modify at 1.
  fold (snd (requestPublicKey recipient c)).
  change (fold_left _ during _) with waited.
  unfold hasChannel, E2E.hasChannel in Hstill.
  apply bool_decide_eq_false_1 in Hstill.
  rewrite sendMessage_no_channel.
  - eexists. split; [reflexivity|]. split; reflexivity.
  - destruct (E2E.sharedKeys (keyManager waited) !! recipient) eqn:E; [|reflexivity].
    exfalso. apply Hstill. now exists c0.
Qed.

End WithPlatform.

Import Fake.

Lemma offline_queue_is_flushed_in_order_witness :
  let calls := [("bob", Fake.text "one", "chat-1", 1000);
                ("carol", Fake.text "two", "chat-2", 1001);
                ("bob", Fake.text "three", "chat-1", 1002)] in
  let sent := send_each calls Fake.alice_offline in
  exists entries,
    Forall2 (ends_as (keyManager Fake.alice_offline)) calls sent.1 /\
    Forall2 (entry_of (keyManager Fake.alice_offline))
      (List.filter (fun call => hasChannel call.1.1.1 Fake.alice_offline) calls) entries /\
    map messageId entries = omap returned sent.1 /\
    messageQueue sent.2 = messageQueue Fake.alice_offline ++ entries /\
    emitted sent.2 = emitted Fake.alice_offline /\
    let c2 := snd (on_connect (snd (connect "token" sent.2))) in
    emitted c2 =
      emitted Fake.alice_offline ++
      map transmission (messageQueue Fake.alice_offline ++ entries) /\
    messageQueue c2 = [] /\
    isConnected c2 = true /\
    emitted (snd (on_connect c2)) = emitted c2.
Proof.
  cbv zeta.
  apply (offline_queue_is_flushed_in_order Fake.alice_offline
           [("bob", Fake.text "one", "chat-1", 1000);
            ("carol", Fake.text "two", "chat-2", 1001);
            ("bob", Fake.text "three", "chat-1", 1002)] "token").
  reflexivity.
Defined.

(** C6 as it was worded, every call appending one entry, fails for a call
    to a recipient without a channel: Alice, not connected, has a channel to
    Bob only; her message to Carol is refused, the queue stays empty and the
    connect that follows transmits nothing. *)
Lemma a_call_without_a_channel_is_not_queued :
  let sent := sendMessage "carol" (Fake.text "hi") "chat-1" 1000 Fake.alice_offline in
  isConnected Fake.alice_offline = false /\
  messageQueue Fake.alice_offline = [] /\
  sent.1 = Throw (Error "No secure channel established with recipient") /\
  messageQueue sent.2 = [] /\
  emitted (snd (on_connect (snd (connect "token" sent.2)))) = [].
Proof.
  cbv zeta. repeat split; vm_compute; reflexivity.
Qed.

(** C7, where the code departs from it.  Alice is connected and has no
    channel to Carol.  With no key response during the one-second timer the
    send goes ahead when the timer fires, without a channel, and throws: the
    message is neither transmitted nor queued.  With the key response early
    in that second, followed by a disconnect, the send still waits for the
    timer, and the message is queued instead of transmitted. *)
Theorem send_waits_for_the_timer_not_for_the_channel :
  let silent :=
    ChatContext.sendMessage "carol" (Fake.text "hi") "chat-1" 1000 []
      Fake.alice_context in
  let early :=
    ChatContext.sendMessage "carol" (Fake.text "hi") "chat-1" 1000
      [ChatContext.PublicKeyResponse "carol" Fake.carol_public_key;
       ChatContext.SocketDisconnect]
      Fake.alice_context in
  let client r := ChatContext.socketClient (snd r) in
  hasChannel "carol" Fake.alice_online = false /\
  (fst silent = Throw (Error "No secure channel established with recipient") /\
   ChatContext.error (snd silent)
     = Some (Error "No secure channel established with recipient") /\
   hasChannel "carol" <$> client silent = Some false /\
   messageQueue <$> client silent = Some [] /\
   emitted <$> client silent = Some [("request_public_key", UserIdData "carol")]) /\
  (fst early = Return tt /\
   hasChannel "carol" <$> client early = Some true /\
   map messageId <$> (messageQueue <$> client early) = Some [random_uuid 0] /\
   emitted <$> client early = Some [("request_public_key", UserIdData "carol")]).
Proof.
  cbv zeta. repeat split; vm_compute; reflexivity.
Qed.

End SocketFacts.

(** ** Relay: message status, edit and delete *)

Module DatabaseFacts.
Import Database.

#[local] Set Warnings "-clear-no-such-hyp".

Lemma updateMessageStatus_recipient db messageId s userId now m :
  db !! messageId = Some m ->
  recipientId m = Some userId ->
  updateMessageStatus messageId s userId now db =
    (1%nat, <[messageId := apply_status s now m]> db).
Proof.
  intros Hm Hr. unfold updateMessageStatus. rewrite Hm.
  now rewrite bool_decide_eq_true_2.
Qed.

Lemma status_of_update db messageId s userId now m :
  db !! messageId = Some m ->
  recipientId m = Some userId ->
  status_of messageId (snd (updateMessageStatus messageId s userId now db)) = Some s.
Proof.
  intros Hm Hr. rewrite (updateMessageStatus_recipient _ _ _ _ _ _ Hm Hr).
  unfold status_of. cbn [snd]. now rewrite lookup_insert_eq.
Qed.

Lemma update_keeps_recipient db messageId s userId now m :
  db !! messageId = Some m ->
  recipientId m = Some userId ->
  exists m', snd (updateMessageStatus messageId s userId now db) !! messageId = Some m' /\
             recipientId m' = Some userId.
Proof.
  intros Hm Hr. rewrite (updateMessageStatus_recipient _ _ _ _ _ _ Hm Hr).
  cbn [snd]. rewrite lookup_insert_eq. now eexists.
Qed.

(** The status after a series of updates by the recipient is the one applied
    last. *)
Lemma apply_statuses_last updates : forall db messageId userId m s now,
  db !! messageId = Some m ->
  recipientId m = Some userId ->
  status_of messageId (apply_statuses messageId userId (updates ++ [(s, now)]) db) = Some s.
Proof.
  induction updates as [|[s0 now0] updates IH]; intros db messageId userId m s now Hm Hr.
  - cbn. now apply (status_of_update db messageId s userId now m).
  - cbn [app apply_statuses fold_left fst snd].
    destruct (update_keeps_recipient db messageId s0 userId now0 m Hm Hr) as (m' & Hm' & Hr').
    exact (IH _ _ _ _ _ _ Hm' Hr').
Qed.

(** C1, as amended.  [updateMessageStatus] by the recipient of a message
    sets its status to the one given, whatever it was before: 'read' applied
    after 'delivered' leaves 'read', re-applying a status leaves it, and after
    any series of updates the status is the last one applied.  A caller who
    is not the recipient changes nothing, and no other message is touched. *)
Theorem status_is_the_last_one_applied db messageId userId m :
  db !! messageId = Some m ->
  (recipientId m = Some userId ->
     (forall now1 now2,
        status_of messageId
          (apply_statuses messageId userId [("delivered", now1); ("read", now2)] db)
        = Some "read") /\
     (forall s now1 now2,
        status_of messageId
          (apply_statuses messageId userId [(s, now1); (s, now2)] db) = Some s) /\
     (forall updates s now,
        status_of messageId
          (apply_statuses messageId userId (updates ++ [(s, now)]) db) = Some s)) /\
  (recipientId m <> Some userId ->
     forall s now, updateMessageStatus messageId s userId now db = (0%nat, db)) /\
  (forall s now other, other <> messageId ->
     snd (updateMessageStatus messageId s userId now db) !! other = db !! other).
Proof.
  intros Hm. split; [|split].
  - intros Hr. split; [|split].
    + intros now1 now2.
      exact (apply_statuses_last [("delivered", now1)] db messageId userId m "read" now2 Hm Hr).
    + intros s now1 now2.
      exact (apply_statuses_last [(s, now1)] db messageId userId m s now2 Hm Hr).
    + intros updates s now. now apply (apply_statuses_last updates db messageId userId m).
  - intros Hr s now. unfold updateMessageStatus. rewrite Hm.
    now rewrite bool_decide_eq_false_2.
  - intros s now other Hne. unfold updateMessageStatus. rewrite Hm.
    destruct (bool_decide (recipientId m = Some userId)); cbn [snd]; [|reflexivity].
    now rewrite lookup_insert_ne.
Qed.

(** C8.  [editMessage] succeeds exactly when the message exists, the caller
    is its sender and it is not deleted; [deleteMessage] exactly when the
    message exists and the caller is its sender.  A failed call leaves the
    table as it was; for a missing message or another caller the error is the
    authorization error, and an edit of a deleted message is rejected too.  A
    successful call rewrites that one record and keeps its sender. *)
Theorem edit_and_delete_are_sender_only db messageId caller newCiphertext newIv now :
  ((exists updated db', editMessage messageId caller newCiphertext newIv now db
                          = (Return updated, db')) <->
   (exists m, db !! messageId = Some m /\ senderId m = caller /\ isDeleted m = false)) /\
  (forall e db', editMessage messageId caller newCiphertext newIv now db = (Throw e, db') ->
     db' = db /\
     ((e = Unauthorized /\
       (db !! messageId = None \/ exists m, db !! messageId = Some m /\ senderId m <> caller)) \/
      (e = CannotEditDeleted /\
       exists m, db !! messageId = Some m /\ senderId m = caller /\ isDeleted m = true))) /\
  (forall updated db', editMessage messageId caller newCiphertext newIv now db
                         = (Return updated, db') ->
     db' = <[messageId := updated]> db /\ senderId updated = caller /\
     ciphertext updated = newCiphertext /\ iv updated = newIv /\ isEdited updated = true) /\
  ((exists updated db', deleteMessage messageId caller now db = (Return updated, db')) <->
   (exists m, db !! messageId = Some m /\ senderId m = caller)) /\
  (forall e db', deleteMessage messageId caller now db = (Throw e, db') ->
     db' = db /\ e = Unauthorized /\
     (db !! messageId = None \/ exists m, db !! messageId = Some m /\ senderId m <> caller)) /\
  (forall updated db', deleteMessage messageId caller now db = (Return updated, db') ->
     db' = <[messageId := updated]> db /\ senderId updated = caller /\
     ciphertext updated = [] /\ iv updated = [] /\ isDeleted updated = true).
Proof.
  unfold editMessage, deleteMessage, bind, get, throw, ret, modify.
  destruct (db !! messageId) as [m|] eqn:Hm; [|naive_solver congruence].
  destruct (bool_decide (senderId m = caller)) eqn:Hs; cbn [negb].
  - apply bool_decide_eq_true_1 in Hs.
    destruct (isDeleted m) eqn:Hd; naive_solver congruence.
  - apply bool_decide_eq_false_1 in Hs. naive_solver congruence.
Qed.

(** C1, refuted as stated: after 'delivered' and then 'read', a second
    'delivered' moves the status back from 'read' to 'delivered'. *)
Lemma status_moves_backward :
  status_of "m1"
    (apply_statuses "m1" "bob" [("delivered", 10); ("read", 20)] Fake.relay_table)
    = Some "read" /\
  status_of "m1"
    (apply_statuses "m1" "bob" [("delivered", 10); ("read", 20); ("delivered", 30)]
       Fake.relay_table)
    = Some "delivered" /\
  (status_rank "delivered" < status_rank "read")%nat.
Proof. repeat split; vm_compute; reflexivity. Qed.

Lemma status_is_the_last_one_applied_witness :
  (Database.recipientId Fake.stored_message = Some "bob" ->
     (forall now1 now2,
        status_of "m1"
          (apply_statuses "m1" "bob" [("delivered", now1); ("read", now2)] Fake.relay_table)
        = Some "read") /\
     (forall s now1 now2,
        status_of "m1"
          (apply_statuses "m1" "bob" [(s, now1); (s, now2)] Fake.relay_table) = Some s) /\
     (forall updates s now,
        status_of "m1"
          (apply_statuses "m1" "bob" (updates ++ [(s, now)]) Fake.relay_table) = Some s)) /\
  (Database.recipientId Fake.stored_message <> Some "bob" ->
     forall s now, updateMessageStatus "m1" s "bob" now Fake.relay_table
                   = (0%nat, Fake.relay_table)) /\
  (forall s now other, other <> "m1" ->
     snd (updateMessageStatus "m1" s "bob" now Fake.relay_table) !! other
       = Fake.relay_table !! other).
Proof.
  apply (status_is_the_last_one_applied Fake.relay_table "m1" "bob" Fake.stored_message).
  reflexivity.
Defined.

End DatabaseFacts.

(** * Further properties of the code *)

(** ** Key manager *)

Module E2EMore.
Import Contract E2E.

Section WithPlatform.
Context `{Platform}.

(** X1.  [base64ToArrayBuffer] undoes [arrayBufferToBase64] on every buffer;
    the encoding is injective and takes four characters per three octets,
    rounded up. *)
Theorem base64_helpers_round_trip (buffer : bytes) :
  base64ToArrayBuffer (arrayBufferToBase64 buffer) = Return buffer /\
  (forall other, arrayBufferToBase64 buffer = arrayBufferToBase64 other -> buffer = other) /\
  length (arrayBufferToBase64 buffer) = (4 * ((length buffer + 2) / 3))%nat.
Proof.
  split; [apply E2EFacts.base64_decodes|]. split.
  - intros other. apply Base64Facts.btoa_inj.
  - unfold arrayBufferToBase64, Base64.btoa, Base64.padding.
    rewrite length_app, length_map, repeat_length.
    apply Base64Facts.sextets_length.
Qed.

(** X2.  A ciphertext or an IV that is not Base64 makes [decryptFrom] throw
    [atob]'s InvalidCharacterError, not the decryption failure: the two
    decodings stand before the [try]. *)
Theorem malformed_base64_is_not_reported_as_tampering km sender key c v :
  sharedKeys km !! sender = Some key ->
  Base64.atob c = None \/ Base64.atob v = None ->
  decryptFrom km sender c v = Throw InvalidCharacterError /\
  decryptFrom km sender c v <> Throw DecryptionFailure.
Proof.
  intros Hk Hbad.
  assert (E : decryptFrom km sender c v = Throw InvalidCharacterError).
  { unfold decryptFrom, decryptMessage, base64ToArrayBuffer. rewrite Hk.
    destruct (Base64.atob c); [|reflexivity].
    destruct Hbad as [Hbad|Hbad]; [discriminate|]. now rewrite Hbad. }
  split; [exact E|]. rewrite E. discriminate.
Qed.

(** X3.  A successful [establishChannel] stores, for that peer, the key
    derived from the own private key and the imported public key, replacing
    any earlier key of the peer; the key pair and the channels of all other
    peers stay as they were. *)
Theorem establishChannel_installs_the_key km peer publicKeyBase64 km' :
  establishChannel peer publicKeyBase64 km = Return km' ->
  exists priv pub theirs,
    keyPair km = Some (priv, pub) /\
    importPublicKey publicKeyBase64 = Return theirs /\
    sharedKeys km' !! peer = Some (deriveSharedKey priv theirs) /\
    hasChannel km' peer = true /\
    keyPair km' = keyPair km /\
    (forall other, other <> peer -> sharedKeys km' !! other = sharedKeys km !! other).
Proof.
  unfold establishChannel.
  destruct (keyPair km) as [[priv pub]|] eqn:Hkp; [|discriminate].
  destruct (importPublicKey publicKeyBase64) as [theirs|] eqn:Himp; [|discriminate].
  intros [= <-]. exists priv, pub, theirs. cbn [sharedKeys keyPair].
  repeat split; try assumption.
  - apply lookup_insert_eq.
  - unfold hasChannel. cbn [sharedKeys]. rewrite lookup_insert_eq.
    apply bool_decide_eq_true_2. now eexists.
  - intros other Hne. now apply lookup_insert_ne.
Qed.

(** [establishChannel] fails without a key pair, and on a public key that
    does not import. *)
Lemma establishChannel_failures km peer publicKeyBase64 :
  (keyPair km = None ->
   establishChannel peer publicKeyBase64 km = Throw (Error "Key pair not initialized")) /\
  (forall e, keyPair km <> None -> importPublicKey publicKeyBase64 = Throw e ->
   establishChannel peer publicKeyBase64 km = Throw e).
Proof.
  unfold establishChannel. split.
  - now intros ->.
  - intros e Hkp Himp. destruct (keyPair km) as [[priv pub]|]; [|congruence].
    now rewrite Himp.
Qed.

(** X4.  After [removeChannel(peer)] there is no channel to the peer:
    [encryptFor] throws without drawing from the random source and
    [decryptFrom] throws; the channels of other peers are untouched. *)
Theorem removed_channel_refuses_messages km peer message (e : Entropy) c v :
  let km' := removeChannel peer km in
  hasChannel km' peer = false /\
  encryptFor km' peer message e =
    (Throw (Error "No secure channel established with recipient"), e) /\
  decryptFrom km' peer c v = Throw (Error "No secure channel established with sender") /\
  (forall other, other <> peer -> sharedKeys km' !! other = sharedKeys km !! other).
Proof.
  cbv zeta. unfold removeChannel, hasChannel, encryptFor, decryptFrom.
  cbn [sharedKeys]. rewrite lookup_delete_eq. repeat split.
  intros other Hne. now apply lookup_delete_ne.
Qed.

(** X5.  Two key managers that establish channels to each other from each
    other's public keys, with ECDH giving both the same secret, understand
    each other: what one encrypts for the other, the other decrypts to the
    plaintext (for well-formed plaintexts without a leading U+FEFF, and
    AES-GCM decrypting what it encrypted). *)
Theorem channel_between_two_key_managers
    kmA kmB alice bob privA pubA privB pubB pkA pkB theirA theirB :
  aead_correct ->
  keyPair kmA = Some (privA, pubA) ->
  keyPair kmB = Some (privB, pubB) ->
  importPublicKey pkA = Return theirA ->
  importPublicKey pkB = Return theirB ->
  deriveSharedKey privA theirB = deriveSharedKey privB theirA ->
  exists kmA' kmB',
    establishChannel bob pkB kmA = Return kmA' /\
    establishChannel alice pkA kmB = Return kmB' /\
    forall message (e : Entropy),
      Text.well_formed message = true ->
      Text.starts_with_bom message = false ->
      exists enc e',
        encryptFor kmA' bob message e = (Return enc, e') /\
        decryptFrom kmB' alice (ciphertext enc) (iv enc) = Return message.
Proof.
  intros Hc HkA HkB HiA HiB Hagree.
  unfold establishChannel. rewrite HkA, HkB, HiA, HiB.
  eexists _, _. split; [reflexivity|]. split; [reflexivity|].
  intros message e Hw Hb.
  eexists _, _. split.
  - apply E2EFacts.encryptFor_established. cbn [sharedKeys]. apply lookup_insert_eq.
  - cbn [ciphertext iv]. unfold decryptFrom, decryptMessage. cbn [sharedKeys].
    rewrite lookup_insert_eq, <- Hagree.
    fold (arrayBufferToBase64 (random_block (octets_drawn (entropy_of e)) 12)).
    match goal with |- context [Base64.btoa (subtle_encrypt ?k ?i ?d)] =>
      fold (arrayBufferToBase64 (subtle_encrypt k i d)) end.
    rewrite !E2EFacts.base64_decodes, Hc.
    now rewrite TextFacts.text_round_trip.
Qed.

End WithPlatform.

Import Fake.

Lemma malformed_base64_is_not_reported_as_tampering_witness :
  decryptFrom Fake.alice "bob" (list_ascii_of_string "a") (list_ascii_of_string "AAAA")
    = Throw InvalidCharacterError /\
  decryptFrom Fake.alice "bob" (list_ascii_of_string "a") (list_ascii_of_string "AAAA")
    <> Throw DecryptionFailure.
Proof.
  apply (malformed_base64_is_not_reported_as_tampering Fake.alice "bob" Fake.alice_bob_key).
  - reflexivity.
  - left. reflexivity.
Defined.

Lemma establishChannel_installs_the_key_witness :
  exists priv pub theirs,
    keyPair Fake.alice = Some (priv, pub) /\
    importPublicKey Fake.carol_public_key = Return theirs /\
    sharedKeys (Parties.alice_with_carol) !! "carol" = Some (deriveSharedKey priv theirs) /\
    hasChannel Parties.alice_with_carol "carol" = true /\
    keyPair Parties.alice_with_carol = keyPair Fake.alice /\
    (forall other, other <> "carol" ->
       sharedKeys Parties.alice_with_carol !! other = sharedKeys Fake.alice !! other).
Proof.
  apply (establishChannel_installs_the_key Fake.alice "carol" Fake.carol_public_key).
  reflexivity.
Defined.

Lemma channel_between_two_key_managers_witness :
  exists kmA' kmB',
    establishChannel "bob" Parties.bob_public_key Parties.alice_alone = Return kmA' /\
    establishChannel "alice" Parties.alice_public_key Parties.bob_alone = Return kmB' /\
    forall message (e : Entropy),
      Text.well_formed message = true ->
      Text.starts_with_bom message = false ->
      exists enc e',
        encryptFor kmA' "bob" message e = (Return enc, e') /\
        decryptFrom kmB' "alice" (ciphertext enc) (iv enc) = Return message.
Proof.
  apply (channel_between_two_key_managers Parties.alice_alone Parties.bob_alone
           "alice" "bob"
           (list_ascii_of_string "ab") (list_ascii_of_string "bc")
           (list_ascii_of_string "a") (list_ascii_of_string "c")
           Parties.alice_public_key Parties.bob_public_key
           (list_ascii_of_string "bc") (list_ascii_of_string "c")).
  - exact FakeFacts.fake_correct.
  - reflexivity.
  - reflexivity.
  - reflexivity.
  - reflexivity.
  - reflexivity.
Defined.

End E2EMore.

(** ** Vault *)

Module VaultMore.
Import Contract SecureStorage SecureStorageItems.

Section WithPlatform.
Context `{Platform}.

Lemma storage_names_differ :
  SALT_STORAGE_NAME <> VERIFICATION_STORAGE_NAME /\
  SALT_STORAGE_NAME <> KEYS_STORAGE_NAME /\
  VERIFICATION_STORAGE_NAME <> KEYS_STORAGE_NAME.
Proof. repeat split; discriminate. Qed.

Lemma btoa_truthy (b : bytes) : b <> [] -> truthy (Base64.btoa b) = true.
Proof.
  destruct b as [|x [|y [|z r]]]; [congruence| | |]; reflexivity.
Qed.

(** What [decryptFromStorage] makes of what [encryptForStorage] wrote. *)
Lemma decrypt_stored key iv (data : jsstring) :
  aead_correct -> json_reads_back_encrypted_data ->
  decryptFromStorage
    (JSON_stringify_EncryptedData
       {| ed_iv := Base64.btoa iv;
          ed_ciphertext := Base64.btoa (subtle_encrypt key iv (Text.TextEncoder_encode data)) |})
    key
  = Return (Text.TextDecoder_decode (Text.TextEncoder_encode data)).
Proof.
  intros Hc Hj. unfold decryptFromStorage.
  rewrite (proj1 (Hj iv (subtle_encrypt key iv (Text.TextEncoder_encode data)))).
  cbn [ed_iv ed_ciphertext]. rewrite !Base64Facts.atob_btoa. now rewrite Hc.
Qed.

Lemma initialize_new password w :
  window_defined w = true ->
  initialize password true w = (Return tt, after_registration password w).
Proof.
  intros Hwin. destruct w as [f ls e win]. cbn [window_defined] in Hwin. subst win.
  reflexivity.
Qed.


(** X6.  A vault registered under a password reopens under it: in a browser,
    [initialize(password, true)] succeeds and stores the salt and the marker;
    after [lock()], [initialize(password)] succeeds again and restores the
    same master key (AES-GCM and JSON reading back what they wrote). *)
Theorem registered_vault_reopens_with_its_password password w :
  aead_correct -> json_reads_back_encrypted_data ->
  window_defined w = true ->
  exists w1 w2 w3,
    initialize password true w = (Return tt, w1) /\
    isInitialized w1 = true /\ hasStoredData w1 = true /\
    lock w1 = (Return tt, w2) /\
    initialize password false w2 = (Return tt, w3) /\
    this w3 = this w1 /\ masterKey (this w3) <> None /\
    localStorage w3 = localStorage w1.
Proof.
  intros Hc Hj Hwin.
  destruct storage_names_differ as (Hsv & _ & _).
  set (s := random_block (octets_drawn (entropy w)) 32).
  set (w1 := after_registration password w).
  set (w2 := with_fields {| masterKey := None; salt := Some s; initialized := false |} w1).
  assert (Hsalt : localStorage w2 !! SALT_STORAGE_NAME = Some (Base64.btoa s)).
  { cbn [w2 with_fields localStorage w1 after_registration].
    rewrite lookup_insert_ne by congruence. apply lookup_insert_eq. }
  assert (Hts : truthy (Base64.btoa s) = true).
  { apply btoa_truthy. discriminate. }
  pose proof (VaultFacts.initialize_returning password w2 _ s Hwin Hsalt Hts
                (Base64Facts.atob_btoa s)) as Hre.
  cbv zeta in Hre.
  assert (Hmarker : exists marker, localStorage w2 !! VERIFICATION_STORAGE_NAME = Some marker /\
            (truthy marker = true ->
             exists plain, decryptFromStorage marker (deriveKeyFromPassword password s)
                           = Return plain)).
  { eexists. split.
    - cbn [w2 with_fields localStorage w1 after_registration]. apply lookup_insert_eq.
    - intros _. eexists. now apply decrypt_stored. }
  destruct Hmarker as (marker & Hm & Hdec).
  rewrite Hm in Hre.
  exists w1, w2,
    (with_fields {| masterKey := Some (deriveKeyFromPassword password s);
                    salt := Some s; initialized := true |} w2).
  split; [now apply initialize_new|].
  split; [reflexivity|]. split.
  { unfold hasStoredData. apply bool_decide_eq_true_2.
    cbn [w1 after_registration localStorage].
    rewrite lookup_insert_ne by congruence. rewrite lookup_insert_eq. now eexists. }
  split; [reflexivity|].
  destruct marker as [|c r].
  - split; [exact Hre|]. repeat split. discriminate.
  - destruct (Hdec eq_refl) as [plain Hplain]. rewrite Hplain in Hre.
    split; [exact Hre|]. repeat split. discriminate.
Qed.

(** X7.  [initialize] fails before it touches anything: outside a browser;
    for a returning user with no salt record, or an empty one; and when the
    salt record is not Base64.  In each case the vault, with whatever key it
    held, and the storage are as before. *)
Theorem initialize_failures_change_nothing password w :
  (window_defined w = false ->
   forall isNewUser, initialize password isNewUser w = (Throw NotInBrowser, w)) /\
  (window_defined w = true ->
   localStorage w !! SALT_STORAGE_NAME = None \/
   localStorage w !! SALT_STORAGE_NAME = Some [] ->
   initialize password false w = (Throw NoStoredCredentials, w)) /\
  (window_defined w = true ->
   forall stored, localStorage w !! SALT_STORAGE_NAME = Some stored ->
   truthy stored = true -> Base64.atob stored = None ->
   initialize password false w = (Throw E2E.InvalidCharacterError, w)).
Proof.
  unfold initialize, localStorage_getItem, bind, get, throw. repeat split.
  - intros Hwin isNewUser. now rewrite Hwin.
  - intros Hwin [Hs|Hs]; rewrite Hwin; cbn [negb]; rewrite Hs; reflexivity.
  - intros Hwin stored Hs Ht Hbad. rewrite Hwin. cbn [negb]. rewrite Hs.
    destruct stored as [|c r]; [discriminate|]. now rewrite Hbad.
Qed.

Lemma store_encrypted name data key w :
  bind (encryptForStorage data key) (localStorage_setItem name) w
    = (Return tt, after_storing name data key w).
Proof. destruct w. reflexivity. Qed.

Lemma read_stored name (data : jsstring) key w :
  aead_correct -> json_reads_back_encrypted_data ->
  exists c r,
    localStorage (after_storing name data key w) !! name = Some (c :: r) /\
    decryptFromStorage (c :: r) key
      = Return (Text.TextDecoder_decode (Text.TextEncoder_encode data)).
Proof.
  intros Hc Hj. cbn [after_storing localStorage]. rewrite lookup_insert_eq.
  set (iv := random_block (octets_drawn (entropy w)) 12).
  pose proof (proj2 (Hj iv (subtle_encrypt key iv (Text.TextEncoder_encode data)))) as Ht.
  pose proof (decrypt_stored key iv data Hc Hj) as Hd.
  cbv zeta in Ht.
  destruct (JSON_stringify_EncryptedData _) as [|c r]; [discriminate|].
  now exists c, r.
Qed.

(** X8.  On an unlocked vault, [getKeys] returns the key pair [storeKeys]
    stored; storing touches no other record and no field of the vault. *)
Theorem stored_keys_are_read_back keys key w :
  aead_correct -> json_reads_back_encrypted_data ->
  json_reads_back keys ->
  unlocked w = Some key ->
  exists w1,
    storeKeys keys w = (Return tt, w1) /\
    getKeys w1 = (Return (Some keys), w1) /\
    this w1 = this w /\
    (forall name, name <> KEYS_STORAGE_NAME ->
       localStorage w1 !! name = localStorage w !! name).
Proof.
  intros Hc Hj (Hparse & Hwf & Hbom) Hu.
  exists (after_storing KEYS_STORAGE_NAME (JSON_stringify_ExportedKeyPair keys) key w).
  split; [|split; [|split]].
  - unfold storeKeys, bind at 1, get. rewrite Hu. apply store_encrypted.
  - destruct (read_stored KEYS_STORAGE_NAME (JSON_stringify_ExportedKeyPair keys) key w Hc Hj)
      as (c & r & Hl & Hd).
    unfold getKeys, bind, get, localStorage_getItem.
    replace (unlocked (after_storing _ _ key w)) with (Some key) by (symmetry; exact Hu).
    rewrite Hl, Hd. cbn in Hparse, Hwf, Hbom.
    rewrite (TextFacts.text_round_trip _ Hwf Hbom), Hparse. reflexivity.
  - reflexivity.
  - intros name Hne. cbn [after_storing localStorage]. now rewrite lookup_insert_ne.
Qed.

(** X9.  On an unlocked vault [getItem] never throws and changes nothing:
    it returns a value exactly when the record is there, is not empty,
    decrypts under the master key and parses; a missing or corrupted record
    reads as [null]. *)
Theorem getItem_reads_corruption_as_null {T} `{JsonCodec T} name masterKey w :
  unlocked w = Some masterKey ->
  exists result : option T,
    getItem name w = (Return result, w) /\
    forall value,
      result = Some value <->
      exists c r decrypted,
        localStorage w !! (STORAGE_KEY_PREFIX +:+ name) = Some (c :: r) /\
        decryptFromStorage (c :: r) masterKey = Return decrypted /\
        JSON_parse decrypted = Return value.
Proof.
  intros Hu. unfold getItem, bind, get, localStorage_getItem, try_catch, ret, throw.
  rewrite Hu.
  destruct (localStorage w !! (STORAGE_KEY_PREFIX +:+ name)) as [[|c r]|] eqn:Hl.
  - exists None. split; [reflexivity|]. intros value. split; [discriminate|].
    intros (? & ? & ? & [=] & _).
  - destruct (decryptFromStorage (c :: r) masterKey) as [decrypted|e] eqn:Hd.
    + destruct (JSON_parse decrypted) as [value|e] eqn:Hp.
      * exists (Some value). split; [reflexivity|]. intros v. split.
        -- intros [= <-]. now exists c, r, decrypted.
        -- intros (c' & r' & d' & [= <- <-] & Hd' & Hp'). congruence.
      * exists None. split; [reflexivity|]. intros v. split; [discriminate|].
        intros (c' & r' & d' & [= <- <-] & Hd' & Hp'). congruence.
    + exists None. split; [reflexivity|]. intros v. split; [discriminate|].
      intros (c' & r' & d' & [= <- <-] & Hd' & Hp'). congruence.
  - exists None. split; [reflexivity|]. intros value. split; [discriminate|].
    intros (? & ? & ? & [=] & _).
Qed.

Lemma append_inj_r (p a b : string) : p +:+ a = p +:+ b -> a = b.
Proof. induction p as [|c p IH]; cbn; [easy|]. intros [= E]. auto. Qed.

(** X10.  On an unlocked vault, [getItem(key)] returns the value
    [setItem(key, value)] stored, and items under other keys are untouched. *)
Theorem stored_item_is_read_back {T} `{JsonCodec T} name (value : T) masterKey w :
  aead_correct -> json_reads_back_encrypted_data ->
  json_reads_back value ->
  unlocked w = Some masterKey ->
  exists w1,
    setItem name value w = (Return tt, w1) /\
    getItem name w1 = (Return (Some value), w1) /\
    (forall other, other <> name ->
       localStorage w1 !! (STORAGE_KEY_PREFIX +:+ other)
         = localStorage w !! (STORAGE_KEY_PREFIX +:+ other)).
Proof.
  intros Hc Hj (Hparse & Hwf & Hbom) Hu.
  exists (after_storing (STORAGE_KEY_PREFIX +:+ name) (JSON_stringify value) masterKey w).
  split; [|split].
  - unfold setItem, bind at 1, get. rewrite Hu. apply store_encrypted.
  - destruct (read_stored (STORAGE_KEY_PREFIX +:+ name) (JSON_stringify value) masterKey w Hc Hj)
      as (c & r & Hl & Hd).
    unfold getItem, bind, get, localStorage_getItem, try_catch.
    replace (unlocked (after_storing _ _ masterKey w)) with (Some masterKey)
      by (symmetry; exact Hu).
    rewrite Hl, Hd.
    rewrite (TextFacts.text_round_trip _ Hwf Hbom), Hparse. reflexivity.
  - intros other Hne. cbn [after_storing localStorage].
    apply lookup_insert_ne. intros E. apply append_inj_r in E. congruence.
Qed.

(** X11.  [clear()] removes every record whose key begins with the vault's
    prefix and no other, and forgets master key and salt; afterwards no data
    is reported stored and [initialize(password)] finds no credentials. *)
Theorem clear_forgets_the_vault w :
  exists w1,
    clear w = (Return tt, w1) /\
    this w1 = {| masterKey := None; salt := None; initialized := false |} /\
    (forall name, String.prefix STORAGE_KEY_PREFIX name = true ->
       localStorage w1 !! name = None) /\
    (forall name, String.prefix STORAGE_KEY_PREFIX name = false ->
       localStorage w1 !! name = localStorage w !! name) /\
    hasStoredData w1 = false /\
    (window_defined w = true ->
     forall password, initialize password false w1 = (Throw NoStoredCredentials, w1)).
Proof.
  exists {| this := {| masterKey := None; salt := None; initialized := false |};
            localStorage :=
              filter (fun kv : string * list ascii =>
                        String.prefix STORAGE_KEY_PREFIX kv.1 = false) (localStorage w);
            entropy := entropy w; window_defined := window_defined w |}.
  split; [reflexivity|]. cbn [this localStorage].
  assert (Hgone : forall name, String.prefix STORAGE_KEY_PREFIX name = true ->
            filter (fun kv : string * list ascii =>
                      String.prefix STORAGE_KEY_PREFIX kv.1 = false) (localStorage w)
              !! name = None).
  { intros name Hp. apply map_lookup_filter_None. right. intros x _. cbn. congruence. }
  split; [reflexivity|]. split; [exact Hgone|]. split; [|split].
  - intros name Hp.
    destruct (localStorage w !! name) as [x|] eqn:Hl.
    + apply map_lookup_filter_Some. split; [exact Hl|exact Hp].
    + apply map_lookup_filter_None. now left.
  - unfold hasStoredData. cbn [localStorage]. rewrite Hgone by reflexivity.
    apply bool_decide_eq_false_2. intros [x Hx]. discriminate.
  - intros Hwin password.
    unfold initialize, localStorage_getItem, bind, get, throw.
    cbv beta iota. cbn [window_defined localStorage]. rewrite Hwin. cbn [negb].
    rewrite Hgone by reflexivity. reflexivity.
Qed.

End WithPlatform.

Import Fake FakeItems.

Lemma char_of_sextet_not_dot n : n < 64 -> Base64.char_of_sextet n <> Fake.dot.
Proof. intros Hn. Base64Facts.each_sextet n; discriminate. Qed.

Lemma btoa_has_no_dot (b : list ascii) : Forall (fun c => c <> Fake.dot) (Base64.btoa b).
Proof.
  unfold Base64.btoa, Base64.padding. apply List.Forall_app. split.
  - apply List.Forall_map. eapply List.Forall_impl; [|apply Base64Facts.sextets_bounded].
    intros n. apply char_of_sextet_not_dot.
  - apply List.Forall_forall. intros c Hc. apply repeat_spec in Hc. subst. discriminate.
Qed.

Lemma split_at_separator {A} `{EqDecision A} (sep : A) (l1 l2 : list A) :
  Forall (fun c => c <> sep) l1 -> Fake.split_at sep (l1 ++ sep :: l2) = Some (l1, l2).
Proof.
  induction 1 as [|c l1 Hc _ IH]; cbn.
  - now rewrite bool_decide_eq_true_2.
  - rewrite bool_decide_eq_false_2 by exact Hc. now rewrite IH.
Qed.

Lemma fake_json_reads_back : json_reads_back_encrypted_data.
Proof.
  intros a b. cbv zeta. split.
  - change (match Fake.split_at Fake.dot (Base64.btoa a ++ Fake.dot :: Base64.btoa b) with
            | Some (x, y) => Return {| ed_iv := x; ed_ciphertext := y |}
            | None => Throw SyntaxError
            end = Return {| ed_iv := Base64.btoa a; ed_ciphertext := Base64.btoa b |}).
    now rewrite split_at_separator by apply btoa_has_no_dot.
  - change (truthy (Base64.btoa a ++ Fake.dot :: Base64.btoa b) = true).
    now destruct (Base64.btoa a).
Qed.

Lemma sample_keys_read_back : json_reads_back FakeItems.sample_keys.
Proof. repeat split. Qed.

Lemma registered_is_unlocked :
  unlocked Fake.registered = Some registered_key /\
  unlocked FakeItems.with_garbage = Some registered_key.
Proof. split; vm_compute; reflexivity. Qed.

Lemma registered_vault_reopens_with_its_password_witness :
  exists w1 w2 w3,
    initialize (Fake.text "correct horse") true Fake.empty_browser = (Return tt, w1) /\
    isInitialized w1 = true /\ hasStoredData w1 = true /\
    lock w1 = (Return tt, w2) /\
    initialize (Fake.text "correct horse") false w2 = (Return tt, w3) /\
    this w3 = this w1 /\ masterKey (this w3) <> None /\
    localStorage w3 = localStorage w1.
Proof.
  apply (registered_vault_reopens_with_its_password (Fake.text "correct horse")
           Fake.empty_browser).
  - exact FakeFacts.fake_correct.
  - exact fake_json_reads_back.
  - reflexivity.
Defined.

Lemma stored_keys_are_read_back_witness :
  exists w1,
    storeKeys FakeItems.sample_keys Fake.registered = (Return tt, w1) /\
    getKeys w1 = (Return (Some FakeItems.sample_keys), w1) /\
    this w1 = this Fake.registered /\
    (forall name, name <> KEYS_STORAGE_NAME ->
       localStorage w1 !! name = localStorage Fake.registered !! name).
Proof.
  apply (stored_keys_are_read_back FakeItems.sample_keys registered_key Fake.registered).
  - exact FakeFacts.fake_correct.
  - exact fake_json_reads_back.
  - exact sample_keys_read_back.
  - exact (proj1 registered_is_unlocked).
Defined.

Lemma getItem_reads_corruption_as_null_witness :
  exists result : option ExportedKeyPair,
    getItem "user_profile" FakeItems.with_garbage = (Return result, FakeItems.with_garbage) /\
    forall value,
      result = Some value <->
      exists c r decrypted,
        localStorage FakeItems.with_garbage !! (STORAGE_KEY_PREFIX +:+ "user_profile")
          = Some (c :: r) /\
        decryptFromStorage (c :: r) registered_key = Return decrypted /\
        JSON_parse decrypted = Return value.
Proof.
  apply (getItem_reads_corruption_as_null "user_profile" registered_key FakeItems.with_garbage).
  exact (proj2 registered_is_unlocked).
Defined.

Lemma stored_item_is_read_back_witness :
  exists w1,
    setItem "own_keys" FakeItems.sample_keys Fake.registered = (Return tt, w1) /\
    getItem "own_keys" w1 = (Return (Some FakeItems.sample_keys), w1) /\
    (forall other, other <> "own_keys" ->
       localStorage w1 !! (STORAGE_KEY_PREFIX +:+ other)
         = localStorage Fake.registered !! (STORAGE_KEY_PREFIX +:+ other)).
Proof.
  apply (stored_item_is_read_back "own_keys" FakeItems.sample_keys registered_key
           Fake.registered).
  - exact FakeFacts.fake_correct.
  - exact fake_json_reads_back.
  - exact sample_keys_read_back.
  - exact (proj1 registered_is_unlocked).
Defined.

End VaultMore.

(** ** Socket client *)

Module SocketMore.
Import Contract SecureSocketClient.

Section WithPlatform.
Context `{Platform}.

(** X12.  [sendMessage] does one of three things.  With a channel and the
    client connected (flag set and socket open) it transmits the message at
    once and queues nothing; with a channel and the client not connected it
    appends the message to the queue and transmits nothing; without a channel
    it throws and does neither.  It returns the id it put in the message. *)
Theorem sendMessage_sends_queues_or_throws c recipient content chat now :
  (forall key, E2E.sharedKeys (keyManager c) !! recipient = Some key ->
     let m := queued_entry c key recipient content chat now in
     exists c',
       sendMessage recipient content chat now c = (Return (messageId m), c') /\
       socket c' = socket c /\ isConnected c' = isConnected c /\
       keyManager c' = keyManager c /\
       (online c = true ->
          emitted c' = emitted c ++ [transmission m] /\ messageQueue c' = messageQueue c) /\
       (online c = false ->
          messageQueue c' = messageQueue c ++ [m] /\ emitted c' = emitted c)) /\
  (E2E.sharedKeys (keyManager c) !! recipient = None ->
     exists c',
       sendMessage recipient content chat now c
         = (Throw (Error "No secure channel established with recipient"), c') /\
       emitted c' = emitted c /\ messageQueue c' = messageQueue c).
Proof.
  split.
  - intros key Hk m. destruct c as [s km u q conn em ent]. cbn [keyManager] in Hk.
    unfold sendMessage, randomUUID, bind, try_catch, get, ret, modify.
    cbn [entropy_of with_entropy Client_HasEntropy keyManager entropy].
    rewrite (E2EFacts.encryptFor_established _ _ _ _ _ Hk).
    cbn [entropy_of with_entropy Client_HasEntropy keyManager entropy
         octets_drawn uuids_drawn E2E.ciphertext E2E.iv].
    unfold online. cbn [isConnected socket].
    destruct (conn && bool_decide (is_Some s)) eqn:Hon.
    + eexists. split; [reflexivity|]. cbn. repeat split; congruence.
    + eexists. split; [reflexivity|]. cbn. repeat split; congruence.
  - intros Hk. rewrite SocketFacts.sendMessage_no_channel by exact Hk.
    eexists. split; [reflexivity|]. split; reflexivity.
Qed.

(** X13.  [disconnect()] throws the queue away: the messages queued before
    it are never transmitted, not even by a later connect.  The socket's own
    ["disconnect"] event, in contrast, keeps the queue. *)
Theorem disconnect_discards_the_queue c token :
  let c1 := snd (disconnect c) in
  messageQueue c1 = [] /\ socket c1 = None /\ isConnected c1 = false /\
  emitted c1 = emitted c /\
  emitted (snd (on_connect (snd (connect token c1)))) = emitted c /\
  messageQueue (snd (on_disconnect c)) = messageQueue c.
Proof.
  cbv zeta. repeat split.
Qed.


(** X15.  The listener of incoming messages hands a message to the caller
    exactly when it decrypts, with the decrypted content, the status
    'delivered' and the receiver's own id as recipient, and then acknowledges
    it when connected; a message that does not decrypt goes to the error
    handler and is not acknowledged. *)
Theorem incoming_message_is_acknowledged_only_if_decrypted data c :
  let result :=
    E2E.decryptFrom (keyManager c) (Inbound.sm_senderId data)
      (Inbound.sm_ciphertext data) (Inbound.sm_iv data) in
  let effects := Inbound.on_encrypted_message data c in
  (forall plaintext, result = Return plaintext ->
     exists m,
       effects =
         Inbound.Handler_onMessage m ::
         (if online c
          then [Inbound.Emit_message_delivered
                  (Inbound.js_or (Inbound.sm_messageId data) (Inbound.sm_id data))
                  (Inbound.sm_senderId data)]
          else []) /\
       Inbound.content m = plaintext /\ Inbound.status m = "delivered" /\
       Inbound.senderId m = Inbound.sm_senderId data /\
       Inbound.recipientId m = userId c /\ Inbound.fromSelf m = false) /\
  (forall e, result = Throw e -> effects = [Inbound.Handler_onError e]) /\
  (forall messageId sender,
     In (Inbound.Emit_message_delivered messageId sender) effects ->
     online c = true /\ exists plaintext, result = Return plaintext).
Proof.
  cbv zeta. unfold Inbound.on_encrypted_message.
  destruct (E2E.decryptFrom _ _ _ _) as [plaintext|e].
  - split; [|split].
    + intros p [= <-]. eexists. split; [reflexivity|]. repeat split.
    + intros e [=].
    + intros messageId sender Hin. destruct (online c).
      * split; [reflexivity|]. now eexists.
      * destruct Hin as [Hin|[]]. discriminate.
  - split; [|split].
    + intros p [=].
    + now intros e' [= <-].
    + intros messageId sender [Hin|[]]. discriminate.
Qed.

End WithPlatform.

Import Fake.


End SocketMore.

(** ** The relay *)

Module RelayMore.
Import Relay.

#[local] Set Warnings "-clear-no-such-hyp".

Lemma set_add_not_nil x s : set_add x s <> [].
Proof.
  unfold set_add. case_bool_decide as Hin.
  - intros ->. by apply not_elem_of_nil in Hin.
  - by destruct s.
Qed.

Lemma set_add_NoDup x s : NoDup s -> NoDup (set_add x s).
Proof.
  intros Hs. unfold set_add. case_bool_decide as Hin; [done|].
  apply NoDup_app. repeat split; [done| |apply NoDup_singleton].
  intros y Hy ->%list_elem_of_singleton. done.
Qed.

Lemma set_delete_NoDup x s : NoDup s -> NoDup (set_delete x s).
Proof. apply NoDup_filter. Qed.

Lemma open_sockets_snoc u events e :
  open_sockets u (events ++ [e]) =
    match e with
    | Connection u' socketId =>
        if bool_decide (u' = u) then set_add socketId (open_sockets u events)
        else open_sockets u events
    | Disconnect u' socketId =>
        if bool_decide (u' = u) then set_delete socketId (open_sockets u events)
        else open_sockets u events
    end.
Proof. unfold open_sockets. by rewrite fold_left_app. Qed.

Lemma open_sockets_NoDup u events : NoDup (open_sockets u events).
Proof.
  induction events as [|e events IH] using rev_ind; [apply NoDup_nil_2|].
  rewrite open_sockets_snoc.
  destruct e; case_bool_decide; auto using set_add_NoDup, set_delete_NoDup.
Qed.

Lemma run_snoc events e s : run (events ++ [e]) s = step (run events s) e.
Proof. unfold run. by rewrite fold_left_app. Qed.

Lemma length_zero_nil {A} (l : list A) : length l = 0%nat <-> l = [].
Proof. by destruct l. Qed.

Lemma step_lookup s e u events :
  onlineUsers s !! u =
    (if bool_decide (open_sockets u events = []) then None
     else Some (open_sockets u events)) ->
  onlineUsers (step s e) !! u =
    (if bool_decide (open_sockets u (events ++ [e]) = []) then None
     else Some (open_sockets u (events ++ [e]))).
Proof.
  intros IH. rewrite open_sockets_snoc.
  destruct e as [u' sid|u' sid]; cbn [step].
  - unfold connection. cbn [onlineUsers].
    destruct (decide (u' = u)) as [->|Hne].
    + rewrite (bool_decide_true (u = u)) by done. rewrite lookup_alter_eq.
      rewrite (bool_decide_false _ (set_add_not_nil _ _)).
      rewrite IH. case_bool_decide as Hopen.
      * rewrite bool_decide_false by (intros [? [=]]). cbn [negb].
        by rewrite lookup_insert_eq, Hopen.
      * rewrite bool_decide_true by (by eexists). cbn [negb]. by rewrite IH.
    + rewrite (bool_decide_false (u' = u)) by done. rewrite lookup_alter_ne by done.
      destruct (negb _); [by rewrite lookup_insert_ne|done].
  - unfold disconnect.
    destruct (decide (u' = u)) as [->|Hne].
    + rewrite (bool_decide_true (u = u)) by done. rewrite IH.
      case_bool_decide as Hopen.
      * by rewrite IH, Hopen.
      * case_bool_decide as Hlen; cbn [onlineUsers].
        -- apply length_zero_nil in Hlen. rewrite Hlen.
           rewrite bool_decide_true by done. apply lookup_delete_eq.
        -- rewrite length_zero_nil in Hlen. rewrite bool_decide_false by done.
           apply lookup_insert_eq.
    + rewrite (bool_decide_false (u' = u)) by done. rewrite <- IH.
      destruct (onlineUsers s !! u'); [|done].
      destruct (bool_decide (length _ = 0%nat)); cbn [onlineUsers].
      * by rewrite lookup_delete_ne.
      * by rewrite lookup_insert_ne.
Qed.

Lemma online_users_lookup events u :
  onlineUsers (run events initial) !! u =
    if bool_decide (open_sockets u events = []) then None
    else Some (open_sockets u events).
Proof.
  induction events as [|e events IH] using rev_ind; [done|].
  rewrite run_snoc. by apply step_lookup.
Qed.




Lemma set_delete_only x s : NoDup s -> set_delete x s = [] -> s = [] \/ s = [x].
Proof.
  intros Hs Hd. destruct s as [|y s]; [by left|right].
  assert (Hall : forall z, z ∈ y :: s -> z = x).
  { intros z Hz. destruct (decide (z = x)) as [|Hne]; [done|].
    assert (z ∈ set_delete x (y :: s)) as Hin by (by apply list_elem_of_filter).
    rewrite Hd in Hin. by apply not_elem_of_nil in Hin. }
  assert (y = x) as -> by (apply Hall; left).
  destruct s as [|z s]; [done|].
  assert (z = x) as -> by (apply Hall; right; left).
  apply NoDup_cons in Hs as [Hs _]. exfalso. apply Hs. left.
Qed.


(** The [isOnline] column, in contrast, does not follow the sockets: a user
    flagged online when the process starts has no entry, and a user who logs
    out with a socket open keeps the entry and loses the flag. *)
Lemma the_flag_does_not_follow_the_sockets :
  let before := started {[ "bob" ]} ∅ in
  let after := run_all RelayParties.bob_comes_and_goes before in
  ("bob" ∈ flaggedOnline before /\ onlineUsers before !! "bob" = None) /\
  (onlineUsers after !! "bob" = Some ["socket-1"; "socket-2"] /\
   bool_decide ("bob" ∈ flaggedOnline after) = false).
Proof.
  cbv zeta. split; split.
  - set_solver.
  - done.
  - vm_compute. reflexivity.
  - vm_compute. reflexivity.
Qed.

(** X18.  The relay of server/index announces a user offline exactly when the
    socket that closes is the only one the user has open: then the user is
    dropped from [onlineUsers] and unflagged; while another socket is open
    nothing is announced and the user stays online. *)
Theorem offline_is_announced_when_the_last_socket_closes events u socketId :
  let s := run events initial in
  let s' := disconnect u socketId s in
  (open_sockets u events = [socketId] ->
     emissions s' = emissions s ++ [Broadcast socketId "user_offline" u] /\
     onlineUsers s' !! u = None /\ u ∉ flaggedOnline s') /\
  (open_sockets u events <> [socketId] ->
     emissions s' = emissions s /\
     flaggedOnline s' = flaggedOnline s /\
     onlineUsers s' !! u =
       (if bool_decide (open_sockets u events = []) then None
        else Some (set_delete socketId (open_sockets u events)))).
Proof.
  cbv zeta. pose proof (online_users_lookup events u) as Hl.
  pose proof (open_sockets_NoDup u events) as Hnd.
  unfold disconnect. split.
  - intros Hopen. rewrite Hopen in Hl. rewrite bool_decide_false in Hl by done.
    rewrite Hl. unfold set_delete. cbn. rewrite decide_False by (intros Hn; by apply Hn).
    cbn. repeat split; [apply lookup_delete_eq|set_solver].
  - intros Hopen. destruct (decide (open_sockets u events = [])) as [Hnil|Hnil].
    + rewrite (bool_decide_true _ Hnil) in Hl |- *. by rewrite !Hl.
    + rewrite (bool_decide_false _ Hnil) in Hl |- *. rewrite Hl.
      rewrite (bool_decide_false (length _ = 0%nat)).
      * cbn. repeat split. apply lookup_insert_eq.
      * rewrite length_zero_nil. intros Hd.
        by destruct (set_delete_only _ _ Hnd Hd).
Qed.

(** X19.  The relay of server/index stores and forwards what it was sent:
    for a message with a recipient, a ciphertext and an IV, the stored row and
    every forwarded copy carry that ciphertext and IV unchanged and the
    authenticated user as sender; one copy goes to each open socket of the
    recipient, in order; the row is 'delivered' when the recipient has a
    socket open and 'sent' otherwise; no other row changes.  A message that
    lacks one of the three is answered with an error, and nothing is stored
    or forwarded. *)
Theorem relay_stores_and_forwards_the_ciphertext direct userId socketId data newId
    createdAt now s :
  let valid :=
    bool_decide (SecureSocketClient.recipientId data <> "") &&
    truthy (SecureSocketClient.ciphertext data) && truthy (SecureSocketClient.iv data) in
  let recipientSockets := default [] (onlineUsers s !! SecureSocketClient.recipientId data) in
  let s' := on_encrypted_message direct userId socketId data (Some (newId, createdAt)) now s in
  (valid = true ->
     (exists row,
        messages s' !! newId = Some row /\
        Database.ciphertext row = SecureSocketClient.ciphertext data /\
        Database.iv row = SecureSocketClient.iv data /\
        Database.senderId row = userId /\
        Database.recipientId row = Some (SecureSocketClient.recipientId data) /\
        Database.status row =
          (if bool_decide (is_Some (onlineUsers s !! SecureSocketClient.recipientId data))
           then "delivered" else "sent")) /\
     (forall other, other <> newId -> messages s' !! other = messages s !! other) /\
     (exists copy,
        emissions s' = emissions s ++ map (fun to => Forward to copy) recipientSockets /\
        Inbound.sm_ciphertext copy = SecureSocketClient.ciphertext data /\
        Inbound.sm_iv copy = SecureSocketClient.iv data /\
        Inbound.sm_senderId copy = userId /\
        Inbound.sm_messageId copy = Some newId)) /\
  (valid = false ->
     messages s' = messages s /\
     emissions s' = emissions s ++ [ErrorTo socketId "Invalid message data"]).
Proof.
  cbv zeta. unfold on_encrypted_message.
  destruct (bool_decide (SecureSocketClient.recipientId data <> ""));
    [|split; [discriminate|done]].
  destruct (truthy (SecureSocketClient.ciphertext data));
    [|split; [discriminate|done]].
  destruct (truthy (SecureSocketClient.iv data));
    [|split; [discriminate|done]].
  cbn [negb orb andb]. split; [intros _|discriminate].
  destruct (onlineUsers s !! SecureSocketClient.recipientId data) as [sockets|] eqn:Hon;
    cbn [messages emissions default].
  - rewrite (bool_decide_true (is_Some (Some _))) by (by eexists).
    unfold Database.updateMessageStatus. rewrite lookup_insert_eq.
    cbn [Database.recipientId created_row].
    rewrite (bool_decide_true (Some _ = Some _)) by done.
    cbn [snd]. split; [|split].
    + eexists. rewrite lookup_insert_eq. split; [reflexivity|]. by repeat split.
    + intros other Hne. by rewrite !lookup_insert_ne.
    + eexists. split; [reflexivity|]. by repeat split.
  - rewrite (bool_decide_false (is_Some None)) by (intros [? [=]]). split; [|split].
    + eexists. rewrite lookup_insert_eq. split; [reflexivity|]. by repeat split.
    + intros other Hne. by rewrite lookup_insert_ne.
    + exists (forwarded_copy newId "" userId (SecureSocketClient.ciphertext data)
                (SecureSocketClient.iv data) createdAt).
      split; [by rewrite app_nil_r|]. by repeat split.
Qed.

Lemma handlers_run_snoc events e s :
  Handlers.run (events ++ [e]) s = Handlers.step (Handlers.run events s) e.
Proof. unfold Handlers.run. by rewrite fold_left_app. Qed.

Lemma last_event_of_snoc u events e :
  Handlers.last_event_of u (events ++ [e]) =
    if Handlers.concerns u e then Some e else Handlers.last_event_of u events.
Proof.
  unfold Handlers.last_event_of. rewrite List.filter_app. cbn [List.filter].
  destruct (Handlers.concerns u e); [apply last_snoc|by rewrite app_nil_r].
Qed.

Lemma handlers_lookup events u :
  Handlers.connectedUsers (Handlers.run events Handlers.initial) !! u =
    (match Handlers.last_event_of u events with
     | Some (Connection _ socketId) => Some socketId
     | _ => None
     end).
Proof.
  induction events as [|e events IH] using rev_ind; [done|].
  rewrite handlers_run_snoc, last_event_of_snoc.
  destruct e as [u' sid|u' sid]; cbn [Handlers.step Handlers.concerns];
    unfold Handlers.connection, Handlers.disconnect; cbn [Handlers.connectedUsers];
    case_bool_decide as Hu; subst.
  - apply lookup_insert_eq.
  - by rewrite lookup_insert_ne.
  - apply lookup_delete_eq.
  - by rewrite lookup_delete_ne.
Qed.

(** On the relay of server/socket/handlers, which keeps one socket id per
    user, whether a user counts as online depends on the last event of that
    user alone. *)
Lemma handlers_presence_follows_the_last_event events u :
  Handlers.connectedUsers (Handlers.run events Handlers.initial) !! u =
    (match Handlers.last_event_of u events with
     | Some (Connection _ socketId) => Some socketId
     | _ => None
     end) /\
  Handlers.isUserOnline u (Handlers.run events Handlers.initial) =
    (match Handlers.last_event_of u events with
     | Some (Connection _ _) => true
     | _ => false
     end).
Proof.
  split; [apply handlers_lookup|]. unfold Handlers.isUserOnline.
  rewrite handlers_lookup.
  destruct (Handlers.last_event_of u events) as [[]|]; try done.
  all: apply bool_decide_false; by intros [? [=]].
Qed.



Section WithPlatform.
Context `{Platform}.

Lemma decrypts_what_the_peer_encrypted km peer key block content :
  Contract.aead_correct ->
  E2E.sharedKeys km !! peer = Some key ->
  E2E.decryptFrom km peer
    (Base64.btoa (subtle_encrypt key block (Text.TextEncoder_encode content)))
    (Base64.btoa block)
  = Return (Text.TextDecoder_decode (Text.TextEncoder_encode content)).
Proof.
  intros Hc Hk. unfold E2E.decryptFrom, E2E.decryptMessage. rewrite Hk.
  unfold E2E.base64ToArrayBuffer. rewrite !Base64Facts.atob_btoa.
  cbn. unfold bind, ret. by rewrite Hc.
Qed.

Lemma sendMessage_online_emitted c key recipient content chat now :
  SecureSocketClient.online c = true ->
  E2E.sharedKeys (SecureSocketClient.keyManager c) !! recipient = Some key ->
  SecureSocketClient.emitted
    (snd (SecureSocketClient.sendMessage recipient content chat now c)) =
  SecureSocketClient.emitted c ++
  [SecureSocketClient.transmission
     (SecureSocketClient.queued_entry c key recipient content chat now)].
Proof.
  intros Hon Hk. destruct c as [s km u q conn em ent].
  cbn [SecureSocketClient.keyManager] in Hk.
  unfold SecureSocketClient.sendMessage, randomUUID, bind, try_catch, get, ret, modify.
  cbn [entropy_of with_entropy SecureSocketClient.Client_HasEntropy
       SecureSocketClient.keyManager SecureSocketClient.entropy].
  rewrite (E2EFacts.encryptFor_established _ _ _ _ _ Hk).
  cbn [entropy_of with_entropy SecureSocketClient.Client_HasEntropy
       SecureSocketClient.keyManager SecureSocketClient.entropy
       octets_drawn uuids_drawn E2E.ciphertext E2E.iv].
  unfold SecureSocketClient.online in *.
  cbn [SecureSocketClient.isConnected SecureSocketClient.socket] in *.
  by rewrite Hon.
Qed.

(** X16.  From one client through the relay to the other: whatever the relay
    of server/index forwards of the message a connected client transmits for
    a text reaches the recipient's message handler with that text, the
    authenticated sender and the status 'delivered', provided the two clients
    hold the same channel key for each other and the text is well-formed and
    does not begin with U+FEFF. *)
Theorem forwarded_message_reaches_the_handler direct alice bob key sender senderSocket
    recipient content chat now m created later srv sent to data :
  Contract.aead_correct ->
  E2E.sharedKeys (SecureSocketClient.keyManager alice) !! recipient = Some key ->
  E2E.sharedKeys (SecureSocketClient.keyManager bob) !! sender = Some key ->
  Text.well_formed content = true ->
  Text.starts_with_bom content = false ->
  SecureSocketClient.online alice = true ->
  SecureSocketClient.emitted
    (snd (SecureSocketClient.sendMessage recipient content chat now alice))
    = SecureSocketClient.emitted alice ++
      [("encrypted_message", SecureSocketClient.MessageData m)] ->
  emissions (on_encrypted_message direct sender senderSocket m created later srv)
    = emissions srv ++ sent ->
  In (Forward to data) sent ->
  exists msg rest,
    Inbound.on_encrypted_message data bob = Inbound.Handler_onMessage msg :: rest /\
    Inbound.content msg = content /\
    Inbound.senderId msg = sender /\
    Inbound.recipientId msg = SecureSocketClient.userId bob /\
    Inbound.status msg = "delivered".
Proof.
  intros Hc Hka Hk Hw Hb Hon Hm Hsent Hin.
  rewrite (sendMessage_online_emitted _ _ _ _ _ _ Hon Hka) in Hm.
  apply app_inv_head in Hm. injection Hm as <-.
  assert (Hdata : Inbound.sm_senderId data = sender /\
            Inbound.sm_ciphertext data =
              SecureSocketClient.ciphertext
                (SecureSocketClient.queued_entry alice key recipient content chat now) /\
            Inbound.sm_iv data =
              SecureSocketClient.iv
                (SecureSocketClient.queued_entry alice key recipient content chat now)).
  { revert Hsent. unfold on_encrypted_message.
    repeat match goal with
           | |- context [if ?b then _ else _] => destruct b
           | |- context [match ?o with Some _ => _ | None => _ end] => destruct o
           | |- context [let '(_, _) := ?p in _] => destruct p
           end; cbn [emissions]; intros Hsent;
      try match type of Hsent with
          | emissions srv = _ => rewrite <- (app_nil_r (emissions srv)) in Hsent at 1
          end;
      apply app_inv_head in Hsent; subst sent;
      try (by destruct Hin as [[=]|[]]); try (by destruct Hin).
    all: apply in_map_iff in Hin as (? & [= <- <-] & _); done. }
  destruct Hdata as (Hs & Hct & Hiv).
  unfold Inbound.on_encrypted_message. rewrite Hs, Hct, Hiv.
  cbn [SecureSocketClient.queued_entry SecureSocketClient.ciphertext SecureSocketClient.iv].
  rewrite (decrypts_what_the_peer_encrypted _ _ _ _ _ Hc Hk).
  rewrite TextFacts.text_round_trip by done.
  eexists _, _. split; [reflexivity|]. by repeat split.
Qed.

End WithPlatform.

Import Fake.

Lemma forwarded_message_reaches_the_handler_witness :
  exists msg rest,
    Inbound.on_encrypted_message RelayParties.hi_forwarded RelayParties.bob_online
      = Inbound.Handler_onMessage msg :: rest /\
    Inbound.content msg = Fake.text "hi" /\
    Inbound.senderId msg = "alice" /\
    Inbound.recipientId msg = SecureSocketClient.userId RelayParties.bob_online /\
    Inbound.status msg = "delivered".
Proof.
  apply (forwarded_message_reaches_the_handler RelayParties.direct_chat_id
           Fake.alice_online RelayParties.bob_online Fake.alice_bob_key "alice" "socket-a"
           "bob" (Fake.text "hi") "chat-1" 7 RelayParties.hi_from_alice (Some ("m7", 8)) 9
           RelayParties.bob_connected
           [Forward "socket-b" RelayParties.hi_forwarded] "socket-b").
  - exact FakeFacts.fake_correct.
  - reflexivity.
  - reflexivity.
  - reflexivity.
  - reflexivity.
  - reflexivity.
  - reflexivity.
  - reflexivity.
  - left. reflexivity.
Defined.

End RelayMore.

(** ** The database: read marks, counts, reactions and the rate limit *)

Module QueriesFacts.
Import Database DatabaseQueries.

#[local] Set Warnings "-clear-no-such-hyp".

Section Counting.
Context {K A : Type} `{Countable K}.

Lemma length_filter_ext (P Q : K * A -> Prop) `{!forall r, Decision (P r)}
    `{!forall r, Decision (Q r)} (l : list (K * A)) :
  (forall r, r ∈ l -> P r <-> Q r) -> length (filter P l) = length (filter Q l).
Proof.
  induction l as [|r l IH]; [done|]. intros Hext.
  rewrite !filter_cons.
  assert (length (filter P l) = length (filter Q l)) as Hl.
  { apply IH. intros r' Hr'. apply Hext. by right. }
  destruct (decide (P r)) as [Hp|Hp], (decide (Q r)) as [Hq|Hq]; cbn; try lia.
  - destruct Hq. apply Hext; [left|done].
  - destruct Hp. apply Hext; [left|done].
Qed.

Lemma count_where_ext (P Q : K * A -> Prop) `{!forall r, Decision (P r)}
    `{!forall r, Decision (Q r)} (t : gmap K A) :
  (forall k a, t !! k = Some a -> P (k, a) <-> Q (k, a)) ->
  count_where P t = count_where Q t.
Proof.
  intros Hext. apply length_filter_ext. intros [k a] Hin.
  apply Hext. by apply elem_of_map_to_list.
Qed.

Lemma count_where_zero (P : K * A -> Prop) `{!forall r, Decision (P r)} (t : gmap K A) :
  (forall k a, t !! k = Some a -> ~ P (k, a)) -> count_where P t = 0%nat.
Proof.
  intros Hno. rewrite (count_where_ext P (fun _ => False)).
  - unfold count_where. induction (map_to_list t) as [|r l IH]; [done|].
    rewrite filter_cons_False; [exact IH|tauto].
  - intros k a Hk. split; [by apply Hno|done].
Qed.

Lemma count_where_positive (P : K * A -> Prop) `{!forall r, Decision (P r)}
    (t : gmap K A) k a :
  t !! k = Some a -> P (k, a) -> count_where P t <> 0%nat.
Proof.
  intros Hk Hp Hz. apply length_zero_iff_nil in Hz.
  eapply (filter_nil_not_elem_of P); [exact Hz|exact Hp|].
  by apply elem_of_map_to_list.
Qed.

Lemma count_where_insert_new (P : K * A -> Prop) `{!forall r, Decision (P r)}
    (t : gmap K A) k a :
  t !! k = None ->
  count_where P (<[k := a]> t) =
    ((if decide (P (k, a)) then 1 else 0) + count_where P t)%nat.
Proof.
  intros Hk. unfold count_where.
  rewrite (filter_Permutation P _ _ (map_to_list_insert t k a Hk)).
  rewrite filter_cons. by destruct (decide (P (k, a))).
Qed.

Lemma count_where_delete (P : K * A -> Prop) `{!forall r, Decision (P r)}
    (t : gmap K A) k a :
  t !! k = Some a ->
  count_where P t =
    ((if decide (P (k, a)) then 1 else 0) + count_where P (delete k t))%nat.
Proof.
  intros Hk. unfold count_where.
  rewrite <- (filter_Permutation P _ _ (map_to_list_delete t k a Hk)).
  rewrite filter_cons. by destruct (decide (P (k, a))).
Qed.

Lemma count_where_fmap (P : K * A -> Prop) `{!forall r, Decision (P r)}
    (f : A -> A) (t : gmap K A) :
  count_where P (f <$> t) = count_where (fun r => P (r.1, f r.2)) t.
Proof.
  unfold count_where. rewrite map_to_list_fmap.
  induction (map_to_list t) as [|[k a] l IH]; [done|].
  rewrite fmap_cons, !filter_cons. cbn.
  destruct (decide (P (k, f a))); cbn; by rewrite IH.
Qed.

Lemma count_where_split (P Q : K * A -> Prop) `{!forall r, Decision (P r)}
    `{!forall r, Decision (Q r)} (t : gmap K A) :
  count_where P t =
    (count_where (fun r => P r /\ Q r) t + count_where (fun r => P r /\ ~ Q r) t)%nat.
Proof.
  unfold count_where. induction (map_to_list t) as [|r l IH]; [done|].
  rewrite !filter_cons.
  destruct (decide (P r)), (decide (Q r)), (decide (P r /\ Q r)),
    (decide (P r /\ ~ Q r)); cbn; try lia; tauto.
Qed.

Lemma foldl_insert_lookup {V} (f : string -> V) (groups : list string)
    (init : gmap string V) g :
  foldl (fun result g => <[g := f g]> result) init groups !! g =
    if decide (g ∈ groups) then Some (f g) else init !! g.
Proof.
  revert init. induction groups as [|g' groups IH]; intros init; [done|].
  cbn [foldl]. rewrite IH.
  destruct (decide (g ∈ groups)) as [Hin|Hin].
  - rewrite decide_True; [done|by right].
  - destruct (decide (g = g')) as [->|Hne].
    + rewrite decide_True by left. apply lookup_insert_eq.
    + rewrite decide_False; [by rewrite lookup_insert_ne|].
      by intros [?|?]%elem_of_cons.
Qed.

Lemma group_count_lookup (by_ : K * A -> string) (P : K * A -> Prop)
    `{!forall r, Decision (P r)} (t : gmap K A) g :
  group_count by_ P t !! g =
    (let n := count_where (fun r => P r /\ by_ r = g) t in
     if decide (n = 0%nat) then None else Some n).
Proof.
  unfold group_count. rewrite foldl_insert_lookup. cbn zeta.
  destruct (decide (g ∈ _)) as [Hin|Hin].
  - rewrite decide_False; [done|].
    apply elem_of_remove_dups, list_elem_of_fmap in Hin as ([k a] & -> & Hr).
    apply list_elem_of_filter in Hr as [Hp Hr].
    apply elem_of_map_to_list in Hr.
    by apply (count_where_positive _ _ k a).
  - rewrite decide_True; [done|].
    apply count_where_zero. intros k a Hk [Hp Hg]. apply Hin.
    apply elem_of_remove_dups, list_elem_of_fmap. exists (k, a). split; [done|].
    apply list_elem_of_filter. split; [done|]. by apply elem_of_map_to_list.
Qed.

End Counting.

(** The row [markChatMessagesAsRead] leaves in place of [m]. *)
Lemma mark_lookup chat userId now db messageId :
  markChatMessagesAsRead chat userId now db !! messageId =
    (fun m =>
       if bool_decide (chatId m = chat) && bool_decide (recipientId m = Some userId)
          && negb (bool_decide (status m = "read"))
       then mark_read now m else m) <$> db !! messageId.
Proof. unfold markChatMessagesAsRead. apply lookup_fmap. Qed.

(** X21.  [markChatMessagesAsRead] sets to 'read', with the time of the
    call, exactly the messages of that chat addressed to that user that were
    not read yet; a message that was read keeps its [readAt], every other row
    is unchanged, no row appears or disappears, ciphertexts are not touched,
    and a second call changes nothing. *)
Theorem markChatMessagesAsRead_marks_that_chat_only chat userId now later db messageId :
  let db' := markChatMessagesAsRead chat userId now db in
  (db !! messageId = None -> db' !! messageId = None) /\
  (forall m, db !! messageId = Some m ->
     exists m', db' !! messageId = Some m' /\
       ciphertext m' = ciphertext m /\ iv m' = iv m /\ senderId m' = senderId m /\
       recipientId m' = recipientId m /\ chatId m' = chatId m /\
       (chatId m = chat -> recipientId m = Some userId -> status m' = "read") /\
       (chatId m = chat -> recipientId m = Some userId -> status m <> "read" ->
          readAt m' = Some now) /\
       (chatId m <> chat \/ recipientId m <> Some userId \/ status m = "read" -> m' = m)) /\
  markChatMessagesAsRead chat userId later db' = db'.
Proof.
  cbv zeta. split; [|split].
  - intros Hm. by rewrite mark_lookup, Hm.
  - intros m Hm. rewrite mark_lookup, Hm. cbn [fmap option_fmap option_map].
    eexists. split; [reflexivity|].
    repeat case_bool_decide; cbn [andb negb mark_read ciphertext iv senderId recipientId
                                  chatId status readAt];
      repeat split; try done; intros; naive_solver.
  - apply map_eq. intros i. rewrite !mark_lookup.
    destruct (db !! i) as [m|]; [|done]. cbn [fmap option_fmap option_map]. f_equal.
    repeat (case_bool_decide; cbn [andb negb mark_read chatId recipientId status] in *);
      try done.
Qed.

Lemma unread_after_mark chat userId now userId' (m : Message) k :
  unread userId'
    (k, if bool_decide (chatId m = chat) && bool_decide (recipientId m = Some userId)
           && negb (bool_decide (status m = "read"))
        then mark_read now m else m) <->
  unread userId' (k, m) /\ ~ (chatId m = chat /\ userId' = userId).
Proof.
  unfold unread.
  repeat (case_bool_decide; cbn [andb negb mark_read chatId recipientId status fst snd] in *);
    naive_solver.
Qed.

Lemma chat_after_mark chat userId now (m : Message) :
  chatId (if bool_decide (chatId m = chat) && bool_decide (recipientId m = Some userId)
             && negb (bool_decide (status m = "read"))
          then mark_read now m else m) = chatId m.
Proof. by destruct (_ && _). Qed.

(** X22.  After [markChatMessagesAsRead(chat, user)] that chat has no entry
    in the user's unread counts per chat, the user's total of unread messages
    has gone down by what the chat's entry was, and the count of every other
    chat or other user is what it was. *)
Theorem marking_a_chat_read_clears_its_unread_count chat userId now db :
  let db' := markChatMessagesAsRead chat userId now db in
  getUnreadCountPerChat userId db' !! chat = None /\
  (getUnreadCount userId db =
     getUnreadCount userId db' + default 0 (getUnreadCountPerChat userId db !! chat))%nat /\
  (forall userId' chat', userId' <> userId \/ chat' <> chat ->
     getUnreadCountPerChat userId' db' !! chat' = getUnreadCountPerChat userId' db !! chat').
Proof.
  cbv zeta. unfold getUnreadCountPerChat, getUnreadCount, markChatMessagesAsRead.
  split; [|split].
  - rewrite group_count_lookup. cbn zeta. rewrite decide_True; [done|].
    apply count_where_zero. intros k m Hk [Hu Hc].
    apply lookup_fmap_Some in Hk as (m0 & <- & _).
    apply unread_after_mark in Hu as [_ Hu]. cbn [snd] in Hc.
    rewrite chat_after_mark in Hc. tauto.
  - rewrite group_count_lookup. cbn zeta.
    rewrite (count_where_split (unread userId) (fun r => chatId r.2 = chat) db).
    rewrite count_where_fmap.
    match goal with
    | |- context [count_where ?P db] =>
        lazymatch P with
        | context [mark_read] =>
            rewrite (count_where_ext P
                       (fun r => unread userId r /\ ~ chatId r.2 = chat) db)
        end
    end.
    + destruct (decide _) as [Hz|Hz]; cbn [default];
        [by rewrite Hz, Nat.add_0_r|apply Nat.add_comm].
    + intros k m _. cbn [fst snd]. rewrite unread_after_mark. tauto.
  - intros userId' chat' Hother. rewrite !group_count_lookup. cbn zeta.
    rewrite count_where_fmap.
    match goal with
    | |- context [count_where ?P db] =>
        lazymatch P with
        | context [mark_read] =>
            rewrite (count_where_ext P
                       (fun r => unread userId' r /\ chatId r.2 = chat') db)
        end
    end; [done|].
    intros k m _. cbn [fst snd]. rewrite unread_after_mark, chat_after_mark.
    naive_solver.
Qed.

End QueriesFacts.

Module DeletionFacts.
Import Database.

(** X23.  A message its sender deleted has an empty ciphertext and IV and
    stays that way: every later edit fails, by the sender with 'Cannot edit
    deleted message' and by anyone else with 'Message not found or
    unauthorized', and changes nothing; deleting it again succeeds and only
    refreshes [deletedAt]. *)
Theorem deleted_message_cannot_be_edited messageId sender now db m :
  db !! messageId = Some m ->
  senderId m = sender ->
  exists deleted,
    deleteMessage messageId sender now db = (Return deleted, <[messageId := deleted]> db) /\
    ciphertext deleted = [] /\ iv deleted = [] /\ isDeleted deleted = true /\
    (forall who ciphertext' iv' later,
       editMessage messageId who ciphertext' iv' later (<[messageId := deleted]> db)
       = (Throw (if bool_decide (who = sender) then CannotEditDeleted else Unauthorized),
          <[messageId := deleted]> db)) /\
    (forall later,
       exists again,
         deleteMessage messageId sender later (<[messageId := deleted]> db)
           = (Return again, <[messageId := again]> db) /\
         ciphertext again = [] /\ iv again = [] /\ isDeleted again = true /\
         deletedAt again = Some later /\ status again = status m /\
         editedAt again = editedAt m).
Proof.
  intros Hm Hs. eexists. split; [|split; [|split; [|split; [|split]]]].
  - unfold deleteMessage, bind, get, modify, ret, throw. rewrite Hm.
    rewrite bool_decide_true by done. cbn [negb]. reflexivity.
  - reflexivity.
  - reflexivity.
  - reflexivity.
  - intros who c v later. unfold editMessage, bind, get, modify, ret, throw.
    rewrite lookup_insert_eq. cbn [senderId isDeleted]. rewrite Hs.
    rewrite (bool_decide_ext (sender = who) (who = sender)) by done.
    by case_bool_decide.
  - intros later. eexists. split.
    + unfold deleteMessage, bind, get, modify, ret, throw.
      rewrite lookup_insert_eq. cbn [senderId]. rewrite bool_decide_true by done.
      cbn [negb]. rewrite insert_insert_eq. reflexivity.
    + by repeat split.
Qed.

Lemma deleted_message_cannot_be_edited_witness :
  exists deleted,
    deleteMessage "m1" "alice" 5 Fake.relay_table
      = (Return deleted, <["m1" := deleted]> Fake.relay_table) /\
    ciphertext deleted = [] /\ iv deleted = [] /\ isDeleted deleted = true /\
    (forall who ciphertext' iv' later,
       editMessage "m1" who ciphertext' iv' later (<["m1" := deleted]> Fake.relay_table)
       = (Throw (if bool_decide (who = "alice") then CannotEditDeleted else Unauthorized),
          <["m1" := deleted]> Fake.relay_table)) /\
    (forall later,
       exists again,
         deleteMessage "m1" "alice" later (<["m1" := deleted]> Fake.relay_table)
           = (Return again, <["m1" := again]> Fake.relay_table) /\
         ciphertext again = [] /\ iv again = [] /\ isDeleted again = true /\
         deletedAt again = Some later /\ status again = status Fake.stored_message /\
         editedAt again = editedAt Fake.stored_message).
Proof.
  apply (deleted_message_cannot_be_edited "m1" "alice" 5 Fake.relay_table
           Fake.stored_message); reflexivity.
Defined.

End DeletionFacts.

Module ReactionFacts.
Import DatabaseQueries Reactions QueriesFacts.

Ltac count_lia :=
  repeat match goal with
         | |- context [@count_where ?K ?A ?e ?c ?P ?d ?t] =>
             generalize (@count_where K A e c P d t); intro
         | |- context [@reaction_count ?G ?m ?e ?t] =>
             generalize (@reaction_count G m e t); intro
         end;
  lia.

Lemma foldl_object_set_lookup (f : string -> nat) (groups : list string)
    (init : gmap string nat) g :
  foldl (fun result g => object_set g (f g) result) init groups !! g =
    if decide (g ∈ groups /\ g <> "__proto__") then Some (f g) else init !! g.
Proof.
  revert init. induction groups as [|g' groups IH]; intros init.
  - cbn. rewrite decide_False; [done|]. intros [Hin _]. by apply not_elem_of_nil in Hin.
  - cbn [foldl]. rewrite IH.
    destruct (decide (g ∈ groups /\ g <> "__proto__")) as [[Hin Hne]|Hno].
    + rewrite decide_True; [done|]. split; [by right|done].
    + unfold object_set. destruct (decide (g = g')) as [->|Hgg'].
      * case_bool_decide as Hproto.
        -- rewrite decide_False; [done|]. intros [_ Hne]. by apply Hne.
        -- rewrite decide_True; [apply lookup_insert_eq|]. split; [left|done].
      * rewrite decide_False.
        -- case_bool_decide; [done|]. by rewrite lookup_insert_ne.
        -- intros [[?|?]%elem_of_cons Hne]; [done|]. apply Hno. by split.
Qed.

Section WithRows.
Context {G : Type}.
Implicit Types (t : gmap Key G).

Lemma reaction_count_value messageId emoji t :
  reaction_count messageId emoji t =
    if decide (emoji = "__proto__") then 0%nat
    else count_where (fun r : Key * G => r.1.1.1 = messageId /\ r.1.2 = emoji) t.
Proof.
  unfold reaction_count, getReactionCounts. cbv zeta.
  rewrite (foldl_object_set_lookup
             (fun emoji =>
                count_where (fun r : Key * G => r.1.1.1 = messageId /\ r.1.2 = emoji) t)).
  destruct (decide (emoji = "__proto__")) as [->|Hne].
  - rewrite decide_False; [done|]. intros [_ Hne]. by apply Hne.
  - destruct (decide (_ /\ _)) as [[Hin _]|Hno]; [done|]. cbn.
    symmetry. apply count_where_zero. intros k a Hk [Hm He]. apply Hno.
    split; [|done]. apply elem_of_remove_dups, list_elem_of_fmap.
    exists (k, a). split; [done|].
    apply list_elem_of_filter. split; [done|]. by apply elem_of_map_to_list.
Qed.

(** X24.  Reactions are counted once per user: [addReaction] of a reaction
    that exists returns the stored row and changes nothing, so repeating it
    cannot raise a count; a new reaction raises the count of its emoji on its
    message by one and no other count; [removeReaction] removes the caller's
    own reaction only, lowering that count by the number it returns.  The
    counts are those of every emoji but the string [__proto__], which a
    client may send as well and for which [getReactionCounts] never has an
    entry, whatever the table holds. *)
Theorem reactions_are_counted_once_per_user messageId userId emoji (row : G) t :
  let added := addReaction messageId userId emoji (Some row) t in
  let removed := removeReaction messageId userId emoji t in
  (forall again, addReaction messageId userId emoji again added.2 = added) /\
  (emoji <> "__proto__" ->
   reaction_count messageId emoji added.2 =
     (reaction_count messageId emoji t +
      (if t !! (messageId, userId, emoji) is Some _ then 0 else 1))%nat) /\
  (forall messageId' emoji', messageId' <> messageId \/ emoji' <> emoji ->
     reaction_count messageId' emoji' added.2 = reaction_count messageId' emoji' t /\
     reaction_count messageId' emoji' removed.2 = reaction_count messageId' emoji' t) /\
  (emoji <> "__proto__" ->
   reaction_count messageId emoji t =
     (reaction_count messageId emoji removed.2 + removed.1)%nat) /\
  removed.1 = (if t !! (messageId, userId, emoji) is Some _ then 1 else 0)%nat /\
  (forall key, key <> (messageId, userId, emoji) -> removed.2 !! key = t !! key) /\
  (forall anyMessage (any : gmap Key G),
     getReactionCounts anyMessage any !! "__proto__" = None).
Proof.
  assert (forall anyMessage (any : gmap Key G),
            getReactionCounts anyMessage any !! "__proto__" = None) as Hproto.
  { intros m' t'. unfold getReactionCounts. cbv zeta.
    rewrite (foldl_object_set_lookup
               (fun emoji =>
                  count_where (fun r : Key * G => r.1.1.1 = m' /\ r.1.2 = emoji) t')).
    rewrite decide_False; [done|]. intros [_ Hne]. by apply Hne. }
  cbv zeta. unfold addReaction, removeReaction.
  destruct (t !! (messageId, userId, emoji)) as [old|] eqn:Hk; cbn [fst snd].
  - split; [|split; [|split; [|split; [|split; [|split]]]]]; [| | | | | |exact Hproto].
    + intros again. by rewrite Hk.
    + intros _. count_lia.
    + intros m' e' Hother. split; [done|]. rewrite !reaction_count_value.
      destruct (decide (e' = "__proto__")); [done|].
      rewrite (count_where_delete _ t _ _ Hk). rewrite decide_False; [done|].
      cbn. naive_solver.
    + intros Hne. rewrite !reaction_count_value. rewrite !decide_False by done.
      rewrite (count_where_delete _ t _ _ Hk).
      rewrite decide_True by done. count_lia.
    + done.
    + intros key Hne. by rewrite lookup_delete_ne.
  - split; [|split; [|split; [|split; [|split; [|split]]]]]; [| | | | | |exact Hproto].
    + intros again. by rewrite lookup_insert_eq.
    + intros Hne. rewrite !reaction_count_value. rewrite !decide_False by done.
      rewrite count_where_insert_new by done.
      rewrite decide_True by done. count_lia.
    + intros m' e' Hother. split; [|done]. rewrite !reaction_count_value.
      destruct (decide (e' = "__proto__")); [done|].
      rewrite count_where_insert_new by done. rewrite decide_False; [done|].
      cbn. naive_solver.
    + intros _. count_lia.
    + done.
    + done.
Qed.

End WithRows.
End ReactionFacts.

Module NumberFacts.
Import JsNumber.
#[local] Open Scope Z_scope.

Lemma to_double_exact z : Z.abs z < 2 ^ 53 -> to_double z = z.
Proof.
  intros Hz. unfold to_double. cbv zeta.
  destruct (Z.ltb_spec (Z.abs z) (2 ^ 53)); [done|lia].
Qed.

Lemma to_double_large z : 2 ^ 53 <= Z.abs z -> 2 ^ 53 <= Z.abs (to_double z).
Proof.
  intros Hz. unfold to_double. cbv zeta.
  destruct (Z.ltb_spec (Z.abs z) (2 ^ 53)) as [Hlt|_]; [lia|].
  set (a := Z.abs z) in *.
  assert (0 < a) as Hpos by lia.
  assert (53 <= Z.log2 a) as Hlog.
  { rewrite <- (Z.log2_pow2 53) by lia. by apply Z.log2_le_mono. }
  set (e := Z.log2 a - 52).
  assert (1 <= e) as He by (unfold e; lia).
  assert (2 ^ 52 * 2 ^ e <= a) as Hlow.
  { rewrite <- Z.pow_add_r by lia. replace (52 + e) with (Z.log2 a) by (unfold e; lia).
    by apply Z.log2_spec. }
  assert (0 < 2 ^ e) as Hpow by (apply Z.pow_pos_nonneg; lia).
  assert (2 <= 2 ^ e) as Htwo.
  { change 2 with (2 ^ 1) at 1. apply Z.pow_le_mono_r; lia. }
  assert (2 ^ 52 <= a / 2 ^ e) as Hq.
  { apply Z.div_le_lower_bound; lia. }
  set (q := a / 2 ^ e) in *.
  set (q' := if _ <? _ then q else _).
  assert (q <= q') as Hq'.
  { unfold q'. destruct (_ <? _); [lia|]. destruct (_ <? _); [lia|].
    destruct (Z.even q); lia. }
  assert (2 ^ 53 <= q' * 2 ^ e) as Hprod.
  { change (2 ^ 53) with (2 ^ 52 * 2). apply Z.mul_le_mono_nonneg; lia. }
  rewrite Z.abs_mul. rewrite (Z.abs_eq (q' * 2 ^ e)) by lia.
  destruct z; cbn [Z.sgn Z.abs] in *; lia.
Qed.

Lemma new_Date_to_double z :
  new_Date (to_double z) = if bool_decide (Z.abs z <= MAX_TIME) then Some z else None.
Proof.
  unfold new_Date. destruct (Z.lt_ge_cases (Z.abs z) (2 ^ 53)) as [Hsmall|Hlarge].
  - rewrite to_double_exact by done.
    destruct (Z.leb_spec (Z.abs z) MAX_TIME); [by rewrite bool_decide_true|].
    by rewrite bool_decide_false by lia.
  - pose proof (to_double_large z Hlarge) as Hd.
    assert (MAX_TIME < 2 ^ 53) as Hmax by (by vm_compute).
    destruct (Z.leb_spec (Z.abs (to_double z)) MAX_TIME); [lia|].
    by rewrite bool_decide_false by lia.
Qed.

(** Two subtractions that are not exact: [2 ^ 53 + 2] less one is [2 ^ 53],
    and [2 ^ 53 + 4] less one and one again is [2 ^ 53 + 4]. *)
Example subtraction_is_rounded :
  to_double (2 ^ 53 + 2 - 1) = 2 ^ 53 /\
  to_double (to_double (2 ^ 53 + 4 - 1) - 1) = 2 ^ 53 + 4.
Proof. split; vm_compute; reflexivity. Qed.

End NumberFacts.

Module RateLimitFacts.
Import JsNumber RateLimit NumberFacts.
#[local] Open Scope Z_scope.

Lemma check_each_cons identifier endpoint maxRequests windowMs now later calls db :
  check_each identifier endpoint maxRequests windowMs ((now, later) :: calls) db =
    (let r := checkRateLimit identifier endpoint maxRequests windowMs now later db in
     let rs := check_each identifier endpoint maxRequests windowMs calls r.2 in
     (r.1 :: rs.1, rs.2)).
Proof.
  cbn [check_each].
  destruct (checkRateLimit _ _ _ _ _ _ _) as [r db1].
  by destruct (check_each _ _ _ _ _ _) as [rs db2].
Qed.

(** The window of a record has expired when it started before [now - windowMs]
    and that time is one a [Date] can hold. *)
Lemma expired_iff start now windowMs :
  Date_lt start (new_Date (to_double (now - windowMs))) =
    bool_decide (start < now - windowMs /\ Z.abs (now - windowMs) <= MAX_TIME).
Proof.
  rewrite new_Date_to_double. unfold Date_lt.
  case_bool_decide as Hvalid.
  - apply bool_decide_ext. tauto.
  - symmetry. apply bool_decide_false. tauto.
Qed.

(** X25.  Within one window the rate limit is a counter: starting from a
    record with count [c], of a series of calls none of which finds the
    window expired, the i-th (from 0) is allowed exactly when c + i is below
    the maximum; the record's count ends at the smaller of c + the number of
    calls and the maximum (or stays [c] if that was above), its window start
    does not move, and no other record changes. *)
Theorem rate_limit_counts_within_a_window identifier endpoint maxRequests windowMs
    calls c start db :
  db !! (identifier, endpoint) = Some {| count := c; windowStart := start |} ->
  Forall (fun call : Z * Z => call.1 - windowMs <= start) calls ->
  let result := check_each identifier endpoint maxRequests windowMs calls db in
  allowed <$> result.1 =
    (fun i : nat => bool_decide (c + Z.of_nat i < maxRequests)) <$> seq 0 (length calls) /\
  result.2 !! (identifier, endpoint) =
    Some {| count := Z.max c (Z.min (c + Z.of_nat (length calls)) maxRequests);
            windowStart := start |} /\
  (forall key, key <> (identifier, endpoint) -> result.2 !! key = db !! key).
Proof.
  cbv zeta. intros Hrec Hcalls. revert c db Hrec.
  induction Hcalls as [|[now later] calls Hcall _ IH]; intros c db Hrec.
  - cbn. split; [done|]. split; [|done]. rewrite Hrec. do 2 f_equal. lia.
  - rewrite check_each_cons. cbv zeta. cbn [fst snd] in Hcall.
    assert (checkRateLimit identifier endpoint maxRequests windowMs now later db =
              if bool_decide (c >= maxRequests)
              then ({| allowed := false; remaining := 0;
                       retryAfter :=
                         Some (to_double (to_double (start + windowMs) - later)) |}, db)
              else ({| allowed := true;
                       remaining := to_double (to_double (maxRequests - c) - 1);
                       retryAfter := None |},
                    <[(identifier, endpoint) :=
                        {| count := c + 1; windowStart := start |}]> db)) as ->.
    { unfold checkRateLimit. rewrite Hrec. cbn [count windowStart].
      rewrite expired_iff. by rewrite bool_decide_false by lia. }
    cbn [length seq fmap list_fmap]. rewrite <- fmap_S_seq, <- list_fmap_compose.
    case_bool_decide as Hfull; cbn [fst snd]; rewrite fmap_cons; cbn [allowed].
    + destruct (IH c db Hrec) as (Hall & Hcount & Hother).
      split; [|split].
      * rewrite bool_decide_false by lia. f_equal. rewrite Hall.
        apply list_fmap_ext. intros _ i _. cbn.
        rewrite !bool_decide_false by lia. done.
      * rewrite Hcount. do 2 f_equal. lia.
      * done.
    + destruct (IH (c + 1) (<[(identifier, endpoint) :=
                     {| count := c + 1; windowStart := start |}]> db))
        as (Hall & Hcount & Hother); [apply lookup_insert_eq|].
      split; [|split].
      * rewrite bool_decide_true by lia. f_equal. rewrite Hall.
        apply list_fmap_ext. intros _ i _. cbn.
        apply bool_decide_ext. lia.
      * rewrite Hcount. do 2 f_equal. lia.
      * intros key Hne. rewrite Hother by done. by rewrite lookup_insert_ne.
Qed.

Lemma rate_limit_counts_within_a_window_witness :
  let db : Table := {[ ("alice", "/api/login") := {| count := 3; windowStart := 1000 |} ]} in
  let result :=
    check_each "alice" "/api/login" 5 60000 [(2000, 2001); (3000, 3002); (4000, 4001)] db in
  allowed <$> result.1 =
    (fun i : nat => bool_decide (3 + Z.of_nat i < 5)) <$> seq 0 3 /\
  result.2 !! ("alice", "/api/login") =
    Some {| count := Z.max 3 (Z.min (3 + Z.of_nat 3) 5); windowStart := 1000 |} /\
  (forall key, key <> ("alice", "/api/login") -> result.2 !! key = db !! key).
Proof.
  cbv zeta.
  apply (rate_limit_counts_within_a_window "alice" "/api/login" 5 60000
           [(2000, 2001); (3000, 3002); (4000, 4001)] 3 1000).
  - reflexivity.
  - repeat constructor; cbn; lia.
Defined.

(** X26.  The first request of a window is let through whatever the maximum
    is, even zero or less: with no record, or with a record whose window
    started before [now - windowMs], a time that a [Date] can hold, the call
    is allowed and sets the record to count 1 starting at the time read last.
    It reports as remaining the maximum less one as doubles subtract: exactly
    that up to [2 ^ 53] in magnitude, rounded beyond.  A refused call changes
    nothing and reports 0 remaining and, as retry delay, the window start
    plus [windowMs] less the time read last, again in doubles; where those
    are exact the delay is negative by no more than the time between the two
    readings of the clock. *)
Theorem first_request_of_a_window_is_allowed identifier endpoint maxRequests windowMs
    now later db :
  let result := checkRateLimit identifier endpoint maxRequests windowMs now later db in
  ((db !! (identifier, endpoint) = None \/
    exists r, db !! (identifier, endpoint) = Some r /\
      windowStart r < now - windowMs /\ Z.abs (now - windowMs) <= MAX_TIME) ->
   result.1 = {| allowed := true; remaining := to_double (maxRequests - 1);
                 retryAfter := None |} /\
   result.2 = <[(identifier, endpoint) := {| count := 1; windowStart := later |}]> db /\
   (Z.abs (maxRequests - 1) < 2 ^ 53 -> remaining result.1 = maxRequests - 1)) /\
  (allowed result.1 = false ->
   result.2 = db /\ remaining result.1 = 0 /\
   exists delay r,
     retryAfter result.1 = Some delay /\ db !! (identifier, endpoint) = Some r /\
     delay = to_double (to_double (windowStart r + windowMs) - later) /\
     maxRequests <= count r /\
     (Z.abs (now - windowMs) <= MAX_TIME -> now - windowMs <= windowStart r) /\
     (Z.abs (now - windowMs) <= MAX_TIME ->
      Z.abs (windowStart r + windowMs) < 2 ^ 53 ->
      Z.abs (windowStart r + windowMs - later) < 2 ^ 53 ->
      delay = windowStart r + windowMs - later /\ now - later <= delay)).
Proof.
  cbv zeta. unfold checkRateLimit. split.
  - intros Hfirst.
    assert (forall r : RateLimitResult * Table,
              r.1 = {| allowed := true; remaining := to_double (maxRequests - 1);
                       retryAfter := None |} ->
              Z.abs (maxRequests - 1) < 2 ^ 53 -> remaining r.1 = maxRequests - 1)
      as Hexact.
    { intros r -> Hsmall. cbn. by apply to_double_exact. }
    destruct Hfirst as [->|(r & -> & Hexpired & Hvalid)].
    + split; [done|]. split; [done|]. by apply Hexact.
    + rewrite expired_iff, bool_decide_true by done.
      split; [done|]. split; [done|]. by apply Hexact.
  - destruct (db !! (identifier, endpoint)) as [r|]; [|discriminate].
    rewrite expired_iff.
    case_bool_decide as Hexpired; [discriminate|].
    case_bool_decide as Hfull; [|discriminate].
    intros _. cbn [fst snd remaining retryAfter]. split; [done|]. split; [done|].
    eexists _, r. split; [reflexivity|]. split; [done|]. split; [done|].
    split; [lia|]. split; [intros Hvalid; lia|].
    intros Hvalid Hsum Hdiff.
    rewrite (to_double_exact (windowStart r + windowMs)) by done.
    rewrite to_double_exact by done. lia.
Qed.

Lemma lookup_clean (olderThanMs cleanedAt : Z) (db : Table) (key : string * string) :
  cleanRateLimitRecords olderThanMs cleanedAt db !! key =
    (match db !! key with
     | Some r =>
         if bool_decide (windowStart r < cleanedAt - olderThanMs /\
                         Z.abs (cleanedAt - olderThanMs) <= MAX_TIME)
         then None else Some r
     | None => None
     end).
Proof.
  unfold cleanRateLimitRecords. rewrite new_Date_to_double.
  case_bool_decide as Hvalid.
  - destruct (db !! key) as [r|] eqn:Hk.
    + case_bool_decide as Hold.
      * apply map_lookup_filter_None. right. intros r' Hr'. cbn. naive_solver.
      * apply map_lookup_filter_Some. split; [done|]. cbn. tauto.
    + apply map_lookup_filter_None. by left.
  - destruct (db !! key) as [r|]; [|done]. rewrite bool_decide_false; [done|tauto].
Qed.

(** X27.  Cleaning up old records cannot be noticed by the rate limit:
    provided the cleanup keeps records for at least one window
    ([olderThanMs >= windowMs]), the clock does not run backwards and the
    window of the check does not start after the last time a [Date] can hold
    (as is so for every window that is not negative), a check made after
    [cleanRateLimitRecords] gives the same answer and leaves the same record
    as it would have without the cleanup. *)
Theorem cleanup_does_not_change_the_limit identifier endpoint maxRequests windowMs
    olderThanMs cleanedAt now later db :
  windowMs <= olderThanMs ->
  cleanedAt <= now ->
  now - windowMs <= MAX_TIME ->
  let cleaned := cleanRateLimitRecords olderThanMs cleanedAt db in
  let with_cleanup := checkRateLimit identifier endpoint maxRequests windowMs now later cleaned in
  let without := checkRateLimit identifier endpoint maxRequests windowMs now later db in
  with_cleanup.1 = without.1 /\
  with_cleanup.2 !! (identifier, endpoint) = without.2 !! (identifier, endpoint).
Proof.
  intros Hkeep Hclock Hend. cbv zeta. unfold checkRateLimit. rewrite lookup_clean.
  destruct (db !! (identifier, endpoint)) as [r|] eqn:Hk.
  - case_bool_decide as Hold; rewrite !expired_iff.
    + rewrite bool_decide_true by lia. cbn. by rewrite !lookup_insert_eq.
    + case_bool_decide as Hexpired; cbn [fst snd]; [by rewrite !lookup_insert_eq|].
      case_bool_decide as Hfull; cbn [fst snd]; [|by rewrite !lookup_insert_eq].
      split; [done|]. by rewrite lookup_clean, Hk, bool_decide_false.
  - cbn. by rewrite !lookup_insert_eq.
Qed.

Lemma cleanup_does_not_change_the_limit_witness :
  let db : Table := {[ ("alice", "/api/login") := {| count := 5; windowStart := 1000 |} ]} in
  let cleaned := cleanRateLimitRecords 60000 90000 db in
  let with_cleanup := checkRateLimit "alice" "/api/login" 5 60000 90001 90002 cleaned in
  let without := checkRateLimit "alice" "/api/login" 5 60000 90001 90002 db in
  with_cleanup.1 = without.1 /\
  with_cleanup.2 !! ("alice", "/api/login") = without.2 !! ("alice", "/api/login").
Proof.
  cbv zeta.
  apply (cleanup_does_not_change_the_limit "alice" "/api/login" 5 60000 60000 90000
           90001 90002); unfold MAX_TIME; lia.
Defined.

(** Without the last condition the cleanup is noticed.  A window so negative
    that it would start after the last time a [Date] can hold never expires:
    the record that is full stays full, unless the cleanup has removed it. *)
Lemma cleanup_is_noticed_by_a_window_that_starts_after_the_end_of_time :
  let db : Table := {[ ("alice", "/api/login") := {| count := 5; windowStart := 1000 |} ]} in
  let cleaned := cleanRateLimitRecords 0 90000 db in
  let with_cleanup :=
    checkRateLimit "alice" "/api/login" 5 (-9000000000000000) 90001 90002 cleaned in
  let without :=
    checkRateLimit "alice" "/api/login" 5 (-9000000000000000) 90001 90002 db in
  allowed with_cleanup.1 = true /\ allowed without.1 = false.
Proof. cbv zeta. split; vm_compute; reflexivity. Qed.

End RateLimitFacts.

(** ** Input validation *)

Module ValidationFacts.
Import InputValidation.

Lemma server_special_is_special u :
  ServerHelpers.is_special u = true -> is_special u = true.
Proof.
  unfold ServerHelpers.is_special. intros (x & Hin & Hx)%existsb_exists.
  apply N.eqb_eq in Hx. subst x. revert u Hin.
  apply List.Forall_forall. vm_compute. repeat constructor.
Qed.

Lemma has_server_special password :
  existsb ServerHelpers.is_special password = true ->
  existsb is_special password = true.
Proof.
  intros (x & Hin & Hx)%existsb_exists. apply existsb_exists.
  exists x. split; [done|]. by apply server_special_is_special.
Qed.

(** X28.  The password check of the form and the one of the server.  A
    password the form accepts is never rated weak: it is strong from 16
    characters on and medium below.  The server accepts it exactly when it
    has one of the server's own special characters, a smaller class; and
    what the server accepts the form accepts unless it is longer than 128
    characters. *)
Theorem form_and_server_password_checks password :
  let result := validatePassword password in
  (valid result = true ->
     strength result =
       Some (if bool_decide (16 <= length password)%nat then strong else medium) /\
     error result = None /\
     (12 <= length password <= 128)%nat /\
     ServerHelpers.validatePassword password = existsb ServerHelpers.is_special password) /\
  (ServerHelpers.validatePassword password = true ->
     valid result = bool_decide (length password <= 128)%nat).
Proof.
  cbv zeta. pose proof (has_server_special password) as Hsub.
  unfold validatePassword, ServerHelpers.validatePassword,
    LIMITS_password_min, LIMITS_password_max.
  destruct password as [|u rest]; [by split|]. cbn [truthy negb].
  set (password := u :: rest) in *.
  destruct (existsb is_lowercase password), (existsb is_uppercase password),
    (existsb is_digit password), (existsb is_special password),
    (existsb ServerHelpers.is_special password);
    repeat case_bool_decide;
    cbn [negb andb valid strength error invalid];
    (split; [intros Hv|intros Hv]); try discriminate; try lia; try done;
    try (by discriminate Hsub).
Qed.

#[local] Open Scope Z_scope.

Lemma isAllowed_each_cons now times l :
  isAllowed_each (now :: times) l =
    (let r := isAllowed now l in
     let rs := isAllowed_each times r.2 in
     (r.1 :: rs.1, rs.2)).
Proof.
  cbn [isAllowed_each]. destruct (isAllowed now l) as [ok l1]. cbn [fst snd].
  by destruct (isAllowed_each times l1) as [oks l2].
Qed.

Lemma last_cons (t : Z) times d : List.last (t :: times) d = List.last times t.
Proof.
  revert t d. induction times as [|t' times IH]; intros t d; [done|].
  change (List.last (t :: t' :: times) d) with (List.last (t' :: times) d).
  by rewrite !IH.
Qed.

Lemma nondecreasing_last start times :
  nondecreasing_from start times = true -> start <= List.last times start.
Proof.
  revert start. induction times as [|t times IH]; intros start; [cbn; lia|].
  cbn [nondecreasing_from]. intros [Hs Hr]%andb_true_iff. apply Z.leb_le in Hs.
  specialize (IH t Hr). rewrite last_cons. lia.
Qed.

Lemma filter_window_twice w earlier later (l : list Z) :
  earlier <= later ->
  List.filter (fun time => later - time <? w) (List.filter (fun time => earlier - time <? w) l)
  = List.filter (fun time => later - time <? w) l.
Proof.
  intros Hle. induction l as [|t l IH]; [done|]. cbn [List.filter].
  destruct (earlier - t <? w) eqn:He, (later - t <? w) eqn:Hl; cbn [List.filter];
    rewrite ?Hl, ?IH; try done.
  apply Z.ltb_lt in Hl. apply Z.ltb_ge in He. lia.
Qed.

Lemma allowed_times_cons now times ok oks :
  allowed_times (now :: times) (ok :: oks) =
    (if ok then [now] else []) ++ allowed_times times oks.
Proof. unfold allowed_times. cbn. by destruct ok. Qed.

Lemma rate_limiter_window_from times : forall l start,
  0 < windowMs l ->
  nondecreasing_from start times = true ->
  requests l = List.filter (fun time => start - time <? windowMs l) (requests l) ->
  Z.of_nat (length (requests l)) <= Z.max 0 (maxRequests l) ->
  let r := isAllowed_each times l in
  requests r.2 =
    List.filter (fun time => List.last times start - time <? windowMs l)
      (requests l ++ allowed_times times r.1) /\
  Z.of_nat (length (requests r.2)) <= Z.max 0 (maxRequests l) /\
  maxRequests r.2 = maxRequests l /\ windowMs r.2 = windowMs l.
Proof.
  induction times as [|now times IH]; intros l start Hw Hsorted Hfix Hlen; cbv zeta.
  - cbn. unfold allowed_times. cbn. by rewrite app_nil_r.
  - cbn [nondecreasing_from] in Hsorted. apply andb_true_iff in Hsorted as [Hs Hr].
    apply Z.leb_le in Hs. pose proof (nondecreasing_last _ _ Hr) as Hlast.
    rewrite isAllowed_each_cons. cbv zeta.
    set (kept := List.filter (in_window l now) (requests l)).
    assert (Hkept : Z.of_nat (length kept) <= Z.of_nat (length (requests l))).
    { apply inj_le. apply List.filter_length_le. }
    rewrite last_cons.
    unfold isAllowed. fold kept.
    destruct (Z.of_nat (length kept) >=? maxRequests l) eqn:Hfull; cbn [fst snd].
    + specialize (IH {| maxRequests := maxRequests l; windowMs := windowMs l;
                        requests := kept |} now Hw Hr).
      cbn [requests maxRequests windowMs] in IH.
      destruct IH as (Hreq & Hbound & Hm & Hwin).
      * subst kept. unfold in_window. by rewrite filter_window_twice.
      * lia.
      * rewrite allowed_times_cons, app_nil_l. split; [|done].
        rewrite Hreq. rewrite !List.filter_app. f_equal.
        subst kept. unfold in_window. by apply filter_window_twice.
    + rewrite Z.geb_leb in Hfull. apply Z.leb_gt in Hfull.
      specialize (IH {| maxRequests := maxRequests l; windowMs := windowMs l;
                        requests := kept ++ [now] |} now Hw Hr).
      cbn [requests maxRequests windowMs] in IH.
      destruct IH as (Hreq & Hbound & Hm & Hwin).
      * rewrite List.filter_app. cbn [List.filter].
        replace (now - now <? windowMs l) with true by (symmetry; apply Z.ltb_lt; lia).
        f_equal. subst kept. unfold in_window. by rewrite filter_window_twice.
      * rewrite length_app. cbn [length]. lia.
      * rewrite allowed_times_cons. split; [|done].
        rewrite Hreq. rewrite <- !app_assoc. rewrite !List.filter_app. f_equal.
        subst kept. unfold in_window. by apply filter_window_twice.
Qed.

Lemma filter_length_lt (f : Z -> bool) (l : list Z) x :
  In x l -> f x = false -> (length (List.filter f l) < length l)%nat.
Proof.
  induction l as [|y l IH]; [done|]. intros [->|Hin] Hx; cbn [List.filter].
  - rewrite Hx. pose proof (List.filter_length_le f l). cbn. lia.
  - specialize (IH Hin Hx). destruct (f y); cbn; lia.
Qed.

Lemma fold_min_in (l : list Z) t : In (fold_left Z.min l t) (t :: l).
Proof.
  revert t. induction l as [|y l IH]; intros t; [by left|]. cbn [fold_left].
  destruct (IH (Z.min t y)) as [Hm|Hin].
  - rewrite <- Hm. destruct (Z.min_spec t y) as [[_ ->]|[_ ->]]; [by left|right; by left].
  - right. by right.
Qed.

Lemma fold_min_le (l : list Z) t : fold_left Z.min l t <= t.
Proof.
  revert t. induction l as [|y l IH]; intros t; [cbn; lia|]. cbn [fold_left].
  specialize (IH (Z.min t y)). lia.
Qed.

Lemma retryAfter_suffices l now :
  1 <= maxRequests l ->
  Z.of_nat (length (requests l)) <= maxRequests l ->
  exists wait,
    getRetryAfter now l = Some wait /\ 0 <= wait /\
    (isAllowed (now + wait) l).1 = true.
Proof.
  intros Hmax Hlen. unfold getRetryAfter, isAllowed.
  destruct (Z.of_nat (length (requests l)) <? maxRequests l) eqn:Hfull.
  - exists 0. split; [done|]. split; [lia|].
    apply Z.ltb_lt in Hfull.
    pose proof (List.filter_length_le (in_window l (now + 0)) (requests l)).
    destruct (_ >=? _) eqn:Hge; [|done]. rewrite Z.geb_leb in Hge.
    apply Z.leb_le in Hge. lia.
  - apply Z.ltb_ge in Hfull.
    destruct (requests l) as [|t rest] eqn:Hreq; [cbn in Hfull; lia|].
    cbn [oldest]. eexists. split; [reflexivity|]. split; [lia|].
    set (o := fold_left Z.min rest t).
    assert (length (List.filter (in_window l (now + Z.max 0 (windowMs l - (now - o))))
                      (t :: rest)) < length (t :: rest))%nat as Hlt.
    { apply (filter_length_lt _ _ o); [apply fold_min_in|].
      unfold in_window. apply Z.ltb_ge. lia. }
    destruct (_ >=? _) eqn:Hge; [|done]. rewrite Z.geb_leb in Hge.
    apply Z.leb_le in Hge. lia.
Qed.

(** X29.  The rate limiter of the form is a sliding window: after any
    series of [isAllowed] calls on a new limiter, at times that do not
    decrease, the requests it remembers are the calls it let through less
    than [windowMs] before the last call, and they are never more than
    [maxRequests].  If the limiter allows any request at all, waiting as long
    as [getRetryAfter] says is then enough for the next call to succeed. *)
Theorem client_rate_limiter_is_a_sliding_window maxRequests_ windowMs_ start times :
  0 < windowMs_ ->
  nondecreasing_from start times = true ->
  let r := isAllowed_each times (new_RateLimiter maxRequests_ windowMs_) in
  requests r.2 =
    List.filter (fun time => List.last times start - time <? windowMs_)
      (allowed_times times r.1) /\
  Z.of_nat (length (requests r.2)) <= Z.max 0 maxRequests_ /\
  (1 <= maxRequests_ ->
   forall now, exists wait,
     getRetryAfter now r.2 = Some wait /\ 0 <= wait /\
     (isAllowed (now + wait) r.2).1 = true).
Proof.
  intros Hw Hsorted. cbv zeta.
  destruct (rate_limiter_window_from times (new_RateLimiter maxRequests_ windowMs_) start)
    as (Hreq & Hbound & Hmax & _); try done.
  { cbn [new_RateLimiter requests length]. lia. }
  cbn [new_RateLimiter maxRequests windowMs requests] in *.
  split; [done|]. split; [done|].
  intros Hone now. apply retryAfter_suffices; rewrite Hmax; lia.
Qed.

Lemma client_rate_limiter_is_a_sliding_window_witness :
  let r := isAllowed_each [1000; 1200; 1300; 2100; 2250] (new_RateLimiter 2 1000) in
  requests r.2 =
    List.filter (fun time => List.last [1000; 1200; 1300; 2100; 2250] 0 - time <? 1000)
      (allowed_times [1000; 1200; 1300; 2100; 2250] r.1) /\
  Z.of_nat (length (requests r.2)) <= Z.max 0 2 /\
  (1 <= 2 ->
   forall now, exists wait,
     getRetryAfter now r.2 = Some wait /\ 0 <= wait /\
     (isAllowed (now + wait) r.2).1 = true).
Proof.
  cbv zeta.
  apply (client_rate_limiter_is_a_sliding_window 2 1000 0
           [1000; 1200; 1300; 2100; 2250]); [lia|reflexivity].
Defined.

#[local] Close Scope Z_scope.

Lemma entity_of_cases char :
  (entity_of char = None /\ Forall (fun e => e.1 <> char) HTML_ENTITIES) \/
  (exists entity, entity_of char = Some entity /\ In (char, entity) HTML_ENTITIES).
Proof.
  unfold entity_of, HTML_ENTITIES. cbn [List.find fst snd].
  repeat match goal with
         | |- context [if ?k =? char then _ else _] =>
             destruct (N.eqb_spec k char) as [<-|?]
         end;
    try (right; eexists; split; [reflexivity|]; cbn; tauto).
  left. split; [done|]. repeat constructor; done.
Qed.

Lemma entities_harmless :
  Forall (fun e : N * jsstring =>
            Forall harmless e.2 /\ (length e.2 <= 6)%nat /\
            exists rest, e.2 = chr "&" :: rest /\ Forall (fun u => u <> chr "&") rest)
         HTML_ENTITIES.
Proof.
  unfold HTML_ENTITIES.
  repeat (apply Forall_cons; split;
          [split; [|split; [cbn; lia|eexists; split; [reflexivity|]]];
           repeat (apply Forall_cons; split; [try (repeat split; done); done|]);
           apply Forall_nil_2|]).
  apply Forall_nil_2.
Qed.

Lemma escapeHtml_cons char str :
  escapeHtml (char :: str) = default [char] (entity_of char) ++ escapeHtml str.
Proof. reflexivity. Qed.

Lemma piece_cases char :
  (default [char] (entity_of char) = [char] /\
   (is_control char = false -> harmless char) /\ char <> chr "&") \/
  (exists rest, default [char] (entity_of char) = chr "&" :: rest /\
     Forall harmless (chr "&" :: rest) /\ (length rest < 6)%nat /\
     Forall (fun u => u <> chr "&") rest /\
     In (chr "&" :: rest) (snd <$> HTML_ENTITIES)).
Proof.
  destruct (entity_of_cases char) as [[-> Hkeys]|(entity & -> & Hin)]; cbn [default].
  - left. split; [done|]. unfold HTML_ENTITIES in Hkeys.
    repeat match goal with
           | H : Forall _ (_ :: _) |- _ => apply Forall_cons in H as [? H]
           end.
    cbn [fst] in *. unfold harmless. repeat split; try done; by intros ->.
  - right. pose proof entities_harmless as Hall.
    apply (proj1 (List.Forall_forall _ _)) with (x := (char, entity)) in Hall; [|done].
    cbn [snd] in Hall. destruct Hall as (Hh & Hlen & rest & -> & Hamp).
    exists rest. repeat split; try done; try (cbn in Hlen; lia).
    apply in_map_iff. by exists (char, chr "&" :: rest).
Qed.

Lemma escapeHtml_harmless str :
  Forall (fun u => is_control u = false) str -> Forall harmless (escapeHtml str).
Proof.
  induction 1 as [|char str Hc _ IH]; [apply Forall_nil_2|].
  rewrite escapeHtml_cons. apply Forall_app. split; [|done].
  destruct (piece_cases char) as [(-> & Hh & _)|(rest & -> & Hh & _)]; [|done].
  apply Forall_cons. split; [by apply Hh|apply Forall_nil_2].
Qed.

Lemma escapeHtml_length str : (length (escapeHtml str) <= 6 * length str)%nat.
Proof.
  induction str as [|char str IH]; [done|].
  rewrite escapeHtml_cons, length_app. cbn [length].
  destruct (piece_cases char) as [(-> & _)|(rest & -> & _ & Hlen & _)]; cbn [length]; lia.
Qed.

Lemma escapeHtml_ampersand str : forall i,
  escapeHtml str !! i = Some (chr "&") ->
  exists entity,
    In entity (snd <$> HTML_ENTITIES) /\ entity `prefix_of` drop i (escapeHtml str).
Proof.
  induction str as [|char str IH]; intros i Hi; [done|].
  rewrite escapeHtml_cons in Hi |- *. unfold jsstring in *.
  destruct (decide (i < length (default [char] (entity_of char)))%nat) as [Hlt|Hge].
  - rewrite lookup_app_l in Hi by done.
    destruct (piece_cases char) as [(Hp & _ & Hne)|(rest & Hp & _ & _ & Hamp & Hin)];
      rewrite Hp in *.
    + destruct i as [|i]; [|cbn in Hlt; lia]. by injection Hi.
    + destruct i as [|i].
      * exists (chr "&" :: rest). split; [done|]. by apply prefix_app_r.
      * cbn in Hi. apply list_elem_of_lookup_2 in Hi.
        by apply (proj1 (Forall_forall _ _) Hamp) in Hi.
  - rewrite lookup_app_r in Hi by lia. rewrite drop_app_ge by lia.
    by apply IH.
Qed.

(** X30.  What [sanitizeMessage] returns carries no markup and no control
    characters: none of its code units is an angle bracket, a quote, a slash,
    a backtick or a control character other than tab, line feed and carriage
    return, and every ampersand in it begins one of the seven entities.  The
    length limit is applied before the escaping: the result is bounded by six
    times the limit, not by the limit. *)
Theorem sanitized_message_carries_no_markup message :
  let sanitized := sanitizeMessage message in
  Forall harmless sanitized /\
  (forall i, sanitized !! i = Some (chr "&") ->
     exists entity,
       In entity (snd <$> HTML_ENTITIES) /\ entity `prefix_of` drop i sanitized) /\
  (length sanitized <= 6 * LIMITS_message_max)%nat.
Proof.
  cbv zeta. unfold sanitizeMessage. split; [|split].
  - apply escapeHtml_harmless. apply List.Forall_forall.
    intros u [_ Hu]%filter_In. by apply negb_true_iff in Hu.
  - apply escapeHtml_ampersand.
  - etransitivity; [apply escapeHtml_length|].
    apply Nat.mul_le_mono_l.
    etransitivity; [apply List.filter_length_le|].
    etransitivity; [apply List.filter_length_le|].
    rewrite length_take. lia.
Qed.

End ValidationFacts.
